(** * Synthetic minimap dataset generator: a shallow embedding

    The definitions below follow [src/train/generate_dataset.py] function by
    function.  Python floats and ints are read as exact rationals ([Q]),
    pixel sizes and loop counters as integers ([Z]).  Three steps of the
    code lose precision by construction and are kept apart from the exact
    reading: the double product that [int()] truncates to a pixel count
    (lines 58, 61 and 197, interface [Float64]), the narrowing of a point to
    float32 (line 134, [apply_homography_in]) and the six-decimal formatting
    of a label (line 225, interface [Formatter]).  The pseudo-random source,
    the image library and numpy's least-squares routine are external to the
    repository; they enter as interfaces (type classes) whose operations the
    code calls.  Exceptions are values of [result]. *)

From Stdlib Require Import Ascii String ZArith QArith Qminmax Qround Qabs Qpower List Bool Lia
  Lqa QNsatz.
Import ListNotations.
Open Scope Q_scope.

(** ** Exceptions and the state-and-error monad *)

Inductive error : Type :=
| InvalidCorrespondenceCount   (* ValueError("Need 4 point pairs for homography.") *)
| ShapeError                   (* numpy reshape on a wrong number of entries *)
| EmptyRange                   (* random.randint on an empty range *)
| EmptyPool                    (* random.choice on an empty sequence *)
| EmptySequence                (* min() or max() of an empty sequence *)
| DecodeError                  (* Image.open on an unreadable file *)
| UnboundLocal                 (* a local variable read before assignment *)
| OverflowError                (* int() of an infinite float *)
| NotANumberError              (* ValueError of int() on a NaN *)
| ImagesDoNotMatch             (* ValueError("images do not match") of Image.blend *)
| SystemExit.                  (* raise SystemExit(...) *)

Inductive result (A : Type) : Type :=
| Ok (a : A)
| Err (e : error).
Arguments Ok {A} a.
Arguments Err {A} e.

Definition M (S A : Type) : Type := S -> result (A * S).

Definition ret {S A : Type} (a : A) : M S A := fun s => Ok (a, s).

Definition bind {S A B : Type} (m : M S A) (k : A -> M S B) : M S B :=
  fun s => match m s with
           | Ok (a, s') => k a s'
           | Err e => Err e
           end.

Definition raise {S A : Type} (e : error) : M S A := fun _ => Err e.

Definition lift {S A : Type} (r : result A) : M S A :=
  fun s => match r with
           | Ok a => Ok (a, s)
           | Err e => Err e
           end.

Declare Scope monad_scope.
Delimit Scope monad_scope with monad.
Notation "x <- m ;; k" := (bind m (fun x => k))
  (at level 61, m at next level, right associativity) : monad_scope.
Notation "' p <- m ;; k" := (bind m (fun x => let p := x in k))
  (at level 61, p pattern, m at next level, right associativity) : monad_scope.

(** ** Scalars *)

Definition Qlt_bool (a b : Q) : bool := negb (Qle_bool b a).

(** [int(x)] on a float: truncation towards zero. *)
Definition py_int (x : Q) : Z := Z.quot (Qnum x) (Zpos (Qden x)).

(** [clamp(value, lo, hi) = max(lo, min(hi, value))] *)
Definition clamp (value lo hi : Q) : Q := Qmax lo (Qmin hi value).

(** [min(xs)] and [max(xs)] on a non-empty list; [None] is Python's
    ValueError on an empty one. *)
Definition py_min_list (xs : list Q) : option Q :=
  match xs with
  | [] => None
  | x :: rest => Some (fold_left Qmin rest x)
  end.

Definition py_max_list (xs : list Q) : option Q :=
  match xs with
  | [] => None
  | x :: rest => Some (fold_left Qmax rest x)
  end.

(** ** Doubles

    The value of one double operation: a finite number, an infinity or a
    NaN.  [f64_mul] and [f64_div] are the product of an int and a float and
    the quotient of two ints as the interpreter computes them, rounded to a
    double; the divisor is never zero where the code divides. *)

Inductive fval : Type :=
| Finite (q : Q)
| Infinite (negative : bool)
| NotANumber.

Class Float64 : Type := {
  f64_mul : Q -> Q -> fval;
  f64_div : Q -> Q -> fval
}.

(** [int(x)] on the result of a double operation: truncation towards zero,
    OverflowError on an infinity, ValueError on a NaN. *)
Definition py_int_f (v : fval) : result Z :=
  match v with
  | Finite q => Ok (py_int q)
  | Infinite _ => Err OverflowError
  | NotANumber => Err NotANumberError
  end.

(** ** Geometry solver *)

Definition point : Type := Q * Q.

Record mat3 : Type := Mat3 {
  h11 : Q; h12 : Q; h13 : Q;
  h21 : Q; h22 : Q; h23 : Q;
  h31 : Q; h32 : Q; h33 : Q
}.

(** numpy's [np.linalg.lstsq(a, b, rcond=None)[0]]. *)
Class LinAlg : Type := { lstsq : list (list Q) -> list Q -> list Q }.

(** The [for (x, y), (u, v) in zip(src, dst)] loop of [solve_homography],
    with the accumulators [a] and [b]. *)
Fixpoint build_system (pairs : list (point * point))
    (a : list (list Q)) (b : list Q) : list (list Q) * list Q :=
  match pairs with
  | [] => (a, b)
  | ((x, y), (u, v)) :: rest =>
      build_system rest
        ((a ++ [[x; y; 1; 0; 0; 0; - u * x; - u * y]])
           ++ [[0; 0; 0; x; y; 1; - v * x; - v * y]])
        ((b ++ [u]) ++ [v])
  end.

(** [np.append(h, 1.0).reshape(3, 3)] *)
Definition reshape3 (l : list Q) : result mat3 :=
  match l with
  | [a1; a2; a3; a4; a5; a6; a7; a8; a9] => Ok (Mat3 a1 a2 a3 a4 a5 a6 a7 a8 a9)
  | _ => Err ShapeError
  end.

Definition solve_homography `{LinAlg} (src dst : list point) : result mat3 :=
  if negb (Nat.eqb (length src) 4) || negb (Nat.eqb (length dst) 4)
  then Err InvalidCorrespondenceCount
  else
    let '(a, b) := build_system (combine src dst) [] [] in
    let h := lstsq a b in
    reshape3 (h ++ [1]).

(** [(h / h[2, 2]).reshape(-1)[:8].tolist()] *)
Definition perspective_coeffs `{LinAlg} (dst src : list point) : result (list Q) :=
  match solve_homography dst src with
  | Err e => Err e
  | Ok h =>
      let d := h33 h in
      Ok [h11 h / d; h12 h / d; h13 h / d;
          h21 h / d; h22 h / d; h23 h / d;
          h31 h / d; h32 h / d]
  end.

(** [apply_homography] (lines 131-140) over any number type [F]: line 134
    narrows the point to float32 ([narrow32]; [one32] is the 1.0 of the
    vector), [h @ vec] takes one product per row ([row_dot]), [tz == 0] is
    [is_zero] and [/] is [quotient].  The point kept when the weight is zero
    is the one passed in, not the narrowed one. *)
Record arithmetic (F : Type) : Type := Arithmetic {
  narrow32 : F -> F;
  one32 : F;
  row_dot : F * F * F -> F * F * F -> F;
  quotient : F -> F -> F;
  is_zero : F -> bool
}.
Arguments narrow32 {F} _ _.
Arguments one32 {F} _.
Arguments row_dot {F} _ _ _.
Arguments quotient {F} _ _ _.
Arguments is_zero {F} _ _.

Definition rows (F : Type) : Type := (F * F * F) * (F * F * F) * (F * F * F).

Definition apply_homography_step_in {F : Type} (A : arithmetic F) (h : rows F)
    (out : list (F * F)) (p : F * F) : list (F * F) :=
  let '(x, y) := p in
  let vec := (narrow32 A x, narrow32 A y, one32 A) in
  let '(r1, r2, r3) := h in
  let tx := row_dot A r1 vec in
  let ty := row_dot A r2 vec in
  let tz := row_dot A r3 vec in
  if is_zero A tz then out ++ [(x, y)]
  else out ++ [(quotient A tx tz, quotient A ty tz)].

Definition apply_homography_in {F : Type} (A : arithmetic F)
    (points : list (F * F)) (h : rows F) : list (F * F) :=
  fold_left (apply_homography_step_in A h) points [].

Definition rows_of (h : mat3) : rows Q :=
  ((h11 h, h12 h, h13 h), (h21 h, h22 h, h23 h), (h31 h, h32 h, h33 h)).

Definition exact_arithmetic : arithmetic Q :=
  {| narrow32 := fun x => x;
     one32 := 1;
     row_dot := fun r v =>
       let '(a, b, c) := r in let '(x, y, z) := v in a * x + b * y + c * z;
     quotient := Qdiv;
     is_zero := fun t => Qeq_bool t 0 |}.

(** The same loop written out in exact arithmetic, where narrowing to
    float32 changes nothing ([apply_homography_exact_reading] below); the
    statements over exact arithmetic are about this form.

    [h @ vec] for [vec = (x, y, 1)]: *)
Definition matvec (h : mat3) (p : point) : Q * Q * Q :=
  let '(x, y) := p in
  (h11 h * x + h12 h * y + h13 h * 1,
   h21 h * x + h22 h * y + h23 h * 1,
   h31 h * x + h32 h * y + h33 h * 1).

Definition weight (h : mat3) (p : point) : Q := snd (matvec h p).

(** One iteration of the loop of [apply_homography]. *)
Definition apply_homography_step (h : mat3) (out : list point) (p : point) : list point :=
  let '(x, y) := p in
  let '(tx, ty, tz) := matvec h (x, y) in
  if Qeq_bool tz 0 then out ++ [(x, y)] else out ++ [(tx / tz, ty / tz)].

Definition apply_homography (points : list point) (h : mat3) : list point :=
  fold_left (apply_homography_step h) points [].

(** ** The pseudo-random source

    [random] is [random.random()], a float in [0, 1); [randbelow n] is
    CPython's [Random._randbelow(n)], an integer in [0, n).  The other draws
    are written from them as the standard library does. *)

Class RandomSource (RNG : Type) : Type := {
  random : RNG -> Q * RNG;
  randbelow : Z -> RNG -> Z * RNG
}.

Section Draws.
Context {RNG : Type} `{RandomSource RNG}.

Definition draw_random : M RNG Q := fun s => Ok (random s).

(** [random.uniform(a, b) = a + (b - a) * random()] *)
Definition uniform (a b : Q) : M RNG Q :=
  fun s => let '(r, s') := random s in Ok (a + (b - a) * r, s').

(** [random.randint(a, b) = randrange(a, b + 1)] *)
Definition randint (a b : Z) : M RNG Z :=
  if (b <? a)%Z then raise EmptyRange
  else fun s => let '(k, s') := randbelow (b - a + 1) s in Ok ((a + k)%Z, s').

(** [random.choice(seq) = seq[_randbelow(len(seq))]] *)
Definition choice {A : Type} (seq : list A) : M RNG A :=
  match seq with
  | [] => raise EmptyPool
  | _ :: _ =>
      fun s => let '(k, s') := randbelow (Z.of_nat (length seq)) s in
               match nth_error seq (Z.to_nat k) with
               | Some a => Ok (a, s')
               | None => Err EmptyPool
               end
  end.
End Draws.

(** What the draws promise. *)
Class RandomLaws (RNG : Type) `{RandomSource RNG} : Prop := {
  random_unit : forall s, 0 <= fst (random s) /\ fst (random s) < 1;
  randbelow_range : forall n s, (0 < n)%Z -> (0 <= fst (randbelow n s) < n)%Z
}.

(** ** The image library (PIL), as far as the generator calls it *)

Class ImageLib (Image : Type) : Type := {
  img_open : string -> result Image;                    (* Image.open *)
  image_size : Image -> Z * Z;                          (* img.size *)
  img_mode : Image -> string;                           (* img.mode *)
  img_convert : Image -> string -> Image;               (* img.convert(mode) *)
  img_resize : Image -> Z * Z -> Image;                 (* img.resize(size, BICUBIC) *)
  img_paste : Image -> Image -> Z * Z -> Image;         (* bg.paste(fg, pos, alpha of fg) *)
  img_perspective : Image -> Z * Z -> list Q -> Image;  (* img.transform(size, PERSPECTIVE, coeffs) *)
  img_blend : Image -> Image -> Q -> result Image;      (* Image.blend *)
  img_alpha_composite : Image -> Image -> Image;        (* Image.alpha_composite *)
  img_brightness : Image -> Q -> Image;                 (* ImageEnhance.Brightness(img).enhance *)
  img_contrast : Image -> Q -> Image;                   (* ImageEnhance.Contrast(img).enhance *)
  moire_pattern : Z * Z -> Q -> Q -> Image;             (* the sine field of add_moire as an RGB image *)
  glare_overlay : Z * Z -> Z * Z * Z * Z -> Z -> Q -> Image  (* blurred ellipse of add_glare *)
}.

Definition bbox : Type := Q * Q * Q * Q.

(** [math.pi], the double nearest to pi. *)
Definition math_pi : Q := 884279719003555 # 281474976710656.

Section Generator.
Context {RNG : Type} `{RandomSource RNG}.
Context {Image : Type} `{ImageLib Image}.
Context `{LinAlg}.
Context `{Float64}.

Local Open Scope monad_scope.

Definition pil_to_rgb (img : Image) : Image :=
  if String.eqb (img_mode img) "RGB" then img else img_convert img "RGB".

Definition alpha_paste (bg fg : Image) (pos : Z * Z) : Image :=
  let fg := if String.eqb (img_mode fg) "RGBA" then fg else img_convert fg "RGBA" in
  img_paste bg fg pos.

(** [int(side * (target_long / other))]: a division of two ints, which
    raises OverflowError when the quotient is no finite double, a product
    of an int by a double, and [int()]. *)
Definition scaled_side (side target_long other : Z) : result Z :=
  match f64_div (inject_Z target_long) (inject_Z other) with
  | Finite ratio => py_int_f (f64_mul (inject_Z side) ratio)
  | Infinite _ => Err OverflowError
  | NotANumber => Err NotANumberError
  end.

Definition resize_keep_aspect (img : Image) (target_long : Z) : result Image :=
  let '(w, h) := image_size img in
  if (w =? 0)%Z || (h =? 0)%Z then Ok img
  else if (w >=? h)%Z then
    match scaled_side h target_long w with
    | Ok new_h => Ok (img_resize img (Z.max 1 target_long, Z.max 1 new_h))
    | Err e => Err e
    end
  else
    match scaled_side w target_long h with
    | Ok new_w => Ok (img_resize img (Z.max 1 new_w, Z.max 1 target_long))
    | Err e => Err e
    end.

Definition add_moire (img : Image) (strength : Q) : M RNG Image :=
  let '(w, h) := image_size img in
  freq <- uniform 8 16 ;;
  angle <- uniform 0 math_pi ;;
  let pat := moire_pattern (w, h) freq angle in
  lift (img_blend img pat (clamp strength 0 (3 # 10))).

Definition add_glare (img : Image) (strength : Q) : M RNG Image :=
  let '(w, h) := image_size img in
  cx <- randint (py_int (inject_Z w * (1 # 10))) (py_int (inject_Z w * (9 # 10))) ;;
  cy <- randint (py_int (inject_Z h * (1 # 10))) (py_int (inject_Z h * (9 # 10))) ;;
  radius <- randint (py_int (inject_Z (Z.min w h) * (15 # 100)))
                    (py_int (inject_Z (Z.min w h) * (35 # 100))) ;;
  let alpha := py_int (255 * clamp strength (1 # 10) (6 # 10)) in
  let overlay :=
    glare_overlay (w, h) (cx - radius, cy - radius, cx + radius, cy + radius)%Z
                  alpha (inject_Z radius * (35 # 100)) in
  let base := img_convert img "RGBA" in
  ret (img_convert (img_alpha_composite base overlay) "RGB").

Definition canvas_corners (w h : Z) : list point :=
  [(0, 0); (inject_Z w, 0); (inject_Z w, inject_Z h); (0, inject_Z h)].

Definition random_perspective_points (w h : Z) (max_shift : Q)
  : M RNG (list point * list point) :=
  let src := canvas_corners w h in
  let dx := inject_Z w * max_shift in
  let dy := inject_Z h * max_shift in
  a0 <- uniform 0 dx ;; b0 <- uniform 0 dy ;;
  a1 <- uniform 0 dx ;; b1 <- uniform 0 dy ;;
  a2 <- uniform 0 dx ;; b2 <- uniform 0 dy ;;
  a3 <- uniform 0 dx ;; b3 <- uniform 0 dy ;;
  ret (src, [(a0, b0);
             (inject_Z w - a1, b1);
             (inject_Z w - a2, inject_Z h - b2);
             (a3, inject_Z h - b3)]).

(** [min(xs), min(ys), max(xs), max(ys)] over a list of points. *)
Definition enclosing_rect (pts : list point) : result bbox :=
  let xs := map fst pts in
  let ys := map snd pts in
  match py_min_list xs, py_min_list ys, py_max_list xs, py_max_list ys with
  | Some x1, Some y1, Some x2, Some y2 => Ok (x1, y1, x2, y2)
  | _, _, _, _ => Err EmptySequence
  end.

(** The box remapping of the perspective branch of [augment_image]. *)
Definition warp_bbox (h_mat : mat3) (b : bbox) : result bbox :=
  let '(x1, y1, x2, y2) := b in
  let pts := [(x1, y1); (x2, y1); (x2, y2); (x1, y2)] in
  let tpts := apply_homography pts h_mat in
  enclosing_rect tpts.

(** The [if apply_perspective:] block of [augment_image]. *)
Definition perspective_stage (img : Image) (b : bbox) : M RNG (Image * bbox) :=
  let '(w, h) := image_size img in
  '(src, dst) <- random_perspective_points w h (8 # 100) ;;
  coeffs <- lift (perspective_coeffs dst src) ;;
  let img := img_perspective img (w, h) coeffs in
  h_mat <- lift (solve_homography src dst) ;;
  b' <- lift (warp_bbox h_mat b) ;;
  ret (img, b').

(** The rest of [augment_image]: moire, glare, brightness, contrast. *)
Definition photometric_stages (img : Image) (apply_moire_flag apply_glare_flag : bool)
  : M RNG Image :=
  img <-
    (if apply_moire_flag then
       s <- uniform (5 # 100) (12 # 100) ;; add_moire img s
     else ret img) ;;
  img <-
    (if apply_glare_flag then
       s <- uniform (2 # 10) (5 # 10) ;; add_glare img s
     else ret img) ;;
  r <- draw_random ;;
  img <-
    (if Qlt_bool r (1 # 2) then
       f <- uniform (85 # 100) (115 # 100) ;; ret (img_brightness img f)
     else ret img) ;;
  r <- draw_random ;;
  img <-
    (if Qlt_bool r (1 # 2) then
       f <- uniform (9 # 10) (12 # 10) ;; ret (img_contrast img f)
     else ret img) ;;
  ret img.

Definition augment_image (img : Image) (b : bbox)
    (apply_perspective apply_moire_flag apply_glare_flag : bool)
  : M RNG (Image * bbox) :=
  '(img, b) <-
    (if apply_perspective then perspective_stage img b else ret (img, b)) ;;
  img <- photometric_stages img apply_moire_flag apply_glare_flag ;;
  ret (img, b).

(** [max(8, int(min(bw, bh) * scale))], the long side handed to
    [resize_keep_aspect] by [generate_one]; the product is a double, and
    [int()] raises when it is not finite. *)
Definition resize_target (bw bh : Z) (scale : Q) : result Z :=
  match py_int_f (f64_mul (inject_Z (Z.min bw bh)) scale) with
  | Ok target => Ok (Z.max 8 target)
  | Err e => Err e
  end.

(** [max(1, bw - fw)], the upper end of the offset range of [generate_one]. *)
Definition max_offset (b f : Z) : Z := Z.max 1 (b - f).

Definition generate_one (minimap_path champion_path : string) (img_size : Z)
    (scale_range : Q * Q)
    (apply_perspective apply_moire_flag apply_glare_flag : bool)
  : M RNG (Image * bbox) :=
  bg <- lift (img_open minimap_path) ;;
  let bg := pil_to_rgb bg in
  let bg := if (img_size >? 0)%Z then img_resize bg (img_size, img_size) else bg in
  let '(bw, bh) := image_size bg in
  fg <- lift (img_open champion_path) ;;
  let fg := if String.eqb (img_mode fg) "RGBA" then fg else img_convert fg "RGBA" in
  scale <- uniform (fst scale_range) (snd scale_range) ;;
  target_long <- lift (resize_target bw bh scale) ;;
  fg <- lift (resize_keep_aspect fg target_long) ;;
  let '(fw, fh) := image_size fg in
  let max_x := max_offset bw fw in
  let max_y := max_offset bh fh in
  x <- randint 0 max_x ;;
  y <- randint 0 max_y ;;
  let bg := alpha_paste bg fg (x, y) in
  let b := (inject_Z x, inject_Z y, inject_Z (x + fw), inject_Z (y + fh)) in
  augment_image bg b apply_perspective apply_moire_flag apply_glare_flag.
End Generator.

(** ** Label encoder

    A label file holds one line [class cx cy w h]; the record keeps the four
    numbers handed to the [.6f] formatter, and [format_label] below gives
    the text.  The label directory is modelled by the chronological log of
    [path.write_text] calls. *)

Record label_line : Type := LabelLine {
  class_id : Z;
  cx : Q;
  cy : Q;
  lw : Q;
  lh : Q
}.

Definition label_log : Type := list (string * label_line).

Definition write_text (path : string) (line : label_line) (fs : label_log) : label_log :=
  fs ++ [(path, line)].

Definition clamp_bbox (b : bbox) (img_size : Z) : bbox :=
  let '(x1, y1, x2, y2) := b in
  (clamp x1 0 (inject_Z img_size), clamp y1 0 (inject_Z img_size),
   clamp x2 0 (inject_Z img_size), clamp y2 0 (inject_Z img_size)).

Definition save_yolo_label (path : string) (b : bbox) (img_size : Z) (class_id : Z)
    (fs : label_log) : label_log :=
  let '(x1, y1, x2, y2) := b in
  let x1 := clamp x1 0 (inject_Z img_size) in
  let y1 := clamp y1 0 (inject_Z img_size) in
  let x2 := clamp x2 0 (inject_Z img_size) in
  let y2 := clamp y2 0 (inject_Z img_size) in
  if Qle_bool x2 x1 || Qle_bool y2 y1 then fs
  else
    let cx := (x1 + x2) / 2 / inject_Z img_size in
    let cy := (y1 + y2) / 2 / inject_Z img_size in
    let w := (x2 - x1) / inject_Z img_size in
    let h := (y2 - y1) / inject_Z img_size in
    write_text path (LabelLine class_id cx cy w h) fs.

(** ** Sample orchestrator ([main]) *)

Record config : Type := Config {
  minimaps : list string;
  champions : list string;
  output_dir : string;
  count : Z;
  cfg_img_size : Z;
  min_scale : Q;
  max_scale : Q;
  moire_prob : Q;
  glare_prob : Q;
  perspective_prob : Q
}.

(** [f"{i:06d}"] for a non-negative [i]. *)
Definition digit_char (d : Z) : Ascii.ascii := Ascii.ascii_of_nat (48 + Z.to_nat d).

Fixpoint decimal_digits (fuel : nat) (n : Z) (acc : string) : string :=
  match fuel with
  | O => acc
  | S fuel' =>
      let acc' := String (digit_char (n mod 10)) acc in
      if (n / 10 =? 0)%Z then acc' else decimal_digits fuel' (n / 10) acc'
  end.

Fixpoint zero_pad (fuel width : nat) (s : string) : string :=
  match fuel with
  | O => s
  | S fuel' =>
      if Nat.ltb (String.length s) width then zero_pad fuel' width (String "0"%char s) else s
  end.

Definition out_name (i : Z) : string :=
  zero_pad 6 6 (decimal_digits (S (Z.to_nat (Z.log2 i))) i EmptyString).

(** The test that ends the retry loop: [(x2 - x1) > 2 and (y2 - y1) > 2]. *)
Definition validate (b : bbox) : bool :=
  let '(x1, y1, x2, y2) := b in
  Qlt_bool 2 (x2 - x1) && Qlt_bool 2 (y2 - y1).

(** What the specification words as the acceptance test: the same
    thresholds on the box clamped to the canvas. *)
Definition validate_clamped (b : bbox) (img_size : Z) : bool :=
  validate (clamp_bbox b img_size).

Inductive control (A : Type) : Type :=
| Continue (a : A)
| Break (a : A).
Arguments Continue {A} a.
Arguments Break {A} a.

Section Orchestrator.
Context {RNG : Type} `{RandomSource RNG}.
Context {Image : Type} `{ImageLib Image}.
Context `{LinAlg}.
Context `{Float64}.

Local Open Scope monad_scope.

(** The variables of the [while True] loop; [attempts] counts the calls
    of [generate_one] and is not a variable of the program. *)
Record loop_state : Type := LoopState {
  tries : Z;
  current : option (Image * bbox);
  attempts : nat
}.

Definition loop_init : loop_state := LoopState 0 None 0.

(** Lines 267-280: the draws of one attempt and the call of [generate_one]. *)
Definition attempt (cfg : config) : M RNG (Image * bbox) :=
  bg_path <- choice (minimaps cfg) ;;
  fg_path <- choice (champions cfg) ;;
  r <- draw_random ;;
  let apply_moire_flag := Qlt_bool r (moire_prob cfg) in
  r <- draw_random ;;
  let apply_glare_flag := Qlt_bool r (glare_prob cfg) in
  r <- draw_random ;;
  let apply_perspective := Qlt_bool r (perspective_prob cfg) in
  generate_one bg_path fg_path (cfg_img_size cfg) (min_scale cfg, max_scale cfg)
               apply_perspective apply_moire_flag apply_glare_flag.

(** One pass through the body of [while True]. *)
Definition retry_body (cfg : config) (st : loop_state) : M RNG (control loop_state) :=
  let tries' := (tries st + 1)%Z in
  if (tries' >? 5)%Z then
    ret (Break (LoopState tries' (current st) (attempts st)))
  else
    '(img, b) <- attempt cfg ;;
    let st' := LoopState tries' (Some (img, b)) (S (attempts st)) in
    if validate b then ret (Break st') else ret (Continue st').

(** [while True]; [None] when the fuel runs out before a [break]. *)
Fixpoint retry_loop (fuel : nat) (cfg : config) (st : loop_state)
  : M RNG (option loop_state) :=
  match fuel with
  | O => ret None
  | S fuel' =>
      c <- retry_body cfg st ;;
      match c with
      | Break st' => ret (Some st')
      | Continue st' => retry_loop fuel' cfg st'
      end
  end.

(** The output trees: the log of [img.save] calls and the label log. *)
Record world : Type := World {
  saved_images : list (string * Image * Z);
  labels : label_log
}.

(** The body of [for i in range(1, args.count + 1)]. *)
Definition process_index (fuel : nat) (cfg : config) (i : Z) (w : world)
  : M RNG (option world) :=
  r <- retry_loop fuel cfg loop_init ;;
  match r with
  | None => ret None
  | Some st =>
      match current st with
      | None => raise UnboundLocal
      | Some (img, b) =>
          let name := out_name i in
          let img_path := (output_dir cfg ++ "/images/" ++ name ++ ".jpg")%string in
          let label_path := (output_dir cfg ++ "/labels/" ++ name ++ ".txt")%string in
          ret (Some (World (saved_images w ++ [(img_path, img, 92%Z)])
                           (save_yolo_label label_path b (cfg_img_size cfg) 0 (labels w))))
      end
  end.

Fixpoint for_each (fuel : nat) (cfg : config) (indices : list Z) (w : world)
  : M RNG (option world) :=
  match indices with
  | [] => ret (Some w)
  | i :: rest =>
      r <- process_index fuel cfg i w ;;
      match r with
      | None => ret None
      | Some w' => for_each fuel cfg rest w'
      end
  end.

Definition main (fuel : nat) (cfg : config) : M RNG (option world) :=
  match minimaps cfg, champions cfg with
  | [], _ => raise SystemExit
  | _, [] => raise SystemExit
  | _, _ =>
      for_each fuel cfg (map Z.of_nat (seq 1 (Z.to_nat (count cfg)))) (World [] [])
  end.
End Orchestrator.

(** ** The text of a label

    Line 225 formats the class with [str] and each of the four numbers with
    [.6f].  [fmt6 x] is the text of [f"{x:.6f}"] read as a whole number of
    millionths: the text 0.501563 is the integer 501563.  The formatter is
    the interpreter's; it enters as an interface. *)

Class Formatter : Type := { fmt6 : Q -> Z }.

Record written_line : Type := WrittenLine {
  w_class : Z;
  w_cx : Z;
  w_cy : Z;
  w_w : Z;
  w_h : Z
}.

Definition format_label `{Formatter} (line : label_line) : written_line :=
  WrittenLine (class_id line) (fmt6 (cx line)) (fmt6 (cy line))
              (fmt6 (lw line)) (fmt6 (lh line)).

(** The characters of the file. *)
Definition py_str_nat (n : Z) : string :=
  decimal_digits (S (Z.to_nat (Z.log2 n))) n EmptyString.

Definition py_str_int (n : Z) : string :=
  if (n <? 0)%Z then ("-" ++ py_str_nat (- n))%string else py_str_nat n.

Definition fixed6 (k : Z) : string :=
  ((if (k <? 0)%Z then "-" else "")
   ++ py_str_nat (Z.abs k / 1000000) ++ "."
   ++ zero_pad 6 6 (py_str_nat (Z.abs k mod 1000000)))%string.

Definition newline : string := String (Ascii.ascii_of_nat 10) EmptyString.

Definition label_text (w : written_line) : string :=
  (py_str_int (w_class w) ++ " " ++ fixed6 (w_cx w) ++ " " ++ fixed6 (w_cy w)
   ++ " " ++ fixed6 (w_w w) ++ " " ++ fixed6 (w_h w) ++ newline)%string.

(** ** Predicates of the statements *)

Definition bbox_eq (a b : bbox) : Prop :=
  let '(a1, a2, a3, a4) := a in
  let '(b1, b2, b3, b4) := b in
  a1 == b1 /\ a2 == b2 /\ a3 == b3 /\ a4 == b4.

(** Twice the signed area of the triangle [p q r]. *)
Definition cross (p q r : point) : Q :=
  (fst q - fst p) * (snd r - snd p) - (fst r - fst p) * (snd q - snd p).

(** A quad no three corners of which lie on one line. *)
Definition non_degenerate (quad : list point) : Prop :=
  match quad with
  | [p0; p1; p2; p3] =>
      ~ cross p0 p1 p2 == 0 /\ ~ cross p0 p1 p3 == 0 /\
      ~ cross p0 p2 p3 == 0 /\ ~ cross p1 p2 p3 == 0
  | _ => False
  end.

Fixpoint dot (r x : list Q) : Q :=
  match r, x with
  | a :: r', b :: x' => a * b + dot r' x'
  | _, _ => 0
  end.

(** [x] solves the linear system [a x = b] exactly. *)
Definition solves (a : list (list Q)) (x b : list Q) : Prop :=
  Forall2 (fun r y => dot r x == y) a b.

(** On the system that [solve_homography] builds from [src] and [dst],
    least squares returns one unknown per column of [a]. *)
Definition lstsq_shape_on `{LinAlg} (src dst : list point) : Prop :=
  let '(a, b) := build_system (combine src dst) [] [] in
  length (lstsq a b) = length (hd [] a).

(** Least squares in exact arithmetic on that system: the residual is zero. *)
Definition lstsq_exact_on `{LinAlg} (src dst : list point) : Prop :=
  let '(a, b) := build_system (combine src dst) [] [] in
  length (lstsq a b) = length (hd [] a) /\ solves a (lstsq a b) b.

(** ** Reference instances of the interfaces

    They make the generator run inside Rocq on concrete inputs. *)

(** Exact least squares for a square non-singular system: Gauss-Jordan
    elimination over the rationals, which returns the unique solution. *)
Module ExactSolver.
Definition row : Type := list Q.

Definition entry (r : row) (j : nat) : Q := nth j r 0.

Definition scale_row (c : Q) (r : row) : row := map (fun a => Qred (c * a)) r.

(** [r - c * p] *)
Fixpoint sub_row (r p : row) (c : Q) : row :=
  match r, p with
  | a :: r', b :: p' => Qred (a - c * b) :: sub_row r' p' c
  | _, _ => []
  end.

(** First row with a non-zero entry in column [j], and the other rows. *)
Fixpoint find_pivot (j : nat) (rows : list row) : option (row * list row) :=
  match rows with
  | [] => None
  | r :: rest =>
      if Qeq_bool (entry r j) 0 then
        match find_pivot j rest with
        | Some (p, others) => Some (p, r :: others)
        | None => None
        end
      else Some (r, rest)
  end.

Fixpoint eliminate (ncols : nat) (j : nat) (reduced pending : list row) : list row :=
  match ncols with
  | O => reduced
  | S n =>
      match find_pivot j pending with
      | None => eliminate n (S j) reduced pending
      | Some (p, others) =>
          let p1 := scale_row (/ entry p j) p in
          let clear r := sub_row r p1 (entry r j) in
          eliminate n (S j) (map clear reduced ++ [p1]) (map clear others)
      end
  end.

Definition solve (a : list (list Q)) (b : list Q) : list Q :=
  let n := length (hd [] a) in
  let augmented := map (fun '(r, y) => r ++ [y]) (combine a b) in
  map (fun r => entry r n) (eliminate n 0 [] augmented).
End ExactSolver.

Definition ExactLinAlg : LinAlg := {| lstsq := ExactSolver.solve |}.

(** A scripted source: each draw consumes one integer of the script. *)
Module Scripted.
Definition rng : Type := list Z.

Definition two53 : Z := 9007199254740992.

Definition random (s : rng) : Q * rng :=
  match s with
  | [] => (0, [])
  | k :: s' => (inject_Z (k mod two53) / inject_Z two53, s')
  end.

Definition randbelow (n : Z) (s : rng) : Z * rng :=
  match s with
  | [] => (0%Z, [])
  | k :: s' => ((k mod n)%Z, s')
  end.
End Scripted.

Definition ScriptedRandom : RandomSource Scripted.rng :=
  {| random := Scripted.random; randbelow := Scripted.randbelow |}.

(** Images reduced to their mode and size; every pixel operation keeps
    the size PIL gives its result. *)
Module Sized.
Record image : Type := Image { mode : string; size : Z * Z }.

Definition disk : Type := list (string * image).

Fixpoint open (d : disk) (path : string) : result image :=
  match d with
  | [] => Err DecodeError
  | (p, i) :: d' => if String.eqb p path then Ok i else open d' path
  end.
End Sized.

Definition SizedImages (d : Sized.disk) : ImageLib Sized.image :=
  {| img_open := Sized.open d;
     image_size := Sized.size;
     img_mode := Sized.mode;
     img_convert := fun i m => Sized.Image m (Sized.size i);
     img_resize := fun i wh => Sized.Image (Sized.mode i) wh;
     img_paste := fun bg _ _ => bg;
     img_perspective := fun i wh _ => Sized.Image (Sized.mode i) wh;
     img_blend := fun i j _ =>
       if String.eqb (Sized.mode i) (Sized.mode j)
          && Z.eqb (fst (Sized.size i)) (fst (Sized.size j))
          && Z.eqb (snd (Sized.size i)) (snd (Sized.size j))
       then Ok i else Err ImagesDoNotMatch;
     img_alpha_composite := fun i _ => i;
     img_brightness := fun i _ => i;
     img_contrast := fun i _ => i;
     moire_pattern := fun wh _ _ => Sized.Image "RGB" wh;
     glare_overlay := fun wh _ _ _ => Sized.Image "RGBA" wh |}.

(** Rounding to the nearest binary floating-point number, ties to even:
    [prec] significant bits, exponents from [emin] to [emax]. *)
Module Binary.
(** The integer part of the binary logarithm of a positive rational. *)
Definition ilog2 (q : Q) : Z :=
  let k := (Z.log2 (Qnum q) - Z.log2 (Zpos (Qden q)))%Z in
  if Qle_bool (Qpower 2 k) q then k else (k - 1)%Z.

Definition round_half_even (x : Q) : Z :=
  let f := Qfloor x in
  match Qcompare (x - inject_Z f) (1 # 2) with
  | Lt => f
  | Gt => (f + 1)%Z
  | Eq => if Z.even f then f else (f + 1)%Z
  end.

Definition round (prec emin emax : Z) (q : Q) : fval :=
  if Qeq_bool q 0 then Finite 0
  else
    let a := Qabs q in
    let e := Z.max (ilog2 a) emin in
    let shift := (prec - 1 - e)%Z in
    let m := round_half_even (a * Qpower 2 shift) in
    let r := Qred (inject_Z m * Qpower 2 (- shift)) in
    if Qle_bool (Qpower 2 (emax + 1)) r then Infinite (Qlt_bool q 0)
    else Finite (if Qlt_bool q 0 then - r else r).

Definition round64 : Q -> fval := round 53 (-1022) 1023.
Definition round32 : Q -> fval := round 24 (-126) 127.

Definition mul (u v : fval) : fval :=
  match u, v with
  | Finite a, Finite b => round64 (a * b)
  | NotANumber, _ | _, NotANumber => NotANumber
  | Finite a, Infinite s | Infinite s, Finite a =>
      if Qeq_bool a 0 then NotANumber else Infinite (xorb s (Qlt_bool a 0))
  | Infinite s, Infinite t => Infinite (xorb s t)
  end.

Definition add (u v : fval) : fval :=
  match u, v with
  | Finite a, Finite b => round64 (a + b)
  | NotANumber, _ | _, NotANumber => NotANumber
  | Finite _, Infinite s | Infinite s, Finite _ => Infinite s
  | Infinite s, Infinite t => if Bool.eqb s t then Infinite s else NotANumber
  end.

Definition div (u v : fval) : fval :=
  match u, v with
  | Finite a, Finite b =>
      if Qeq_bool b 0
      then (if Qeq_bool a 0 then NotANumber else Infinite (Qlt_bool a 0))
      else round64 (a / b)
  | NotANumber, _ | _, NotANumber => NotANumber
  | Finite _, Infinite _ => Finite 0
  | Infinite s, Finite b => Infinite (xorb s (Qlt_bool b 0))
  | Infinite _, Infinite _ => NotANumber
  end.

Definition narrow (v : fval) : fval :=
  match v with
  | Finite q => round32 q
  | other => other
  end.

Definition zero (v : fval) : bool :=
  match v with
  | Finite q => Qeq_bool q 0
  | _ => false
  end.
End Binary.

(** IEEE doubles. *)
Definition Binary64 : Float64 :=
  {| f64_mul := fun a b => Binary.round64 (a * b);
     f64_div := fun a b => if Qeq_bool b 0 then NotANumber else Binary.round64 (a / b) |}.

(** Numpy's arithmetic on one evaluation order: the products of a row are
    rounded one by one and summed from the left. *)
Definition binary_arithmetic : arithmetic fval :=
  {| narrow32 := Binary.narrow;
     one32 := Finite 1;
     row_dot := fun r v =>
       let '(a, b, c) := r in
       let '(x, y, z) := v in
       Binary.add (Binary.add (Binary.mul a x) (Binary.mul b y)) (Binary.mul c z);
     quotient := Binary.div;
     is_zero := Binary.zero |}.

(** [.6f] as the nearest whole number of millionths.  A number that lies
    exactly halfway goes to the even neighbour here; the interpreter formats
    the double, which lies on one side of the halfway point or the other. *)
Definition HalfEven6 : Formatter :=
  {| fmt6 := fun x => Binary.round_half_even (x * 1000000) |}.

(** ** Concrete inputs used by the examples *)

Definition quad_src : list point := [(0, 0); (10, 0); (10, 10); (0, 10)].
Definition quad_dst : list point := [(1 # 2, 1 # 3); (9, 1 # 5); (10, 9); (2 # 3, 8)].
Definition vanishing : mat3 := Mat3 1 0 0 0 1 0 1 0 (-1).
Definition shear : mat3 := Mat3 2 1 0 0 3 1 1 0 (-1).

(** A matrix as numpy holds it. *)
Definition float_rows (h : mat3) : rows fval :=
  ((Finite (h11 h), Finite (h12 h), Finite (h13 h)),
   (Finite (h21 h), Finite (h22 h), Finite (h23 h)),
   (Finite (h31 h), Finite (h32 h), Finite (h33 h))).

(** The doubles nearest to 0.29 and to 0.7. *)
Definition double_0_29 : Q := 5224175567749775 # 18014398509481984.
Definition double_0_7 : Q := 3152519739159347 # 4503599627370496.

Definition canvas100 : Sized.image := Sized.Image "RGB" (100, 100)%Z.
Definition two50 : Z := 1125899906842624.
Definition quad_script : Scripted.rng :=
  [4 * two50; 2 * two50; two50; 4 * two50; 2 * two50; 2 * two50; 0; 4 * two50]%Z.

Definition quad_drawn : list point :=
  Eval vm_compute in
    match @random_perspective_points _ ScriptedRandom 100 100 (8 # 100) quad_script with
    | Ok (_, dst, _) => dst
    | Err _ => []
    end.

Definition disk0 : Sized.disk :=
  [("minimap.png"%string, Sized.Image "RGB" (512, 512)%Z);
   ("champion.png"%string, Sized.Image "RGBA" (120, 120)%Z);
   ("banner.png"%string, Sized.Image "RGBA" (200, 2)%Z)].

(** One minimap, one champion, every augmentation switched off. *)
Definition cfg_of (champion : string) (img_size : Z) (lo hi : Q) : config :=
  Config ["minimap.png"%string] [champion] "out" 1 img_size lo hi 0 0 0.

(** The script entry that makes [random()] return one half. *)
Definition half : Z := 4503599627370496.

(** What holds of the loop variables each time the body is entered. *)
Definition loop_invariant {Image : Type} (st : @loop_state Image) : Prop :=
  (0 <= tries st <= 5)%Z /\ attempts st = Z.to_nat (tries st)
  /\ ((1 <= tries st)%Z -> current st <> None).

(** The box a label line stands for, in units of the canvas side: it lies
    in the unit square and has positive extent. *)
Definition label_in_unit_square (line : label_line) : Prop :=
  (0 <= cx line - lw line / 2 /\ cx line + lw line / 2 <= 1) /\
  (0 <= cy line - lh line / 2 /\ cy line + lh line / 2 <= 1) /\
  0 < lw line /\ 0 < lh line.

(** Reading a label line back into pixel coordinates. *)
Definition decode_label (line : label_line) (img_size : Z) : bbox :=
  ((cx line - lw line / 2) * inject_Z img_size,
   (cy line - lh line / 2) * inject_Z img_size,
   (cx line + lw line / 2) * inject_Z img_size,
   (cy line + lh line / 2) * inject_Z img_size).

(** The file names [main] gives to sample [i]. *)
Definition image_path (cfg : config) (i : Z) : string :=
  (output_dir cfg ++ "/images/" ++ out_name i ++ ".jpg")%string.

Definition label_path (cfg : config) (i : Z) : string :=
  (output_dir cfg ++ "/labels/" ++ out_name i ++ ".txt")%string.

(** [range(1, count + 1)] *)
Definition sample_indices (cfg : config) : list Z :=
  map Z.of_nat (seq 1 (Z.to_nat (count cfg))).

(** The four fields of a written line lie between 0.000000 and 1.000000. *)
Definition written_in_unit (w : written_line) : Prop :=
  (0 <= w_cx w <= 1000000)%Z /\ (0 <= w_cy w <= 1000000)%Z
  /\ (0 <= w_w w <= 1000000)%Z /\ (0 <= w_h w <= 1000000)%Z.

(** Reading a written line back into pixel coordinates. *)
Definition decode_written (w : written_line) (img_size : Z) : bbox :=
  let field (k : Z) := inject_Z k / 1000000 in
  ((field (w_cx w) - field (w_w w) / 2) * inject_Z img_size,
   (field (w_cy w) - field (w_h w) / 2) * inject_Z img_size,
   (field (w_cx w) + field (w_w w) / 2) * inject_Z img_size,
   (field (w_cy w) + field (w_h w) / 2) * inject_Z img_size).

(** Two boxes whose corresponding coordinates differ by at most [tol]. *)
Definition bbox_within (tol : Q) (a b : bbox) : Prop :=
  let '(a1, a2, a3, a4) := a in
  let '(b1, b2, b3, b4) := b in
  (- tol <= a1 - b1 /\ a1 - b1 <= tol) /\ (- tol <= a2 - b2 /\ a2 - b2 <= tol)
  /\ (- tol <= a3 - b3 /\ a3 - b3 <= tol) /\ (- tol <= a4 - b4 /\ a4 - b4 <= tol).

(** What the formatter promises: the text is the decimal nearest to the
    number.  The bound leaves room for the rounding of the double that is
    formatted. *)
Class FormatterLaws `{Formatter} : Prop := {
  fmt6_near : forall x : Q,
    x * 1000000 - (501 # 1000) <= inject_Z (fmt6 x)
    /\ inject_Z (fmt6 x) <= x * 1000000 + (501 # 1000)
}.

(** What holds of a label entry written while the samples [indices] were
    processed: of the numbers handed to the formatter, in exact arithmetic. *)
Definition label_entry_exact (cfg : config) (indices : list Z)
    (entry : string * label_line) : Prop :=
  class_id (snd entry) = 0%Z
  /\ label_in_unit_square (snd entry)
  /\ (0 < cfg_img_size cfg)%Z
  /\ exists i : Z, In i indices /\ fst entry = label_path cfg i.

(** The same of the text of the entry. *)
Definition label_entry_ok `{Formatter} (cfg : config) (indices : list Z)
    (entry : string * label_line) : Prop :=
  class_id (snd entry) = 0%Z
  /\ written_in_unit (format_label (snd entry))
  /\ (0 < cfg_img_size cfg)%Z
  /\ exists i : Z, In i indices /\ fst entry = label_path cfg i.

(** What holds of the loop variables each time the body is entered, with
    the verdict on the box of the pass before. *)
Definition loop_invariant_failed {Image : Type} (st : @loop_state Image) : Prop :=
  (0 <= tries st <= 5)%Z /\ attempts st = Z.to_nat (tries st)
  /\ ((1 <= tries st)%Z ->
      exists (img : Image) (b : bbox), current st = Some (img, b) /\ validate b = false).

(** Matrices and points up to equality of rationals. *)
Definition mat3_eq (a b : mat3) : Prop :=
  h11 a == h11 b /\ h12 a == h12 b /\ h13 a == h13 b /\
  h21 a == h21 b /\ h22 a == h22 b /\ h23 a == h23 b /\
  h31 a == h31 b /\ h32 a == h32 b /\ h33 a == h33 b.

Definition mat3_id : mat3 := Mat3 1 0 0 0 1 0 0 0 1.

Definition point_eq (p q : point) : Prop := fst p == fst q /\ snd p == snd q.

(** [p] lies in the closed rectangle [b]. *)
Definition in_rect (b : bbox) (p : point) : Prop :=
  let '(x1, y1, x2, y2) := b in
  (x1 <= fst p /\ fst p <= x2) /\ (y1 <= snd p /\ snd p <= y2).

(** What PIL promises of the size and mode of the images it returns. *)
Class ImageLaws (Image : Type) `{ImageLib Image} : Prop := {
  size_convert : forall i m, image_size (img_convert i m) = image_size i;
  mode_convert : forall i m, img_mode (img_convert i m) = m;
  size_resize : forall i wh, image_size (img_resize i wh) = wh;
  mode_resize : forall i wh, img_mode (img_resize i wh) = img_mode i;
  size_paste : forall bg fg pos, image_size (img_paste bg fg pos) = image_size bg;
  mode_paste : forall bg fg pos, img_mode (img_paste bg fg pos) = img_mode bg;
  size_perspective : forall i wh c, image_size (img_perspective i wh c) = wh;
  mode_perspective : forall i wh c, img_mode (img_perspective i wh c) = img_mode i;
  blend_rgb : forall i j a,
    img_mode i = "RGB"%string -> img_mode j = "RGB"%string ->
    image_size i = image_size j ->
    exists k, img_blend i j a = Ok k
              /\ image_size k = image_size i /\ img_mode k = "RGB"%string;
  size_moire : forall w h f a,
    (0 < w)%Z -> (0 < h)%Z -> image_size (moire_pattern (w, h) f a) = (w, h);
  mode_moire : forall w h f a,
    (0 < w)%Z -> (0 < h)%Z -> img_mode (moire_pattern (w, h) f a) = "RGB"%string;
  size_alpha_composite : forall i j, image_size (img_alpha_composite i j) = image_size i;
  size_brightness : forall i f, image_size (img_brightness i f) = image_size i;
  mode_brightness : forall i f, img_mode (img_brightness i f) = img_mode i;
  size_contrast : forall i f, image_size (img_contrast i f) = image_size i;
  mode_contrast : forall i f, img_mode (img_contrast i f) = img_mode i
}.

(** A pool of paths every one of which opens as an image. *)
Definition readable_pool {Image : Type} `{ImageLib Image} (pool : list string) : Prop :=
  Forall (fun p => exists img : Image, img_open p = Ok img) pool.

(** The largest side of an image the library can hold. *)
Definition max_side : Z := 2147483647.

(** A pool of paths every one of which opens as an image without a zero side. *)
Definition solid_pool {Image : Type} `{ImageLib Image} (pool : list string) : Prop :=
  Forall (fun p => exists (img : Image) (w h : Z),
              img_open p = Ok img /\ image_size img = (w, h)
              /\ (0 < w <= max_side)%Z /\ (0 < h <= max_side)%Z) pool.

(** What double arithmetic promises of a product or a quotient that is not
    negative and far below the largest double: the result is finite, not
    negative, and within a relative error of [f64_eps] (and an absolute one
    of [f64_eps] near zero).  Half a unit in the last place is 2^-53; the
    bound leaves room for operands that are rounded themselves. *)
Definition f64_eps : Q := 1 # 1125899906842624.
Definition f64_range : Q := 1000000000000000000000000000000.

Class Float64Laws `{Float64} : Prop := {
  f64_mul_near : forall a b : Q,
    0 <= a * b -> a * b <= f64_range ->
    exists p : Q, f64_mul a b = Finite p /\ 0 <= p
      /\ a * b - f64_eps * (a * b + 1) <= p /\ p <= a * b + f64_eps * (a * b + 1);
  f64_div_near : forall a b : Q,
    0 <= a -> 0 < b -> a / b <= f64_range ->
    exists p : Q, f64_div a b = Finite p /\ 0 <= p
      /\ a / b - f64_eps * (a / b + 1) <= p /\ p <= a / b + f64_eps * (a / b + 1)
}.

(** An image and box as [generate_one] returns them without perspective:
    an RGB canvas and an integer box inside it. *)
Definition placed_sample {Image : Type} `{ImageLib Image} (img_size : Z)
    (img : Image) (b : bbox) : Prop :=
  exists x y fw fh : Z,
    b = (inject_Z x, inject_Z y, inject_Z (x + fw), inject_Z (y + fh))
    /\ (0 <= x /\ x + fw <= img_size)%Z
    /\ (0 <= y /\ y + fh <= img_size)%Z
    /\ (1 <= fw)%Z /\ (1 <= fh)%Z
    /\ image_size img = (img_size, img_size)
    /\ img_mode img = "RGB"%string.

(** An RGB image of the canvas size. *)
Definition canvas_image {Image : Type} `{ImageLib Image} (img_size : Z) (img : Image) : Prop :=
  image_size img = (img_size, img_size) /\ img_mode img = "RGB"%string.

(** Reading a string of decimal digits, most significant first. *)
Fixpoint parse_decimal (s : string) (acc : Z) : Z :=
  match s with
  | EmptyString => acc
  | String c rest => parse_decimal rest (acc * 10 + (Z.of_nat (nat_of_ascii c) - 48))
  end.

(** * Properties *)

(** ** Running the monad *)

Lemma bind_ok {S A B : Type} (m : M S A) (k : A -> M S B) (s s' : S) (a : A) :
  m s = Ok (a, s') -> bind m k s = k a s'.
Proof. intro E. unfold bind. now rewrite E. Qed.

Lemma bind_assoc_run {S A B C : Type} (m : M S A) (k : A -> M S B) (k' : B -> M S C)
    (s : S) :
  bind (bind m k) k' s = bind m (fun a => bind (k a) k') s.
Proof. unfold bind. destruct (m s) as [[a s']|e]; reflexivity. Qed.

Lemma bind_lift_ok {S A B : Type} (r : result A) (k : A -> M S B) (s : S) (a : A) :
  r = Ok a -> bind (lift r) k s = k a s.
Proof. intros ->. reflexivity. Qed.

(** ** Scalars and the geometry solver *)

Lemma Qlt_bool_iff (a b : Q) : Qlt_bool a b = true <-> a < b.
Proof.
  unfold Qlt_bool. rewrite negb_true_iff.
  split; intro Hab.
  - apply Qnot_le_lt. intro Hle. apply Qle_bool_iff in Hle. congruence.
  - destruct (Qle_bool b a) eqn:E; [|reflexivity].
    apply Qle_bool_iff in E. exfalso. exact (Qlt_not_le _ _ Hab E).
Qed.

Lemma build_system_four (p0 p1 p2 p3 q0 q1 q2 q3 : point) :
  build_system (combine [p0; p1; p2; p3] [q0; q1; q2; q3]) [] [] =
  ([[fst p0; snd p0; 1; 0; 0; 0; - fst q0 * fst p0; - fst q0 * snd p0];
    [0; 0; 0; fst p0; snd p0; 1; - snd q0 * fst p0; - snd q0 * snd p0];
    [fst p1; snd p1; 1; 0; 0; 0; - fst q1 * fst p1; - fst q1 * snd p1];
    [0; 0; 0; fst p1; snd p1; 1; - snd q1 * fst p1; - snd q1 * snd p1];
    [fst p2; snd p2; 1; 0; 0; 0; - fst q2 * fst p2; - fst q2 * snd p2];
    [0; 0; 0; fst p2; snd p2; 1; - snd q2 * fst p2; - snd q2 * snd p2];
    [fst p3; snd p3; 1; 0; 0; 0; - fst q3 * fst p3; - fst q3 * snd p3];
    [0; 0; 0; fst p3; snd p3; 1; - snd q3 * fst p3; - snd q3 * snd p3]],
   [fst q0; snd q0; fst q1; snd q1; fst q2; snd q2; fst q3; snd q3]).
Proof.
  destruct p0, p1, p2, p3, q0, q1, q2, q3. reflexivity.
Qed.

Lemma length_four {A : Type} (l : list A) :
  length l = 4%nat -> exists a b c d, l = [a; b; c; d].
Proof.
  destruct l as [|a [|b [|c [|d [|e l]]]]]; simpl; try discriminate.
  intros _. now exists a, b, c, d.
Qed.

Lemma reshape3_nine (l : list Q) :
  length l = 8%nat -> exists m, reshape3 (l ++ [1]) = Ok m /\ h33 m = 1.
Proof.
  destruct l as [|a1 [|a2 [|a3 [|a4 [|a5 [|a6 [|a7 [|a8 [|a9 l]]]]]]]]];
    simpl; try discriminate.
  intros _. eexists. split; reflexivity.
Qed.

Lemma reshape3_not_count (l : list Q) : reshape3 l <> Err InvalidCorrespondenceCount.
Proof.
  unfold reshape3.
  destruct l as [|a1 [|a2 [|a3 [|a4 [|a5 [|a6 [|a7 [|a8 [|a9 [|a10 l]]]]]]]]]];
    discriminate.
Qed.

Lemma solve_homography_four `{LinAlg} (src dst : list point) :
  length src = 4%nat -> length dst = 4%nat -> lstsq_shape_on src dst ->
  exists m, solve_homography src dst = Ok m /\ h33 m = 1.
Proof.
  intros Hs Hd Hshape. unfold solve_homography.
  rewrite Hs, Hd. simpl.
  destruct (length_four src Hs) as (p0 & p1 & p2 & p3 & ->).
  destruct (length_four dst Hd) as (q0 & q1 & q2 & q3 & ->).
  unfold lstsq_shape_on in Hshape.
  rewrite build_system_four in *. simpl in Hshape.
  apply reshape3_nine. exact Hshape.
Qed.

(** Claim C5.  [solve_homography] raises the invalid-count error exactly when
    it is not given four source points and four destination points.  Given
    four of each, and a least-squares routine that returns one unknown per
    column of the system, it returns a matrix whose bottom-right entry is 1. *)
Theorem solve_homography_count `{LinAlg} (src dst : list point) :
  (solve_homography src dst = Err InvalidCorrespondenceCount
   <-> ~ (length src = 4%nat /\ length dst = 4%nat))
  /\ (length src = 4%nat -> length dst = 4%nat -> lstsq_shape_on src dst ->
      exists m, solve_homography src dst = Ok m /\ h33 m = 1).
Proof.
  split; [|apply solve_homography_four].
  unfold solve_homography.
  destruct (Nat.eqb_spec (length src) 4) as [Hs|Hs];
    destruct (Nat.eqb_spec (length dst) 4) as [Hd|Hd]; simpl.
  - split.
    + destruct (build_system (combine src dst) [] []) as [a b].
      intro Hr. exfalso. exact (reshape3_not_count _ Hr).
    + intros Hn. exfalso. apply Hn. now split.
  - split; [intros _ [_ Hd']; contradiction | reflexivity].
  - split; [intros _ [Hs' _]; contradiction | reflexivity].
  - split; [intros _ [Hs' _]; contradiction | reflexivity].
Qed.

Lemma solve_homography_count_witness :
  exists m, @solve_homography ExactLinAlg quad_src quad_dst = Ok m /\ h33 m = 1.
Proof.
  apply (proj2 (@solve_homography_count ExactLinAlg quad_src quad_dst));
    vm_compute; reflexivity.
Defined.

Lemma apply_homography_acc (h : mat3) (points : list point) : forall out,
  fold_left (apply_homography_step h) points out =
  out ++ fold_left (apply_homography_step h) points [].
Proof.
  induction points as [|p rest IH]; intros out; simpl.
  - now rewrite app_nil_r.
  - rewrite IH. rewrite (IH (apply_homography_step h [] p)).
    rewrite app_assoc. f_equal.
    unfold apply_homography_step. destruct p as [x y].
    destruct (matvec h (x, y)) as [[tx ty] tz].
    destruct (Qeq_bool tz 0); reflexivity.
Qed.

Lemma apply_homography_cons (h : mat3) (p : point) (rest : list point) :
  apply_homography (p :: rest) h =
  apply_homography_step h [] p ++ apply_homography rest h.
Proof.
  unfold apply_homography. simpl. apply apply_homography_acc.
Qed.


Lemma apply_homography_in_acc {F : Type} (A : arithmetic F) (h : rows F)
    (points : list (F * F)) : forall out,
  fold_left (apply_homography_step_in A h) points out =
  out ++ fold_left (apply_homography_step_in A h) points [].
Proof.
  induction points as [|p rest IH]; intros out; simpl.
  - now rewrite app_nil_r.
  - rewrite IH. rewrite (IH (apply_homography_step_in A h [] p)).
    rewrite app_assoc. f_equal.
    unfold apply_homography_step_in. destruct p as [x y]. destruct h as [[r1 r2] r3].
    destruct (is_zero A _); reflexivity.
Qed.

Lemma apply_homography_in_cons {F : Type} (A : arithmetic F) (h : rows F)
    (x y : F) (rest : list (F * F)) :
  apply_homography_in A ((x, y) :: rest) h =
  (let '(r1, r2, r3) := h in
   let vec := (narrow32 A x, narrow32 A y, one32 A) in
   if is_zero A (row_dot A r3 vec) then (x, y)
   else (quotient A (row_dot A r1 vec) (row_dot A r3 vec),
         quotient A (row_dot A r2 vec) (row_dot A r3 vec)))
  :: apply_homography_in A rest h.
Proof.
  unfold apply_homography_in. simpl. rewrite apply_homography_in_acc.
  destruct h as [[r1 r2] r3]. cbv zeta.
  destruct (is_zero A _); reflexivity.
Qed.

(** In exact arithmetic the loop is [apply_homography]. *)
Lemma apply_homography_exact_reading (points : list point) (h : mat3) :
  apply_homography_in exact_arithmetic points (rows_of h) = apply_homography points h.
Proof.
  induction points as [|[x y] rest IH]; [reflexivity|].
  etransitivity; [apply apply_homography_in_cons|].
  rewrite apply_homography_cons, IH.
  unfold rows_of, apply_homography_step, matvec.
  cbn [narrow32 one32 row_dot quotient is_zero exact_arithmetic].
  destruct (Qeq_bool _ 0); reflexivity.
Qed.

(** Claim C8.  [apply_homography] is total and returns one point per input
    point, whatever the numbers and the arithmetic on them.  Let [vec] be
    the point narrowed to float32 with a third entry 1, and [tx], [ty], [tz]
    the products of the first, second and third row of the matrix with
    [vec].  The point at index [i] of the output is the input point itself
    (not narrowed) when [tz == 0], and [(tx / tz, ty / tz)] otherwise: no
    division by a zero weight is performed. *)
Theorem apply_homography_total {F : Type} (A : arithmetic F)
    (points : list (F * F)) (h : rows F) :
  length (apply_homography_in A points h) = length points /\
  forall (i : nat) (x y : F), nth_error points i = Some (x, y) ->
    let '(r1, r2, r3) := h in
    let vec := (narrow32 A x, narrow32 A y, one32 A) in
    let tx := row_dot A r1 vec in
    let ty := row_dot A r2 vec in
    let tz := row_dot A r3 vec in
    (is_zero A tz = true ->
     nth_error (apply_homography_in A points h) i = Some (x, y)) /\
    (is_zero A tz = false ->
     nth_error (apply_homography_in A points h) i
     = Some (quotient A tx tz, quotient A ty tz)).
Proof.
  split.
  - induction points as [|[x y] rest IH]; [reflexivity|].
    rewrite apply_homography_in_cons. simpl. now rewrite IH.
  - induction points as [|[x0 y0] rest IH]; intros i x y Hi.
    + destruct i; discriminate.
    + rewrite apply_homography_in_cons.
      destruct i as [|i]; simpl in Hi.
      * injection Hi as -> ->. destruct h as [[r1 r2] r3]. cbv zeta.
        split; intro Hz; rewrite Hz; reflexivity.
      * specialize (IH i x y Hi). destruct h as [[r1 r2] r3]. exact IH.
Qed.

(** In exact arithmetic [shear] sends (3, 4) to (10 / 2, 13 / 2) and keeps
    (1, 7), whose weight is zero.  In float arithmetic the point
    (1.00000001, 7) narrows to (1, 7): its weight under [vanishing] is zero
    and it is returned as it was passed. *)
Lemma apply_homography_total_witness :
  nth_error (apply_homography_in exact_arithmetic [(3, 4); (1, 7)] (rows_of shear)) 0
  = Some ((2 * 3 + 1 * 4 + 0 * 1) / (1 * 3 + 0 * 4 + -1 * 1),
          (0 * 3 + 3 * 4 + 1 * 1) / (1 * 3 + 0 * 4 + -1 * 1))
  /\ nth_error (apply_homography_in exact_arithmetic [(3, 4); (1, 7)] (rows_of shear)) 1
     = Some (1, 7)
  /\ nth_error (apply_homography_in binary_arithmetic
                  [(Finite (100000001 # 100000000), Finite 7)] (float_rows vanishing)) 0
     = Some (Finite (100000001 # 100000000), Finite 7).
Proof.
  destruct (apply_homography_total exact_arithmetic [(3, 4); (1, 7)] (rows_of shear))
    as [_ Hn].
  destruct (apply_homography_total binary_arithmetic
              [(Finite (100000001 # 100000000), Finite 7)] (float_rows vanishing))
    as [_ Hf].
  split; [|split].
  - apply (Hn 0%nat 3 4 eq_refl). vm_compute. reflexivity.
  - apply (Hn 1%nat 1 7 eq_refl). vm_compute. reflexivity.
  - apply (Hf 0%nat (Finite (100000001 # 100000000)) (Finite 7) eq_refl).
    vm_compute. reflexivity.
Defined.

(** The same point in exact arithmetic, where it is divided by its weight
    of one hundred-millionth. *)
Example apply_homography_without_narrowing :
  apply_homography [(100000001 # 100000000, 7)] vanishing
  = [((1 * (100000001 # 100000000) + 0 * 7 + 0 * 1)
      / (1 * (100000001 # 100000000) + 0 * 7 + -1 * 1),
      (0 * (100000001 # 100000000) + 1 * 7 + 0 * 1)
      / (1 * (100000001 # 100000000) + 0 * 7 + -1 * 1))].
Proof. reflexivity. Qed.

(** ** The forward homography on the canvas corners *)

Lemma step_divides (h : mat3) (out : list point) (x y : Q) :
  ~ snd (matvec h (x, y)) == 0 ->
  apply_homography_step h out (x, y) =
  out ++ [(fst (fst (matvec h (x, y))) / snd (matvec h (x, y)),
           snd (fst (matvec h (x, y))) / snd (matvec h (x, y)))].
Proof.
  intro Hz. unfold apply_homography_step.
  destruct (matvec h (x, y)) as [[tx ty] tz]. simpl in *.
  destruct (Qeq_bool tz 0) eqn:E; [|reflexivity].
  apply Qeq_bool_iff in E. contradiction.
Qed.

Lemma quotient_eq (t z u : Q) : ~ z == 0 -> t == u * z -> t / z == u.
Proof.
  intros Hz E. rewrite E. apply Qdiv_mult_l. exact Hz.
Qed.

Section ExactHomography.
Variables W Hh u0 v0 u1 v1 u2 v2 u3 v3 : Q.
Variables a1 a2 a3 a4 a5 a6 a7 a8 : Q.

Hypothesis Hsolves :
  solves (fst (build_system (combine [(0, 0); (W, 0); (W, Hh); (0, Hh)]
                                     [(u0, v0); (u1, v1); (u2, v2); (u3, v3)]) [] []))
         [a1; a2; a3; a4; a5; a6; a7; a8]
         (snd (build_system (combine [(0, 0); (W, 0); (W, Hh); (0, Hh)]
                                     [(u0, v0); (u1, v1); (u2, v2); (u3, v3)]) [] [])).
Hypothesis Hquad : non_degenerate [(u0, v0); (u1, v1); (u2, v2); (u3, v3)].

Lemma system_equations :
  (a3 == u0 /\ a6 == v0) /\
  (W * a1 + a3 - u1 * W * a7 == u1 /\ W * a4 + a6 - v1 * W * a7 == v1) /\
  (W * a1 + Hh * a2 + a3 - u2 * W * a7 - u2 * Hh * a8 == u2 /\
   W * a4 + Hh * a5 + a6 - v2 * W * a7 - v2 * Hh * a8 == v2) /\
  (Hh * a2 + a3 - u3 * Hh * a8 == u3 /\ Hh * a5 + a6 - v3 * Hh * a8 == v3).
Proof.
  unfold solves in Hsolves. rewrite build_system_four in Hsolves.
  simpl in Hsolves.
  repeat match goal with
         | Hf : Forall2 _ (_ :: _) (_ :: _) |- _ =>
             let E := fresh "E" in
             apply Forall2_cons_iff in Hf; destruct Hf as [E Hf]; simpl in E
         end.
  repeat split; lra.
Qed.

Lemma weights_nonzero :
  ~ a7 * W + 1 == 0 /\ ~ a7 * W + a8 * Hh + 1 == 0 /\ ~ a8 * Hh + 1 == 0.
Proof.
  destruct system_equations as ((E0 & F0) & (E1 & F1) & (E2 & F2) & (E3 & F3)).
  destruct Hquad as (N012 & N013 & N023 & N123).
  unfold cross in *. simpl in *.
  repeat split; intro Hz.
  - apply N023. nsatz.
  - apply N013. nsatz.
  - apply N012. nsatz.
Qed.

Lemma corners_map_to_dst :
  exists t0 t1 t2 t3 : point,
    apply_homography [(0, 0); (W, 0); (W, Hh); (0, Hh)]
                     (Mat3 a1 a2 a3 a4 a5 a6 a7 a8 1) = [t0; t1; t2; t3] /\
    (fst t0 == u0 /\ snd t0 == v0) /\ (fst t1 == u1 /\ snd t1 == v1) /\
    (fst t2 == u2 /\ snd t2 == v2) /\ (fst t3 == u3 /\ snd t3 == v3).
Proof.
  destruct system_equations as ((E0 & F0) & (E1 & F1) & (E2 & F2) & (E3 & F3)).
  destruct weights_nonzero as (Z1 & Z2 & Z3).
  assert (Z0 : ~ a7 * 0 + a8 * 0 + 1 * 1 == 0) by (intro Hz; apply Q_apart_0_1; lra).
  assert (Z1' : ~ a7 * W + a8 * 0 + 1 * 1 == 0) by (intro Hz; apply Z1; lra).
  assert (Z2' : ~ a7 * W + a8 * Hh + 1 * 1 == 0) by (intro Hz; apply Z2; lra).
  assert (Z3' : ~ a7 * 0 + a8 * Hh + 1 * 1 == 0) by (intro Hz; apply Z3; lra).
  unfold apply_homography. cbn [fold_left].
  rewrite !step_divides;
    cbn [matvec h11 h12 h13 h21 h22 h23 h31 h32 h33 fst snd app];
    try assumption.
  do 4 eexists. split; [reflexivity|]. cbn [fst snd].
  repeat split; (apply quotient_eq; [assumption | lra]).
Qed.
End ExactHomography.

(** ** The geometric augmenter *)

Section Augmenter.
Context {RNG : Type} `{RandomSource RNG}.
Context {Image : Type} `{ImageLib Image}.
Context `{LinAlg}.
Context `{Float64}.

Lemma random_perspective_points_run (w h : Z) (max_shift : Q) (s : RNG) :
  exists (a0 b0 a1 b1 a2 b2 a3 b3 : Q) (s1 : RNG),
    random_perspective_points w h max_shift s =
    Ok ((canvas_corners w h,
         [(a0, b0); (inject_Z w - a1, b1);
          (inject_Z w - a2, inject_Z h - b2); (a3, inject_Z h - b3)]), s1).
Proof.
  unfold random_perspective_points, bind, uniform, ret.
  repeat match goal with
         | |- context [random ?st] => destruct (random st) as [? ?]
         end.
  repeat eexists.
Qed.

Lemma enclosing_rect_four (t0 t1 t2 t3 : point) :
  enclosing_rect [t0; t1; t2; t3] =
  Ok (Qmin (Qmin (Qmin (fst t0) (fst t1)) (fst t2)) (fst t3),
      Qmin (Qmin (Qmin (snd t0) (snd t1)) (snd t2)) (snd t3),
      Qmax (Qmax (Qmax (fst t0) (fst t1)) (fst t2)) (fst t3),
      Qmax (Qmax (Qmax (snd t0) (snd t1)) (snd t2)) (snd t3)).
Proof. reflexivity. Qed.

Lemma solve_homography_exact (w h : Z) (q0 q1 q2 q3 : point) :
  lstsq_exact_on (canvas_corners w h) [q0; q1; q2; q3] ->
  non_degenerate [q0; q1; q2; q3] ->
  exists (hm : mat3) (t0 t1 t2 t3 : point),
    solve_homography (canvas_corners w h) [q0; q1; q2; q3] = Ok hm /\
    apply_homography (canvas_corners w h) hm = [t0; t1; t2; t3] /\
    (fst t0 == fst q0 /\ snd t0 == snd q0) /\ (fst t1 == fst q1 /\ snd t1 == snd q1) /\
    (fst t2 == fst q2 /\ snd t2 == snd q2) /\ (fst t3 == fst q3 /\ snd t3 == snd q3).
Proof.
  intros Hex Hnd.
  destruct q0 as [u0 v0], q1 as [u1 v1], q2 as [u2 v2], q3 as [u3 v3].
  unfold lstsq_exact_on, solve_homography in *. unfold canvas_corners in *.
  cbn [length Nat.eqb negb orb].
  destruct (build_system _ [] []) as [a b] eqn:Esys.
  destruct Hex as [Hlen Hsol].
  pose proof Esys as Esys'. rewrite build_system_four in Esys'.
  injection Esys' as Ea Eb. subst a b.
  cbn [hd length] in Hlen.
  destruct (lstsq _ _) as [|a1 [|a2 [|a3 [|a4 [|a5 [|a6 [|a7 [|a8 [|a9 l]]]]]]]]];
    try discriminate Hlen.
  cbn [app reshape3].
  destruct (corners_map_to_dst (inject_Z w) (inject_Z h) u0 v0 u1 v1 u2 v2 u3 v3
              a1 a2 a3 a4 a5 a6 a7 a8) as (t0 & t1 & t2 & t3 & Happ & Hc).
  - rewrite build_system_four. exact Hsol.
  - exact Hnd.
  - exists (Mat3 a1 a2 a3 a4 a5 a6 a7 a8 1), t0, t1, t2, t3.
    split; [reflexivity|]. split; [exact Happ|]. exact Hc.
Qed.

(** Claim C3.  With perspective enabled and the box equal to the full canvas
    rectangle [(0, 0, w, h)], the box returned by [augment_image] is the
    axis-aligned rectangle enclosing the destination quad that was drawn:
    the quad has four corners, and the box runs from the least to the
    greatest of their x coordinates and from the least to the greatest of
    their y coordinates.  This holds provided the quad is non-degenerate and
    least squares is exact on the forward system (exact arithmetic).  The
    photometric stages then run on the warped image from the state left by
    the eight draws. *)
Theorem perspective_full_canvas_bbox (img : Image) (w h : Z)
    (apply_moire_flag apply_glare_flag : bool)
    (s s1 : RNG) (src dst : list point) :
  image_size img = (w, h) ->
  random_perspective_points w h (8 # 100) s = Ok ((src, dst), s1) ->
  non_degenerate dst ->
  lstsq_exact_on src dst ->
  lstsq_shape_on dst src ->
  exists (img' : Image) (b' : bbox) (q0 q1 q2 q3 : point),
    augment_image img (0, 0, inject_Z w, inject_Z h) true
                  apply_moire_flag apply_glare_flag s
    = bind (photometric_stages img' apply_moire_flag apply_glare_flag)
           (fun img2 => ret (img2, b')) s1
    /\ dst = [q0; q1; q2; q3]
    /\ bbox_eq b'
         (Qmin (Qmin (Qmin (fst q0) (fst q1)) (fst q2)) (fst q3),
          Qmin (Qmin (Qmin (snd q0) (snd q1)) (snd q2)) (snd q3),
          Qmax (Qmax (Qmax (fst q0) (fst q1)) (fst q2)) (fst q3),
          Qmax (Qmax (Qmax (snd q0) (snd q1)) (snd q2)) (snd q3)).
Proof.
  intros Hsize Hdraw Hnd Hexact Hshape.
  destruct (random_perspective_points_run w h (8 # 100) s)
    as (a0 & b0 & a1 & b1 & a2 & b2 & a3 & b3 & s1' & Hrun).
  rewrite Hrun in Hdraw. injection Hdraw as <- <- <-.
  destruct (solve_homography_exact w h _ _ _ _ Hexact Hnd)
    as (hm & t0 & t1 & t2 & t3 & Hsolve & Happ & (X0 & Y0) & (X1 & Y1) & (X2 & Y2) & (X3 & Y3)).
  match type of Hshape with
  | lstsq_shape_on ?d ?c =>
      destruct (solve_homography_four d c eq_refl eq_refl Hshape)
        as (hinv & Hinv & _)
  end.
  eexists. exists
    (Qmin (Qmin (Qmin (fst t0) (fst t1)) (fst t2)) (fst t3),
     Qmin (Qmin (Qmin (snd t0) (snd t1)) (snd t2)) (snd t3),
     Qmax (Qmax (Qmax (fst t0) (fst t1)) (fst t2)) (fst t3),
     Qmax (Qmax (Qmax (snd t0) (snd t1)) (snd t2)) (snd t3)).
  do 4 eexists. split; [|split].
  - unfold augment_image, perspective_stage. rewrite Hsize.
    rewrite bind_assoc_run.
    erewrite bind_ok by exact Hrun. cbv beta iota.
    unfold perspective_coeffs. rewrite Hinv.
    rewrite !bind_assoc_run.
    erewrite bind_lift_ok by reflexivity.
    rewrite !bind_assoc_run.
    erewrite bind_lift_ok by exact Hsolve.
    unfold warp_bbox.
    change [(0, 0); (inject_Z w, 0); (inject_Z w, inject_Z h); (0, inject_Z h)]
      with (canvas_corners w h).
    rewrite Happ, enclosing_rect_four.
    rewrite !bind_assoc_run.
    erewrite bind_lift_ok by reflexivity.
    reflexivity.
  - reflexivity.
  - cbn [bbox_eq fst snd].
    rewrite X0, X1, X2, X3, Y0, Y1, Y2, Y3. repeat split; reflexivity.
Qed.

(** Claim C9.  With the perspective toggle off, [augment_image] returns the
    box it was given: the result is that of the photometric stages (moire,
    glare, brightness, contrast) on the image, paired with the input box. *)
Theorem augment_image_keeps_bbox (img : Image) (b : bbox)
    (apply_moire_flag apply_glare_flag : bool) (s : RNG) :
  augment_image img b false apply_moire_flag apply_glare_flag s =
  match photometric_stages img apply_moire_flag apply_glare_flag s with
  | Ok (img', s') => Ok ((img', b), s')
  | Err e => Err e
  end.
Proof.
  unfold augment_image. unfold bind at 1. cbn [ret].
  unfold bind at 1.
  destruct (photometric_stages img apply_moire_flag apply_glare_flag s) as [[img' s']|e];
    reflexivity.
Qed.
End Augmenter.

Lemma perspective_full_canvas_bbox_witness :
  exists (img' : Sized.image) (b' : bbox) (q0 q1 q2 q3 : point),
    @augment_image _ ScriptedRandom _ (SizedImages []) ExactLinAlg
      canvas100 (0, 0, inject_Z 100, inject_Z 100) true false false quad_script
    = bind (@photometric_stages _ ScriptedRandom _ (SizedImages []) img' false false)
           (fun img2 => ret (img2, b')) []
    /\ quad_drawn = [q0; q1; q2; q3]
    /\ bbox_eq b'
         (Qmin (Qmin (Qmin (fst q0) (fst q1)) (fst q2)) (fst q3),
          Qmin (Qmin (Qmin (snd q0) (snd q1)) (snd q2)) (snd q3),
          Qmax (Qmax (Qmax (fst q0) (fst q1)) (fst q2)) (fst q3),
          Qmax (Qmax (Qmax (snd q0) (snd q1)) (snd q2)) (snd q3)).
Proof.
  apply (@perspective_full_canvas_bbox _ ScriptedRandom _ (SizedImages []) ExactLinAlg
           canvas100 100 100 false false quad_script []
           (canvas_corners 100 100) quad_drawn).
  - reflexivity.
  - vm_compute. reflexivity.
  - vm_compute. repeat split; intro E; discriminate E.
  - unfold lstsq_exact_on.
    set (sys := build_system _ _ _). vm_compute in sys. subst sys. cbv beta iota.
    set (x := lstsq _ _). vm_compute in x. subst x.
    split; [reflexivity|]. unfold solves.
    repeat (apply Forall2_cons; [vm_compute; reflexivity|]). apply Forall2_nil.
  - vm_compute. reflexivity.
Defined.

(** ** The label encoder *)

Lemma clamp_range (v lo hi : Q) : lo <= hi -> lo <= clamp v lo hi /\ clamp v lo hi <= hi.
Proof.
  intro Hle. unfold clamp. split.
  - apply Q.le_max_l.
  - apply Q.max_lub; [exact Hle | apply Q.le_min_l].
Qed.

Lemma clamp_inside (v lo hi : Q) : lo <= v -> v <= hi -> clamp v lo hi == v.
Proof.
  intros Hlo Hhi. unfold clamp.
  rewrite (Q.min_r hi v Hhi). apply Q.max_r. exact Hlo.
Qed.

Lemma app_one_neq {A : Type} (l : list A) (x : A) : l ++ [x] <> l.
Proof.
  intro E. apply (f_equal (@length A)) in E. rewrite length_app in E. simpl in E. lia.
Qed.

Lemma rejected_dec (x1 y1 x2 y2 : Q) :
  Qle_bool x2 x1 || Qle_bool y2 y1 = true <-> (x2 <= x1 \/ y2 <= y1).
Proof.
  rewrite orb_true_iff, !Qle_bool_iff. reflexivity.
Qed.

(** Claim C4.  [save_yolo_label] clamps the four coordinates to
    [0, img_size]; it leaves the label log unchanged (writes nothing) exactly
    when the clamped box has [x2 <= x1] or [y2 <= y1], and otherwise appends
    one line computed from the clamped box. *)
Theorem save_yolo_label_rejects (path : string) (b : bbox) (img_size class_id : Z)
    (fs : label_log) :
  let '(x1, y1, x2, y2) := clamp_bbox b img_size in
  ((0 <= img_size)%Z ->
     (0 <= x1 /\ x1 <= inject_Z img_size) /\ (0 <= y1 /\ y1 <= inject_Z img_size) /\
     (0 <= x2 /\ x2 <= inject_Z img_size) /\ (0 <= y2 /\ y2 <= inject_Z img_size))
  /\ (save_yolo_label path b img_size class_id fs = fs <-> (x2 <= x1 \/ y2 <= y1))
  /\ (~ (x2 <= x1 \/ y2 <= y1) ->
        save_yolo_label path b img_size class_id fs =
        fs ++ [(path, LabelLine class_id
                        ((x1 + x2) / 2 / inject_Z img_size)
                        ((y1 + y2) / 2 / inject_Z img_size)
                        ((x2 - x1) / inject_Z img_size)
                        ((y2 - y1) / inject_Z img_size))]).
Proof.
  destruct b as [[[x1 y1] x2] y2]. unfold clamp_bbox, save_yolo_label, write_text.
  set (S := inject_Z img_size).
  set (cx1 := clamp x1 0 S). set (cy1 := clamp y1 0 S).
  set (cx2 := clamp x2 0 S). set (cy2 := clamp y2 0 S).
  split; [|split].
  - intro Hs. assert (HS : 0 <= S).
    { unfold S. change 0 with (inject_Z 0). rewrite <- Zle_Qle. exact Hs. }
    unfold cx1, cy1, cx2, cy2. repeat split; apply clamp_range; exact HS.
  - destruct (Qle_bool cx2 cx1 || Qle_bool cy2 cy1) eqn:E.
    + apply rejected_dec in E. split; [intros _; exact E | reflexivity].
    + split.
      * intro Heq. exfalso. exact (app_one_neq _ _ Heq).
      * intro Hrej. apply rejected_dec in Hrej. congruence.
  - intro Hn. destruct (Qle_bool cx2 cx1 || Qle_bool cy2 cy1) eqn:E.
    + apply rejected_dec in E. contradiction.
    + reflexivity.
Qed.

Lemma save_yolo_label_rejects_witness :
  save_yolo_label "labels/000001.txt" (-5, 10, 0, 40) 320 0 [] = []
  /\ save_yolo_label "labels/000002.txt" (16, 32, 48, 96) 320 0 [] =
     [("labels/000002.txt"%string,
       LabelLine 0 ((Qmax 0 (Qmin 320 16) + Qmax 0 (Qmin 320 48)) / 2 / 320)
                   ((Qmax 0 (Qmin 320 32) + Qmax 0 (Qmin 320 96)) / 2 / 320)
                   ((Qmax 0 (Qmin 320 48) - Qmax 0 (Qmin 320 16)) / 320)
                   ((Qmax 0 (Qmin 320 96) - Qmax 0 (Qmin 320 32)) / 320))].
Proof.
  split.
  - apply (proj1 (proj2 (save_yolo_label_rejects "labels/000001.txt" (-5, 10, 0, 40) 320 0 []))).
    left. vm_compute. discriminate.
  - apply (proj2 (proj2 (save_yolo_label_rejects "labels/000002.txt" (16, 32, 48, 96) 320 0 []))).
    intros [Hx | Hy]; [vm_compute in Hx; apply Hx | vm_compute in Hy; apply Hy]; reflexivity.
Defined.

Lemma div_unit_interval (a s : Q) : 0 < s -> 0 <= a -> a <= s -> 0 <= a / s /\ a / s <= 1.
Proof.
  intros Hs Ha Has. split.
  - apply Qle_shift_div_l; [exact Hs | lra].
  - apply Qle_shift_div_r; [exact Hs | lra].
Qed.

(** The numbers handed to the formatter, in exact arithmetic. *)
Lemma emitted_values_in_unit (path : string) (b : bbox) (img_size class_id : Z)
    (fs : label_log) (line : label_line) :
  (0 < img_size)%Z ->
  save_yolo_label path b img_size class_id fs = fs ++ [(path, line)] ->
  (0 <= cx line /\ cx line <= 1) /\ (0 <= cy line /\ cy line <= 1) /\
  (0 < lw line /\ lw line <= 1) /\ (0 < lh line /\ lh line <= 1).
Proof.
  intros Hpos Hemit.
  destruct b as [[[x1 y1] x2] y2]. unfold save_yolo_label, write_text in Hemit.
  assert (HS : 0 < inject_Z img_size).
  { change 0 with (inject_Z 0). rewrite <- Zlt_Qlt. exact Hpos. }
  set (S := inject_Z img_size) in *.
  destruct (clamp_range x1 0 S (Qlt_le_weak _ _ HS)) as [A1 B1].
  destruct (clamp_range y1 0 S (Qlt_le_weak _ _ HS)) as [A2 B2].
  destruct (clamp_range x2 0 S (Qlt_le_weak _ _ HS)) as [A3 B3].
  destruct (clamp_range y2 0 S (Qlt_le_weak _ _ HS)) as [A4 B4].
  set (cx1 := clamp x1 0 S) in *. set (cy1 := clamp y1 0 S) in *.
  set (cx2 := clamp x2 0 S) in *. set (cy2 := clamp y2 0 S) in *.
  destruct (Qle_bool cx2 cx1 || Qle_bool cy2 cy1) eqn:E.
  - exfalso. symmetry in Hemit. exact (app_one_neq _ _ Hemit).
  - apply app_inv_head in Hemit. injection Hemit as <-.
    apply orb_false_iff in E. destruct E as [Ex Ey].
    assert (Hx : cx1 < cx2).
    { apply Qnot_le_lt. intro Hle. apply Qle_bool_iff in Hle. congruence. }
    assert (Hy : cy1 < cy2).
    { apply Qnot_le_lt. intro Hle. apply Qle_bool_iff in Hle. congruence. }
    cbn [cx cy lw lh].
    repeat split.
    + apply Qle_shift_div_l; [exact HS|]. apply Qle_shift_div_l; lra.
    + apply Qle_shift_div_r; [exact HS|]. apply Qle_shift_div_r; lra.
    + apply Qle_shift_div_l; [exact HS|]. apply Qle_shift_div_l; lra.
    + apply Qle_shift_div_r; [exact HS|]. apply Qle_shift_div_r; lra.
    + apply Qlt_shift_div_l; [exact HS|]. lra.
    + apply Qle_shift_div_r; [exact HS|]. lra.
    + apply Qlt_shift_div_l; [exact HS|]. lra.
    + apply Qle_shift_div_r; [exact HS|]. lra.
Qed.

Lemma round_half_even_near (x : Q) :
  x - (1 # 2) <= inject_Z (Binary.round_half_even x)
  /\ inject_Z (Binary.round_half_even x) <= x + (1 # 2).
Proof.
  unfold Binary.round_half_even.
  pose proof (Qfloor_le x) as Hlo. pose proof (Qlt_floor x) as Hhi.
  rewrite inject_Z_plus in Hhi. change (inject_Z 1) with 1 in Hhi.
  set (f := Qfloor x) in *.
  destruct (Qcompare (x - inject_Z f) (1 # 2)) eqn:E.
  - apply Qeq_alt in E.
    destruct (Z.even f); [|rewrite inject_Z_plus; change (inject_Z 1) with 1]; split; lra.
  - apply Qlt_alt in E. split; lra.
  - apply Qgt_alt in E. rewrite inject_Z_plus. change (inject_Z 1) with 1. split; lra.
Qed.

Lemma HalfEven6Laws : @FormatterLaws HalfEven6.
Proof.
  split. intro x. cbn [fmt6 HalfEven6].
  destruct (round_half_even_near (x * 1000000)) as [Hlo Hhi]. split; lra.
Qed.

(** A number of [0, 1] is written between 0.000000 and 1.000000, and as
    0.000000 only when it is at most 0.000000501. *)
Lemma fmt6_unit `{Formatter} `{!FormatterLaws} (x : Q) :
  0 <= x -> x <= 1 ->
  (0 <= fmt6 x <= 1000000)%Z /\ ((501 # 1000) < x * 1000000 -> (1 <= fmt6 x)%Z).
Proof.
  intros Hx0 Hx1. destruct (fmt6_near x) as [Hlo Hhi].
  assert (A : inject_Z (-1) < inject_Z (fmt6 x)).
  { change (inject_Z (-1)) with (-1). lra. }
  assert (B : inject_Z (fmt6 x) < inject_Z 1000001).
  { change (inject_Z 1000001) with 1000001. lra. }
  rewrite <- Zlt_Qlt in A. rewrite <- Zlt_Qlt in B.
  split; [lia|]. intro Hbig.
  assert (C : inject_Z 0 < inject_Z (fmt6 x)).
  { change (inject_Z 0) with 0. lra. }
  rewrite <- Zlt_Qlt in C. lia.
Qed.

(** Claim C10 as worded fails for the text of the line: a box one
    ten-thousandth of a pixel wide on a canvas of 320 pixels is written with
    the width 0.000000, which is not in (0, 1]. *)
Lemma emitted_width_counterexample :
  exists line : label_line,
    save_yolo_label "labels/000001.txt" (0, 0, 1 # 10000, 10) 320 0 []
    = [("labels/000001.txt"%string, line)]
    /\ 0 < lw line
    /\ w_w (@format_label HalfEven6 line) = 0%Z.
Proof.
  eexists. split; [reflexivity|]. split; vm_compute; reflexivity.
Qed.

(** Claim C10, amended.  For a positive canvas size, every label line that
    [save_yolo_label] writes has its four fields, as written with six
    decimals, between 0.000000 and 1.000000: the centre coordinates, the
    width and the height.  The width (the height) is written as 0.000000
    only when the clamped box is at most 0.000000501 canvas sides wide
    (high); wider boxes get a width of at least 0.000001. *)
Theorem emitted_label_normalized `{Formatter} `{!FormatterLaws}
    (path : string) (b : bbox) (img_size cid : Z) (fs : label_log) (line : label_line) :
  (0 < img_size)%Z ->
  save_yolo_label path b img_size cid fs = fs ++ [(path, line)] ->
  let w := format_label line in
  (0 <= w_cx w <= 1000000)%Z /\ (0 <= w_cy w <= 1000000)%Z
  /\ (0 <= w_w w <= 1000000)%Z /\ (0 <= w_h w <= 1000000)%Z
  /\ ((501 # 1000) < lw line * 1000000 -> (1 <= w_w w)%Z)
  /\ ((501 # 1000) < lh line * 1000000 -> (1 <= w_h w)%Z).
Proof.
  intros Hpos Hemit w.
  destruct (emitted_values_in_unit path b img_size cid fs line Hpos Hemit)
    as ([X0 X1] & [Y0 Y1] & [W0 W1] & [H0' H1']).
  unfold w, format_label. cbn [w_cx w_cy w_w w_h].
  destruct (fmt6_unit (cx line) X0 X1) as [Rx _].
  destruct (fmt6_unit (cy line) Y0 Y1) as [Ry _].
  destruct (fmt6_unit (lw line) (Qlt_le_weak _ _ W0) W1) as [Rw Pw].
  destruct (fmt6_unit (lh line) (Qlt_le_weak _ _ H0') H1') as [Rh Ph].
  repeat split; try lia; assumption.
Qed.

Lemma emitted_label_normalized_witness :
  let line := LabelLine 0 ((Qmax 0 (Qmin 320 16) + Qmax 0 (Qmin 320 48)) / 2 / 320)
                   ((Qmax 0 (Qmin 320 32) + Qmax 0 (Qmin 320 96)) / 2 / 320)
                   ((Qmax 0 (Qmin 320 48) - Qmax 0 (Qmin 320 16)) / 320)
                   ((Qmax 0 (Qmin 320 96) - Qmax 0 (Qmin 320 32)) / 320) in
  let w := @format_label HalfEven6 line in
  (0 <= w_cx w <= 1000000)%Z /\ (0 <= w_cy w <= 1000000)%Z
  /\ (0 <= w_w w <= 1000000)%Z /\ (0 <= w_h w <= 1000000)%Z
  /\ ((501 # 1000) < lw line * 1000000 -> (1 <= w_w w)%Z)
  /\ ((501 # 1000) < lh line * 1000000 -> (1 <= w_h w)%Z).
Proof.
  intro line.
  apply (@emitted_label_normalized HalfEven6 HalfEven6Laws
           "labels/000002.txt" (16, 32, 48, 96) 320 0 [] line).
  - lia.
  - reflexivity.
Defined.

(** The file of that line, character by character. *)
Example label_text_of_box :
  forall line : label_line,
    save_yolo_label "labels/000002.txt" (16, 32, 48, 96) 320 0 []
    = [("labels/000002.txt"%string, line)] ->
    label_text (@format_label HalfEven6 line)
    = ("0 0.100000 0.200000 0.100000 0.200000" ++ newline)%string.
Proof.
  intros line E. injection E as <-. vm_compute. reflexivity.
Qed.

(** ** The compositor *)

Lemma py_int_floor (x : Q) : 0 <= x -> py_int x = Qfloor x.
Proof.
  destruct x as [n d]. unfold py_int, Qfloor, Qle. simpl. intro Hn.
  apply Z.quot_div_nonneg; lia.
Qed.

Lemma py_int_nonpos (x : Q) : x < 0 -> (py_int x <= 0)%Z.
Proof.
  destruct x as [n d]. unfold py_int, Qlt. simpl. intro Hn.
  assert (Hq : (0 <= (- n) ÷ Z.pos d)%Z) by (apply Z.quot_pos; lia).
  rewrite Z.quot_opp_l in Hq by lia. lia.
Qed.

Lemma py_int_bounds (x : Q) :
  0 <= x -> inject_Z (py_int x) <= x /\ x < inject_Z (py_int x) + 1.
Proof.
  intro Hx. rewrite (py_int_floor x Hx). split.
  - apply Qfloor_le.
  - pose proof (Qlt_floor x) as Hlt. rewrite inject_Z_plus in Hlt. exact Hlt.
Qed.

(** Claim C6 as worded fails on the default configuration: on a canvas of
    320 pixels the scale 0.08 gives the long side 25, not 25.6. *)
Lemma resize_target_counterexample :
  exists t : Z,
    @resize_target Binary64 320 320 (8 # 100) = Ok t
    /\ ~ inject_Z t == inject_Z (Z.min 320 320) * (8 # 100).
Proof.
  exists 25%Z. split; [vm_compute; reflexivity|].
  vm_compute. discriminate.
Qed.

(** [max(8, int(p))] for a finite double [p]. *)
Lemma max8_truncates (p : Q) :
  let t := Z.max 8 (py_int p) in
  (8 <= t)%Z
  /\ (p < 9 -> t = 8%Z)
  /\ (8 <= p -> inject_Z t <= p /\ p < inject_Z t + 1)
  /\ (inject_Z t == p <-> exists k : Z, (8 <= k)%Z /\ p == inject_Z k).
Proof.
  intro t. unfold t.
  assert (Hlow : p < 9 -> (py_int p <= 8)%Z).
  { intro Hp. destruct (Qlt_le_dec p 0) as [Hneg | Hnn].
    - pose proof (py_int_nonpos p Hneg). lia.
    - destruct (py_int_bounds p Hnn) as [Hfl _].
      assert (Hq : inject_Z (py_int p) < inject_Z 9) by (change (inject_Z 9) with 9; lra).
      rewrite <- Zlt_Qlt in Hq. lia. }
  assert (Hhigh : 8 <= p -> (8 <= py_int p)%Z /\ inject_Z (py_int p) <= p
                            /\ p < inject_Z (py_int p) + 1).
  { intro Hp. assert (Hnn : 0 <= p) by lra.
    destruct (py_int_bounds p Hnn) as [Hfl Hce]. repeat split; try assumption.
    assert (Hq : inject_Z 7 < inject_Z (py_int p)).
    { change (inject_Z 7) with (8 - 1). lra. }
    rewrite <- Zlt_Qlt in Hq. lia. }
  split; [lia|]. split; [|split].
  - intro Hp. specialize (Hlow Hp). lia.
  - intro Hp. destruct (Hhigh Hp) as (H8 & Hfl & Hce).
    rewrite Z.max_r by exact H8. split; assumption.
  - split.
    + intro Heq. exists (Z.max 8 (py_int p)). split; [lia|]. symmetry. exact Heq.
    + intros (k & Hk & Hpk).
      assert (Hp : 8 <= p).
      { rewrite Hpk. change 8 with (inject_Z 8). rewrite <- Zle_Qle. exact Hk. }
      destruct (Hhigh Hp) as (H8 & Hfl & Hce).
      rewrite Z.max_r by exact H8.
      assert (E : py_int p = k).
      { assert (Hle : inject_Z (py_int p) <= inject_Z k) by lra.
        assert (Hlt : inject_Z k < inject_Z (py_int p + 1)).
        { rewrite inject_Z_plus. change (inject_Z 1) with 1. lra. }
        rewrite <- Zle_Qle in Hle. rewrite <- Zlt_Qlt in Hlt. lia. }
      rewrite E. symmetry. exact Hpk.
Qed.

(** Claim C6, amended.  Let [p] be the double product [min(bw, bh) * scale]
    as the interpreter computes it.  When [p] is finite the long side handed
    to [resize_keep_aspect] is [max(8, int(p))]: an integer of at least 8,
    equal to 8 when [p] is below 9, [p] truncated to an integer when [p] is
    at least 8, and equal to [p] itself only when [p] is an integer of at
    least 8.  When [p] is an infinity the computation raises OverflowError,
    when it is a NaN it raises ValueError, and nothing is resized. *)
Theorem resize_target_truncates `{Float64} (bw bh : Z) (scale : Q) :
  match f64_mul (inject_Z (Z.min bw bh)) scale with
  | Finite p =>
      exists t : Z,
        resize_target bw bh scale = Ok t
        /\ (8 <= t)%Z
        /\ (p < 9 -> t = 8%Z)
        /\ (8 <= p -> inject_Z t <= p /\ p < inject_Z t + 1)
        /\ (inject_Z t == p <-> exists k : Z, (8 <= k)%Z /\ p == inject_Z k)
  | Infinite _ => resize_target bw bh scale = Err OverflowError
  | NotANumber => resize_target bw bh scale = Err NotANumberError
  end.
Proof.
  unfold resize_target.
  destruct (f64_mul (inject_Z (Z.min bw bh)) scale) as [p | sgn |]; cbn [py_int_f].
  - exists (Z.max 8 (py_int p)). split; [reflexivity|]. apply max8_truncates.
  - reflexivity.
  - reflexivity.
Qed.

Lemma resize_target_truncates_witness :
  exists t : Z,
    @resize_target Binary64 320 320 (8 # 100) = Ok t /\ (8 <= t)%Z.
Proof.
  pose proof (@resize_target_truncates Binary64 320 320 (8 # 100)) as Ht.
  destruct (@f64_mul Binary64 (inject_Z (Z.min 320 320)) (8 # 100)) as [p | sgn |] eqn:E.
  - destruct Ht as (t & Et & H8 & _). exists t. split; assumption.
  - vm_compute in E. discriminate.
  - vm_compute in E. discriminate.
Defined.

(** On a canvas of 100 pixels the exact product 100 * 0.29 is 29 and the
    double product is 28.999999999999996: the long side is max(8, 28); the
    double nearest to 0.7 is below 0.7 and its product with 100 rounds to
    70. *)
Example resize_target_rounded_product :
  @resize_target Binary64 100 100 (29 # 100) = Ok 29%Z
  /\ @resize_target Binary64 100 100 double_0_29 = Ok 28%Z
  /\ @resize_target Binary64 100 100 double_0_7 = Ok 70%Z
  /\ py_int (inject_Z (Z.min 100 100) * double_0_7) = 69%Z.
Proof. repeat split; vm_compute; reflexivity. Qed.

(** Claim C7, evaluated where the code departs from it.  With a foreground
    as large as the canvas (canvas 320, scale 1) the offset range is
    [0, max(1, 0)] = [0, 1]; a draw of 1 on each axis places the foreground
    at (1, 1, 321, 321), beyond the 320-pixel canvas. *)
Theorem full_canvas_placement_overflows :
  max_offset 320 320 = 1%Z
  /\ exists (x1 y1 x2 y2 : Q),
       @generate_one _ ScriptedRandom _ (SizedImages disk0) ExactLinAlg Binary64
         "minimap.png" "champion.png" 320 (1, 1) false false false [0; 1; 1; half; half]%Z
       = Ok (Sized.Image "RGB" (320, 320)%Z, (x1, y1, x2, y2), [])
       /\ inject_Z 320 < x2 /\ inject_Z 320 < y2.
Proof.
  split; [reflexivity|].
  exists 1, 1, 321, 321. split; [vm_compute; reflexivity|].
  split; reflexivity.
Qed.

(** ** The retry loop *)

Lemma validate_iff (x1 y1 x2 y2 : Q) :
  validate (x1, y1, x2, y2) = true <-> (2 < x2 - x1 /\ 2 < y2 - y1).
Proof.
  unfold validate. rewrite andb_true_iff, !Qlt_bool_iff. reflexivity.
Qed.

Lemma validate_clamped_inside (x1 y1 x2 y2 : Q) (img_size : Z) :
  (0 <= x1 /\ x1 <= inject_Z img_size) -> (0 <= y1 /\ y1 <= inject_Z img_size) ->
  (0 <= x2 /\ x2 <= inject_Z img_size) -> (0 <= y2 /\ y2 <= inject_Z img_size) ->
  validate_clamped (x1, y1, x2, y2) img_size = validate (x1, y1, x2, y2).
Proof.
  intros [A1 B1] [A2 B2] [A3 B3] [A4 B4].
  unfold validate_clamped, clamp_bbox.
  pose proof (clamp_inside x1 0 (inject_Z img_size) A1 B1) as E1.
  pose proof (clamp_inside y1 0 (inject_Z img_size) A2 B2) as E2.
  pose proof (clamp_inside x2 0 (inject_Z img_size) A3 B3) as E3.
  pose proof (clamp_inside y2 0 (inject_Z img_size) A4 B4) as E4.
  apply eq_true_iff_eq. rewrite !validate_iff. rewrite E1, E2, E3, E4. reflexivity.
Qed.

Section Loop.
Context {RNG : Type} `{RandomSource RNG}.
Context {Image : Type} `{ImageLib Image}.
Context `{LinAlg}.
Context `{Float64}.

(** Claim C1, amended.  After an attempt that returned the box
    [(x1, y1, x2, y2)], the loop body breaks exactly when the box as returned
    (not clamped) has [x2 - x1 > 2] and [y2 - y1 > 2], and continues
    otherwise.  For a box that lies within [0, img_size] on both axes the
    test on the clamped box gives the same answer. *)
Theorem retry_body_accepts_raw_box (cfg : config) (st : @loop_state Image) (s s' : RNG)
    (img : Image) (x1 y1 x2 y2 : Q) :
  (tries st + 1 <= 5)%Z ->
  attempt cfg s = Ok ((img, (x1, y1, x2, y2)), s') ->
  let st' := LoopState (tries st + 1) (Some (img, (x1, y1, x2, y2))) (S (attempts st)) in
  ((2 < x2 - x1 /\ 2 < y2 - y1) -> retry_body cfg st s = Ok (Break st', s'))
  /\ (~ (2 < x2 - x1 /\ 2 < y2 - y1) -> retry_body cfg st s = Ok (Continue st', s'))
  /\ ((0 <= x1 /\ x1 <= inject_Z (cfg_img_size cfg)) ->
      (0 <= y1 /\ y1 <= inject_Z (cfg_img_size cfg)) ->
      (0 <= x2 /\ x2 <= inject_Z (cfg_img_size cfg)) ->
      (0 <= y2 /\ y2 <= inject_Z (cfg_img_size cfg)) ->
      validate_clamped (x1, y1, x2, y2) (cfg_img_size cfg) = validate (x1, y1, x2, y2)).
Proof.
  intros Htries Hatt st'.
  assert (Hgt : (tries st + 1 >? 5)%Z = false) by (rewrite Z.gtb_ltb; apply Z.ltb_ge; lia).
  assert (Hrun : retry_body cfg st s =
                 if validate (x1, y1, x2, y2) then Ok (Break st', s')
                 else Ok (Continue st', s')).
  { unfold retry_body. rewrite Hgt.
    erewrite bind_ok by exact Hatt. cbv beta iota.
    fold st'. destruct (validate (x1, y1, x2, y2)); reflexivity. }
  split; [|split].
  - intro Hv. apply validate_iff in Hv. rewrite Hrun, Hv. reflexivity.
  - intro Hv. rewrite Hrun.
    destruct (validate (x1, y1, x2, y2)) eqn:E; [|reflexivity].
    apply validate_iff in E. contradiction.
  - apply validate_clamped_inside.
Qed.

Lemma retry_loop_invariant (cfg : config) (fuel : nat) :
  forall (st : @loop_state Image) (s : RNG),
    loop_invariant st ->
    (6 <= Z.of_nat fuel + tries st)%Z ->
    match retry_loop fuel cfg st s with
    | Ok (Some st', _) =>
        (1 <= attempts st' <= 5)%nat /\ (tries st' <= 6)%Z /\ current st' <> None
    | Ok (None, _) => False
    | Err _ => True
    end.
Proof.
  induction fuel as [|fuel IH]; intros st s (Hrange & Hatt & Hcur) Hfuel.
  - simpl in Hfuel. lia.
  - cbn [retry_loop]. unfold bind at 1. unfold retry_body.
    destruct (tries st + 1 >? 5)%Z eqn:Hgt.
    + apply Z.gtb_lt in Hgt. cbn [ret attempts tries current].
      repeat split; try lia. apply Hcur. lia.
    + assert (Hle : (tries st + 1 <= 5)%Z).
      { destruct (Z.gtb_spec (tries st + 1) 5); [discriminate | lia]. }
      unfold bind at 1.
      destruct (attempt cfg s) as [[[img b] s1]|e]; [|exact I].
      destruct (validate b).
      * cbn [ret attempts tries current]. repeat split; try lia. discriminate.
      * cbn [ret]. apply IH.
        -- unfold loop_invariant. cbn [attempts tries current].
           repeat split; try lia. intros _. discriminate.
        -- cbn [tries]. lia.
Qed.

(** Fuel beyond what the loop needs does not change its result. *)
Lemma retry_loop_fuel_irrelevant (cfg : config) (extra : nat) (fuel : nat) :
  forall (st : @loop_state Image) (s : RNG),
    (tries st <= 5)%Z ->
    (6 <= Z.of_nat fuel + tries st)%Z ->
    retry_loop (fuel + extra) cfg st s = retry_loop fuel cfg st s.
Proof.
  induction fuel as [|fuel IH]; intros st s Hhi Hfuel.
  - simpl in Hfuel. lia.
  - cbn [Nat.add retry_loop]. unfold bind, retry_body.
    destruct (tries st + 1 >? 5)%Z eqn:Hgt; [reflexivity|].
    assert (Hle : (tries st + 1 <= 5)%Z).
    { destruct (Z.gtb_spec (tries st + 1) 5); [discriminate | lia]. }
    unfold bind.
    destruct (attempt cfg s) as [[[img b] s1]|e]; [|reflexivity].
    destruct (validate b); [reflexivity|].
    cbn [ret]. apply IH; cbn [tries]; lia.
Qed.
(** Claim C2.  From the initial loop variables the retry loop ends within six
    passes through its body, whatever the pools and the random source, and
    never runs out of fuel: either an attempt raised, or the loop broke after
    at least one and at most five calls of [generate_one], with an image and
    a box bound for the encoding step. *)
Theorem retry_loop_bounded (cfg : config) (extra : nat) (s : RNG) :
  match retry_loop (6 + extra) cfg loop_init s with
  | Ok (Some st, _) =>
      (1 <= attempts st <= 5)%nat /\ (tries st <= 6)%Z /\ current st <> None
  | Ok (None, _) => False
  | Err _ => True
  end.
Proof.
  apply retry_loop_invariant.
  - unfold loop_invariant, loop_init. cbn [attempts tries current].
    repeat split; try lia.
  - unfold loop_init. cbn [tries]. lia.
Qed.
End Loop.

Lemma retry_body_accepts_raw_box_witness :
  @retry_body _ ScriptedRandom _ (SizedImages disk0) ExactLinAlg Binary64
    (cfg_of "champion.png" 320 (8 # 100) (2 # 10)) loop_init
    [0; 0; 0; 0; 0; 0; 17; 40; half; half]%Z
  = Ok (Break (LoopState 1 (Some (Sized.Image "RGB" (320, 320)%Z, (17, 40, 42, 65))) 1), []).
Proof.
  apply (proj1 (@retry_body_accepts_raw_box _ ScriptedRandom _ (SizedImages disk0) ExactLinAlg Binary64
                  (cfg_of "champion.png" 320 (8 # 100) (2 # 10)) loop_init
                  [0; 0; 0; 0; 0; 0; 17; 40; half; half]%Z []
                  (Sized.Image "RGB" (320, 320)%Z) 17 40 42 65
                  ltac:(vm_compute; discriminate) ltac:(vm_compute; reflexivity))).
  split; vm_compute; reflexivity.
Defined.

Lemma validate_clamped_counterexample :
  @retry_body _ ScriptedRandom _ (SizedImages disk0) ExactLinAlg Binary64
    (cfg_of "champion.png" 3 (8 # 100) (2 # 10)) loop_init
    [0; 0; 0; 0; 0; 0; 1; 1; half; half]%Z
  = Ok (Break (LoopState 1 (Some (Sized.Image "RGB" (3, 3)%Z, (1, 1, 9, 9))) 1), [])
  /\ validate_clamped (1, 1, 9, 9) 3 = false.
Proof.
  split; vm_compute; reflexivity.
Qed.

Example retry_exhausted :
  @retry_loop _ ScriptedRandom _ (SizedImages disk0) ExactLinAlg Binary64 6
    (cfg_of "banner.png" 320 (8 # 100) (2 # 10)) loop_init []
  = Ok (Some (LoopState 6 (Some (Sized.Image "RGB" (320, 320)%Z, (0, 0, 25, 1))) 5), []).
Proof. vm_compute. reflexivity. Qed.

Section Persist.
Context {RNG : Type} `{RandomSource RNG}.
Context {Image : Type} `{ImageLib Image}.
Context `{LinAlg}.
Context `{Float64}.

Lemma process_index_moves_on (cfg : config) (extra : nat) (i : Z) (w : world) (s : RNG) :
  match process_index (6 + extra) cfg i w s with
  | Ok (Some w', _) =>
      exists (img : Image) (b : bbox) (path : string),
        saved_images w' = saved_images w ++ [(path, img, 92%Z)]
        /\ exists label_path,
             labels w' = save_yolo_label label_path b (cfg_img_size cfg) 0 (labels w)
  | Ok (None, _) => False
  | Err _ => True
  end.
Proof.
  unfold process_index, bind.
  pose proof (retry_loop_invariant cfg (6 + extra) loop_init s) as Hloop.
  destruct (retry_loop (6 + extra) cfg loop_init s) as [[[st|] s1]|e].
  - destruct Hloop as (_ & _ & Hcur).
    + unfold loop_invariant, loop_init. cbn [attempts tries current]. repeat split; lia.
    + unfold loop_init. cbn [tries]. lia.
    + destruct (current st) as [[img b]|]; [|contradiction].
      cbn [ret saved_images labels]. eauto 6.
  - apply Hloop.
    + unfold loop_invariant, loop_init. cbn [attempts tries current]. repeat split; lia.
    + unfold loop_init. cbn [tries]. lia.
  - exact I.
Qed.

Context `{!RandomLaws RNG}.

Lemma randint_range (a b : Z) (s s' : RNG) (x : Z) :
  (a <= b)%Z -> randint a b s = Ok (x, s') -> (a <= x <= b)%Z.
Proof.
  intros Hab. unfold randint.
  destruct (b <? a)%Z eqn:E; [apply Z.ltb_lt in E; lia|].
  pose proof (randbelow_range (b - a + 1) s ltac:(lia)) as Hr.
  destruct (randbelow (b - a + 1) s) as [k s1]. simpl in Hr.
  intro Heq. injection Heq as <- <-. lia.
Qed.

(** With at least one pixel of room the drawn offset keeps the foreground
    inside the canvas along that axis. *)
Lemma placement_inside_when_room (bsize fsize : Z) (s s' : RNG) (x : Z) :
  (1 <= bsize - fsize)%Z ->
  randint 0 (max_offset bsize fsize) s = Ok (x, s') ->
  (0 <= x /\ x + fsize <= bsize)%Z.
Proof.
  intros Hroom Hdraw. unfold max_offset in Hdraw.
  apply randint_range in Hdraw; lia.
Qed.
End Persist.

Lemma ScriptedLaws : @RandomLaws Scripted.rng ScriptedRandom.
Proof.
  split.
  - intros [|k s]; cbn [random ScriptedRandom Scripted.random fst].
    + split; [apply Qle_refl | reflexivity].
    + pose proof (Z.mod_pos_bound k Scripted.two53 ltac:(reflexivity)) as [Hlo Hhi].
      assert (Hpos : 0 < inject_Z Scripted.two53) by reflexivity.
      split.
      * apply Qle_shift_div_l; [exact Hpos|]. rewrite Qmult_0_l.
        change 0 with (inject_Z 0). rewrite <- Zle_Qle. exact Hlo.
      * apply Qlt_shift_div_r; [exact Hpos|]. rewrite Qmult_1_l.
        rewrite <- Zlt_Qlt. exact Hhi.
  - intros n [|k s] Hn; cbn [randbelow ScriptedRandom Scripted.randbelow fst].
    + lia.
    + apply Z.mod_pos_bound. exact Hn.
Qed.

(** ** The quad drawn by the augmenter *)

Lemma inset_cross_pos (A B C D : Q) :
  84 # 100 <= A -> 84 # 100 <= B -> - (1) <= C -> C <= 1 ->
  - (8 # 100) <= D -> D <= 8 # 100 ->
  0 < A * B - C * D.
Proof. intros. nra. Qed.

Lemma scaled_cross_nonzero (W Hh K E : Q) :
  0 < W -> 0 < Hh -> 0 < K -> E == W * Hh * K -> ~ E == 0.
Proof.
  intros HW HH HK HE Hz.
  assert (HWH : 0 < W * Hh) by (apply Qmult_lt_0_compat; assumption).
  assert (HP : 0 < W * Hh * K) by (apply Qmult_lt_0_compat; assumption).
  lra.
Qed.

Section Quad.
Context {RNG : Type} `{RandomSource RNG} `{!RandomLaws RNG}.

Lemma random_perspective_points_draws (w h : Z) (max_shift : Q) (s : RNG) :
  exists (r0 r1 r2 r3 r4 r5 r6 r7 : Q) (s1 : RNG),
    random_perspective_points w h max_shift s =
    Ok ((canvas_corners w h,
         [(0 + (inject_Z w * max_shift - 0) * r0, 0 + (inject_Z h * max_shift - 0) * r1);
          (inject_Z w - (0 + (inject_Z w * max_shift - 0) * r2),
           0 + (inject_Z h * max_shift - 0) * r3);
          (inject_Z w - (0 + (inject_Z w * max_shift - 0) * r4),
           inject_Z h - (0 + (inject_Z h * max_shift - 0) * r5));
          (0 + (inject_Z w * max_shift - 0) * r6,
           inject_Z h - (0 + (inject_Z h * max_shift - 0) * r7))]), s1)
    /\ Forall (fun r => 0 <= r /\ r < 1) [r0; r1; r2; r3; r4; r5; r6; r7].
Proof.
  unfold random_perspective_points, bind, uniform, ret.
  repeat match goal with
         | |- context [random ?st] =>
             let Hr := fresh "Hr" in
             pose proof (random_unit st) as Hr;
             destruct (random st) as [? ?]; cbn [fst] in Hr
         end.
  do 9 eexists. split; [reflexivity|].
  repeat constructor; tauto.
Qed.

(** X14.  The destination quad drawn by the augmenter (shift fraction 0.08)
    for a canvas of positive width and height never has three corners on
    one line. *)
Lemma random_quad_non_degenerate (w h : Z) (s s1 : RNG) (src dst : list point) :
  (0 < w)%Z -> (0 < h)%Z ->
  random_perspective_points w h (8 # 100) s = Ok ((src, dst), s1) ->
  non_degenerate dst.
Proof.
  intros Hw Hh Hdraw.
  destruct (random_perspective_points_draws w h (8 # 100) s)
    as (r0 & r1 & r2 & r3 & r4 & r5 & r6 & r7 & s' & Hrun & Hr).
  rewrite Hrun in Hdraw. injection Hdraw as <- <- <-.
  repeat match goal with
         | Hf : Forall _ (_ :: _) |- _ =>
             let Hx := fresh "B" in
             apply Forall_cons_iff in Hf; destruct Hf as [Hx Hf]; destruct Hx as [? ?]
         end.
  assert (HW : 0 < inject_Z w) by (change 0 with (inject_Z 0); rewrite <- Zlt_Qlt; exact Hw).
  assert (HH : 0 < inject_Z h) by (change 0 with (inject_Z 0); rewrite <- Zlt_Qlt; exact Hh).
  set (W := inject_Z w) in *. set (Hq := inject_Z h) in *.
  unfold non_degenerate, cross. cbn [fst snd].
  repeat split.
  - apply (scaled_cross_nonzero W Hq
             ((1 - (8 # 100) * r2 - (8 # 100) * r0) * (1 - (8 # 100) * r5 - (8 # 100) * r1)
              - (1 - (8 # 100) * r4 - (8 # 100) * r0) * ((8 # 100) * (r3 - r1))));
      [assumption | assumption | apply inset_cross_pos; lra | ring].
  - apply (scaled_cross_nonzero W Hq
             ((1 - (8 # 100) * r2 - (8 # 100) * r0) * (1 - (8 # 100) * r7 - (8 # 100) * r1)
              - ((8 # 100) * (r6 - r0)) * ((8 # 100) * (r3 - r1))));
      [assumption | assumption | apply inset_cross_pos; lra | ring].
  - apply (scaled_cross_nonzero W Hq
             ((1 - (8 # 100) * r4 - (8 # 100) * r0) * (1 - (8 # 100) * r7 - (8 # 100) * r1)
              - (1 - (8 # 100) * r5 - (8 # 100) * r1) * ((8 # 100) * (r6 - r0))));
      [assumption | assumption | apply inset_cross_pos; lra | ring].
  - apply (scaled_cross_nonzero W Hq
             ((1 - (8 # 100) * r6 - (8 # 100) * r2) * (1 - (8 # 100) * r5 - (8 # 100) * r3)
              - (1 - (8 # 100) * r7 - (8 # 100) * r3) * ((8 # 100) * (r4 - r2))));
      [assumption | assumption | apply inset_cross_pos; lra | ring].
Qed.
End Quad.

(** ** More on clamping and the label encoder *)

Lemma clamp_below (value lo hi : Q) : lo <= hi -> value <= lo -> clamp value lo hi == lo.
Proof.
  intros _ Hv. unfold clamp. apply Q.max_l.
  apply Q.min_le_iff. right. exact Hv.
Qed.

Lemma clamp_above (value lo hi : Q) : lo <= hi -> hi <= value -> clamp value lo hi == hi.
Proof.
  intros Hle Hv. unfold clamp. rewrite (Q.min_l hi value Hv).
  apply Q.max_r. exact Hle.
Qed.

(** X1.  [clamp] with [lo <= hi] returns a value of [lo, hi]: [lo] for a
    value below the range, [hi] for one above it, the value itself inside;
    clamping twice changes nothing.  With [hi < lo] it returns [lo]. *)
Theorem clamp_cases (value lo hi : Q) :
  (lo <= hi ->
     (value <= lo -> clamp value lo hi == lo) /\
     (hi <= value -> clamp value lo hi == hi) /\
     (lo <= value -> value <= hi -> clamp value lo hi == value) /\
     clamp (clamp value lo hi) lo hi == clamp value lo hi)
  /\ (hi < lo -> clamp value lo hi == lo).
Proof.
  split.
  - intro Hle. repeat split.
    + apply clamp_below. exact Hle.
    + apply clamp_above. exact Hle.
    + intros Hlo Hhi. apply clamp_inside; assumption.
    + destruct (clamp_range value lo hi Hle) as [A B].
      apply clamp_inside; assumption.
  - intro Hlt. unfold clamp. apply Q.max_l.
    apply Q.min_le_iff. left. apply Qlt_le_weak. exact Hlt.
Qed.

Lemma clamp_cases_witness :
  clamp (-5) 0 320 == 0 /\ clamp 400 0 320 == 320 /\ clamp 17 0 320 == 17
  /\ clamp 17 0 (-3) == 0.
Proof.
  destruct (clamp_cases (-5) 0 320) as [H1 _].
  destruct (clamp_cases 400 0 320) as [H2 _].
  destruct (clamp_cases 17 0 320) as [H3 _].
  destruct (clamp_cases 17 0 (-3)) as [_ H4].
  assert (L : 0 <= 320) by (vm_compute; discriminate).
  split; [apply (proj1 (H1 L)); vm_compute; discriminate|].
  split; [apply (proj1 (proj2 (H2 L))); vm_compute; discriminate|].
  split; [apply (proj1 (proj2 (proj2 (H3 L)))); vm_compute; discriminate|].
  apply H4. vm_compute. reflexivity.
Defined.

Lemma clamp_nonpositive_side (value : Q) (img_size : Z) :
  (img_size <= 0)%Z -> clamp value 0 (inject_Z img_size) == 0.
Proof.
  intro Hs. unfold clamp. apply Q.max_l.
  apply Q.min_le_iff. left.
  change 0 with (inject_Z 0). rewrite <- Zle_Qle. exact Hs.
Qed.

(** What [save_yolo_label] does, in one of two ways. *)
Lemma save_yolo_label_cases (path : string) (b : bbox) (img_size cid : Z)
    (fs : label_log) :
  save_yolo_label path b img_size cid fs = fs
  \/ exists line : label_line,
       save_yolo_label path b img_size cid fs = fs ++ [(path, line)]
       /\ class_id line = cid
       /\ (0 < img_size)%Z
       /\ label_in_unit_square line
       /\ bbox_eq (decode_label line img_size) (clamp_bbox b img_size).
Proof.
  destruct b as [[[x1 y1] x2] y2]. unfold save_yolo_label, write_text, clamp_bbox.
  destruct (Z_lt_le_dec 0 img_size) as [Hpos | Hnonpos].
  - assert (HS : 0 < inject_Z img_size).
    { change 0 with (inject_Z 0). rewrite <- Zlt_Qlt. exact Hpos. }
    set (S := inject_Z img_size) in *.
    destruct (clamp_range x1 0 S (Qlt_le_weak _ _ HS)) as [A1 B1].
    destruct (clamp_range y1 0 S (Qlt_le_weak _ _ HS)) as [A2 B2].
    destruct (clamp_range x2 0 S (Qlt_le_weak _ _ HS)) as [A3 B3].
    destruct (clamp_range y2 0 S (Qlt_le_weak _ _ HS)) as [A4 B4].
    set (cx1 := clamp x1 0 S) in *. set (cy1 := clamp y1 0 S) in *.
    set (cx2 := clamp x2 0 S) in *. set (cy2 := clamp y2 0 S) in *.
    destruct (Qle_bool cx2 cx1 || Qle_bool cy2 cy1) eqn:E; [left; reflexivity|].
    right. eexists. split; [reflexivity|]. split; [reflexivity|]. split; [exact Hpos|].
    apply orb_false_iff in E. destruct E as [Ex Ey].
    assert (Hx : cx1 < cx2).
    { apply Qnot_le_lt. intro Hle. apply Qle_bool_iff in Hle. congruence. }
    assert (Hy : cy1 < cy2).
    { apply Qnot_le_lt. intro Hle. apply Qle_bool_iff in Hle. congruence. }
    assert (HSn : ~ S == 0) by lra.
    assert (Ecx : (cx1 + cx2) / 2 / S - (cx2 - cx1) / S / 2 == cx1 / S) by (field; exact HSn).
    assert (Ecx' : (cx1 + cx2) / 2 / S + (cx2 - cx1) / S / 2 == cx2 / S) by (field; exact HSn).
    assert (Ecy : (cy1 + cy2) / 2 / S - (cy2 - cy1) / S / 2 == cy1 / S) by (field; exact HSn).
    assert (Ecy' : (cy1 + cy2) / 2 / S + (cy2 - cy1) / S / 2 == cy2 / S) by (field; exact HSn).
    split.
    + unfold label_in_unit_square. cbn [cx cy lw lh].
      rewrite Ecx, Ecx', Ecy, Ecy'.
      repeat split.
      * apply Qle_shift_div_l; [exact HS | lra].
      * apply Qle_shift_div_r; [exact HS | lra].
      * apply Qle_shift_div_l; [exact HS | lra].
      * apply Qle_shift_div_r; [exact HS | lra].
      * apply Qlt_shift_div_l; [exact HS | lra].
      * apply Qlt_shift_div_l; [exact HS | lra].
    + unfold decode_label, bbox_eq. cbn [cx cy lw lh].
      rewrite Ecx, Ecx', Ecy, Ecy'. fold S.
      repeat split; field; exact HSn.
  - left.
    pose proof (clamp_nonpositive_side x1 img_size Hnonpos) as E1.
    pose proof (clamp_nonpositive_side x2 img_size Hnonpos) as E2.
    assert (Hle : Qle_bool (clamp x2 0 (inject_Z img_size))
                           (clamp x1 0 (inject_Z img_size)) = true).
    { apply Qle_bool_iff. rewrite E1, E2. apply Qle_refl. }
    rewrite Hle. reflexivity.
Qed.

Lemma written_fields_in_unit `{Formatter} `{!FormatterLaws} (line : label_line) :
  label_in_unit_square line -> written_in_unit (format_label line).
Proof.
  intros ((X0 & X1) & (Y0 & Y1) & W0 & H0').
  unfold written_in_unit, format_label. cbn [w_cx w_cy w_w w_h].
  assert (Ew : lw line == 2 * (lw line / 2)) by field.
  assert (Eh : lh line == 2 * (lh line / 2)) by field.
  set (hw := lw line / 2) in *. set (hh := lh line / 2) in *.
  destruct (fmt6_unit (cx line) ltac:(lra) ltac:(lra)) as [Rx _].
  destruct (fmt6_unit (cy line) ltac:(lra) ltac:(lra)) as [Ry _].
  destruct (fmt6_unit (lw line) ltac:(lra) ltac:(lra)) as [Rw _].
  destruct (fmt6_unit (lh line) ltac:(lra) ltac:(lra)) as [Rh _].
  repeat split; lia.
Qed.

(** One edge of the decoded box: the centre and the size are each off by
    at most 0.501 millionths. *)
Lemma decoded_edge_near (u v c l S : Q) :
  0 < S ->
  c * 1000000 - (501 # 1000) <= u -> u <= c * 1000000 + (501 # 1000) ->
  l * 1000000 - (501 # 1000) <= v -> v <= l * 1000000 + (501 # 1000) ->
  (- (S / 1000000) <= (u / 1000000 - v / 1000000 / 2) * S - (c - l / 2) * S
   /\ (u / 1000000 - v / 1000000 / 2) * S - (c - l / 2) * S <= S / 1000000)
  /\ (- (S / 1000000) <= (u / 1000000 + v / 1000000 / 2) * S - (c + l / 2) * S
      /\ (u / 1000000 + v / 1000000 / 2) * S - (c + l / 2) * S <= S / 1000000).
Proof.
  intros HS U0 U1 V0 V1.
  set (t1 := u / 1000000 - v / 1000000 / 2 - (c - l / 2)).
  set (t2 := u / 1000000 + v / 1000000 / 2 - (c + l / 2)).
  assert (E1 : (u / 1000000 - v / 1000000 / 2) * S - (c - l / 2) * S == t1 * S)
    by (unfold t1; ring).
  assert (E2 : (u / 1000000 + v / 1000000 / 2) * S - (c + l / 2) * S == t2 * S)
    by (unfold t2; ring).
  assert (ES : S / 1000000 == (1 # 1000000) * S) by field.
  assert (B1 : - (1 # 1000000) <= t1 /\ t1 <= 1 # 1000000).
  { assert (Eu : u / 1000000 == u * (1 # 1000000)) by field.
    assert (Ev : v / 1000000 / 2 == v * (1 # 2000000)) by field.
    assert (El : l / 2 == l * (1 # 2)) by field.
    unfold t1. rewrite Eu, Ev, El. split; lra. }
  assert (B2 : - (1 # 1000000) <= t2 /\ t2 <= 1 # 1000000).
  { assert (Eu : u / 1000000 == u * (1 # 1000000)) by field.
    assert (Ev : v / 1000000 / 2 == v * (1 # 2000000)) by field.
    assert (El : l / 2 == l * (1 # 2)) by field.
    unfold t2. rewrite Eu, Ev, El. split; lra. }
  rewrite E1, E2, ES. clearbody t1 t2. split; split; nra.
Qed.

Lemma decode_written_near `{Formatter} `{!FormatterLaws} (line : label_line) (img_size : Z) :
  (0 < img_size)%Z ->
  bbox_within (inject_Z img_size / 1000000)
    (decode_written (format_label line) img_size) (decode_label line img_size).
Proof.
  intro Hpos.
  assert (HS : 0 < inject_Z img_size).
  { change 0 with (inject_Z 0). rewrite <- Zlt_Qlt. exact Hpos. }
  unfold bbox_within, decode_written, decode_label, format_label.
  cbn [w_cx w_cy w_w w_h].
  destruct (fmt6_near (cx line)) as [X0 X1]. destruct (fmt6_near (cy line)) as [Y0 Y1].
  destruct (fmt6_near (lw line)) as [W0 W1]. destruct (fmt6_near (lh line)) as [H0' H1'].
  destruct (decoded_edge_near _ _ _ _ _ HS X0 X1 W0 W1) as [Ax Bx].
  destruct (decoded_edge_near _ _ _ _ _ HS Y0 Y1 H0' H1') as [Ay By].
  repeat split; tauto.
Qed.

Lemma bbox_within_eq (tol : Q) (a b c : bbox) :
  bbox_within tol a b -> bbox_eq b c -> bbox_within tol a c.
Proof.
  destruct a as [[[a1 a2] a3] a4], b as [[[b1 b2] b3] b4], c as [[[c1 c2] c3] c4].
  unfold bbox_within, bbox_eq.
  intros ((A1 & A1') & (A2 & A2') & (A3 & A3') & (A4 & A4')) (E1 & E2 & E3 & E4).
  repeat split; lra.
Qed.

(** What [save_yolo_label] does, with the text of the line. *)
Lemma save_yolo_label_written `{Formatter} `{!FormatterLaws}
    (path : string) (b : bbox) (img_size cid : Z) (fs : label_log) :
  save_yolo_label path b img_size cid fs = fs
  \/ exists line : label_line,
       save_yolo_label path b img_size cid fs = fs ++ [(path, line)]
       /\ class_id line = cid
       /\ (0 < img_size)%Z
       /\ written_in_unit (format_label line)
       /\ bbox_within (inject_Z img_size / 1000000)
            (decode_written (format_label line) img_size) (clamp_bbox b img_size).
Proof.
  destruct (save_yolo_label_cases path b img_size cid fs)
    as [Hsame | (line & Hw & Hc & Hpos & Hu & Hd)]; [left; exact Hsame|].
  right. exists line. split; [exact Hw|]. split; [exact Hc|]. split; [exact Hpos|].
  split; [apply written_fields_in_unit; exact Hu|].
  eapply bbox_within_eq; [apply decode_written_near; exact Hpos | exact Hd].
Qed.

(** X2.  A label line that [save_yolo_label] writes carries the class id it
    was given; its four fields, as written with six decimals, lie between
    0.000000 and 1.000000; and read back (centre minus and plus half the
    size, times the canvas side) the text gives the clamped box to within a
    millionth of the canvas side on every edge. *)
Theorem written_label_decodes `{Formatter} `{!FormatterLaws}
    (path : string) (b : bbox) (img_size cid : Z) (fs : label_log) (line : label_line) :
  save_yolo_label path b img_size cid fs = fs ++ [(path, line)] ->
  let w := format_label line in
  w_class w = cid
  /\ written_in_unit w
  /\ bbox_within (inject_Z img_size / 1000000)
       (decode_written w img_size) (clamp_bbox b img_size).
Proof.
  intros Hemit w.
  destruct (save_yolo_label_written path b img_size cid fs)
    as [Hsame | (line' & Hw & Hc & _ & Hu & Hd)].
  - rewrite Hsame in Hemit. symmetry in Hemit. exfalso. exact (app_one_neq _ _ Hemit).
  - rewrite Hw in Hemit. apply app_inv_head in Hemit. injection Hemit as <-.
    repeat split; try assumption; apply Hu.
Qed.

(** X3.  With a canvas size of zero or less [save_yolo_label] writes nothing,
    whatever the box: every coordinate clamps to 0 and the box is rejected
    before the division by the canvas size. *)
Theorem save_yolo_label_nonpositive_size (path : string) (b : bbox)
    (img_size cid : Z) (fs : label_log) :
  (img_size <= 0)%Z -> save_yolo_label path b img_size cid fs = fs.
Proof.
  intro Hs.
  destruct (save_yolo_label_cases path b img_size cid fs)
    as [Hsame | (line' & _ & _ & Hpos & _)]; [exact Hsame | lia].
Qed.

Lemma save_yolo_label_nonpositive_size_witness :
  save_yolo_label "labels/000001.txt" (10, 10, 50, 50) 0 0 [] = [].
Proof.
  apply save_yolo_label_nonpositive_size. lia.
Defined.

(** X4.  A box that covers the whole canvas is labelled with centre
    (1/2, 1/2) and size (1, 1). *)
Theorem covering_box_label (path : string) (x1 y1 x2 y2 : Q) (img_size cid : Z)
    (fs : label_log) :
  (0 < img_size)%Z ->
  x1 <= 0 -> y1 <= 0 -> inject_Z img_size <= x2 -> inject_Z img_size <= y2 ->
  exists line : label_line,
    save_yolo_label path (x1, y1, x2, y2) img_size cid fs = fs ++ [(path, line)]
    /\ cx line == 1 # 2 /\ cy line == 1 # 2 /\ lw line == 1 /\ lh line == 1.
Proof.
  intros Hpos Hx1 Hy1 Hx2 Hy2.
  assert (HS : 0 < inject_Z img_size).
  { change 0 with (inject_Z 0). rewrite <- Zlt_Qlt. exact Hpos. }
  pose proof (clamp_below x1 0 _ (Qlt_le_weak _ _ HS) Hx1) as C1.
  pose proof (clamp_below y1 0 _ (Qlt_le_weak _ _ HS) Hy1) as C2.
  pose proof (clamp_above x2 0 _ (Qlt_le_weak _ _ HS) Hx2) as C3.
  pose proof (clamp_above y2 0 _ (Qlt_le_weak _ _ HS) Hy2) as C4.
  destruct (save_yolo_label_cases path (x1, y1, x2, y2) img_size cid fs)
    as [Hsame | (line & Hw & _ & _ & _ & Hd)].
  - exfalso. unfold save_yolo_label in Hsame.
    destruct (Qle_bool _ _ || Qle_bool _ _) eqn:E.
    + apply orb_true_iff in E. rewrite !Qle_bool_iff in E.
      rewrite C1, C2, C3, C4 in E. lra.
    + exact (app_one_neq _ _ Hsame).
  - exists line. split; [exact Hw|].
    unfold decode_label, clamp_bbox, bbox_eq in Hd.
    rewrite C1, C2, C3, C4 in Hd. destruct Hd as (D1 & D2 & D3 & D4).
    set (S := inject_Z img_size) in *.
    assert (HSn : ~ S == 0) by lra.
    assert (E1 : cx line - lw line / 2 == 0).
    { apply (Qmult_integral_l S); [exact HSn|]. lra. }
    assert (E2 : cy line - lh line / 2 == 0).
    { apply (Qmult_integral_l S); [exact HSn|]. lra. }
    assert (E3 : cx line + lw line / 2 == 1).
    { apply (Qmult_inj_r _ _ S HSn). lra. }
    assert (E4 : cy line + lh line / 2 == 1).
    { apply (Qmult_inj_r _ _ S HSn). lra. }
    assert (Hw2 : lw line == 2 * (lw line / 2)) by field.
    assert (Hh2 : lh line == 2 * (lh line / 2)) by field.
    set (hw := lw line / 2) in *. set (hh := lh line / 2) in *.
    repeat split; lra.
Qed.

Lemma covering_box_label_witness :
  exists line : label_line,
    save_yolo_label "labels/000001.txt" (-1, 0, 321, 320) 320 0 []
    = [] ++ [("labels/000001.txt"%string, line)]
    /\ cx line == 1 # 2 /\ cy line == 1 # 2 /\ lw line == 1 /\ lh line == 1.
Proof.
  apply covering_box_label; [lia | | | |]; vm_compute; discriminate.
Defined.

Lemma written_label_decodes_witness :
  let line := LabelLine 0 ((Qmax 0 (Qmin 320 16) + Qmax 0 (Qmin 320 48)) / 2 / 320)
                   ((Qmax 0 (Qmin 320 32) + Qmax 0 (Qmin 320 96)) / 2 / 320)
                   ((Qmax 0 (Qmin 320 48) - Qmax 0 (Qmin 320 16)) / 320)
                   ((Qmax 0 (Qmin 320 96) - Qmax 0 (Qmin 320 32)) / 320) in
  let w := @format_label HalfEven6 line in
  w_class w = 0%Z
  /\ written_in_unit w
  /\ bbox_within (inject_Z 320 / 1000000)
       (decode_written w 320) (clamp_bbox (16, 32, 48, 96) 320).
Proof.
  intro line.
  apply (@written_label_decodes HalfEven6 HalfEven6Laws
           "labels/000002.txt" (16, 32, 48, 96) 320 0 [] line).
  reflexivity.
Defined.

(** ** More on the orchestrator *)

Section Outputs.
Context {RNG : Type} `{RandomSource RNG}.
Context {Image : Type} `{ImageLib Image}.
Context `{LinAlg}.
Context `{Float64}.

Lemma retry_loop_exit_invariant (cfg : config) (fuel : nat) :
  forall (st : @loop_state Image) (s : RNG),
    loop_invariant_failed st ->
    (6 <= Z.of_nat fuel + tries st)%Z ->
    match retry_loop fuel cfg st s with
    | Ok (Some st', _) =>
        exists (img : Image) (b : bbox),
          current st' = Some (img, b)
          /\ ((validate b = true /\ (1 <= tries st' <= 5)%Z
               /\ attempts st' = Z.to_nat (tries st'))
              \/ (validate b = false /\ tries st' = 6%Z /\ attempts st' = 5%nat))
    | Ok (None, _) => False
    | Err _ => True
    end.
Proof.
  induction fuel as [|fuel IH]; intros st s (Hrange & Hatt & Hcur) Hfuel.
  - simpl in Hfuel. lia.
  - cbn [retry_loop]. unfold bind at 1. unfold retry_body.
    destruct (tries st + 1 >? 5)%Z eqn:Hgt.
    + apply Z.gtb_lt in Hgt. cbn [ret attempts tries current].
      destruct Hcur as (img & b & Hc & Hv); [lia|].
      exists img, b. split; [exact Hc|]. right.
      repeat split; try assumption; try lia.
    + assert (Hle : (tries st + 1 <= 5)%Z).
      { destruct (Z.gtb_spec (tries st + 1) 5); [discriminate | lia]. }
      unfold bind at 1.
      destruct (attempt cfg s) as [[[img b] s1]|e]; [|exact I].
      destruct (validate b) eqn:Hv.
      * cbn [ret attempts tries current]. exists img, b. split; [reflexivity|].
        left. repeat split; try assumption; try lia.
      * cbn [ret]. apply IH.
        -- unfold loop_invariant_failed. cbn [attempts tries current].
           repeat split; try lia. intros _. exists img, b. split; [reflexivity | exact Hv].
        -- cbn [tries]. lia.
Qed.

(** X5.  When the retry loop ends without an exception, the image and box
    it leaves are those of the last attempt, and either that box passed the
    validation test within the first five passes, or five attempts were
    made, the fifth box failed the test too and is kept all the same. *)
Theorem retry_loop_exit (cfg : config) (extra : nat) (s : RNG) :
  match retry_loop (6 + extra) cfg loop_init s with
  | Ok (Some st, _) =>
      exists (img : Image) (b : bbox),
        current st = Some (img, b)
        /\ ((validate b = true /\ (1 <= tries st <= 5)%Z
             /\ attempts st = Z.to_nat (tries st))
            \/ (validate b = false /\ tries st = 6%Z /\ attempts st = 5%nat))
  | Ok (None, _) => False
  | Err _ => True
  end.
Proof.
  apply retry_loop_exit_invariant.
  - unfold loop_invariant_failed, loop_init. cbn [attempts tries current].
    repeat split; try lia.
  - unfold loop_init. cbn [tries]. lia.
Qed.

Lemma process_index_step (cfg : config) (extra : nat) (i : Z) (w : world) (s : RNG) :
  match process_index (6 + extra) cfg i w s with
  | Ok (Some w', _) =>
      exists (img : Image) (b : bbox),
        saved_images w' = saved_images w ++ [(image_path cfg i, img, 92%Z)]
        /\ labels w' = save_yolo_label (label_path cfg i) b (cfg_img_size cfg) 0 (labels w)
  | Ok (None, _) => False
  | Err _ => True
  end.
Proof.
  unfold process_index, bind.
  pose proof (retry_loop_invariant cfg (6 + extra) loop_init s) as Hloop.
  destruct (retry_loop (6 + extra) cfg loop_init s) as [[[st|] s1]|e].
  - destruct Hloop as (_ & _ & Hcur).
    + unfold loop_invariant, loop_init. cbn [attempts tries current]. repeat split; lia.
    + unfold loop_init. cbn [tries]. lia.
    + destruct (current st) as [[img b]|]; [|contradiction].
      cbn [ret saved_images labels]. exists img, b. split; reflexivity.
  - apply Hloop.
    + unfold loop_invariant, loop_init. cbn [attempts tries current]. repeat split; lia.
    + unfold loop_init. cbn [tries]. lia.
  - exact I.
Qed.

Lemma label_entry_exact_weaken (cfg : config) (i : Z) (rest : list Z)
    (entry : string * label_line) :
  label_entry_exact cfg rest entry -> label_entry_exact cfg (i :: rest) entry.
Proof.
  unfold label_entry_exact. intros (Hc & Hu & Hs & j & Hj & Hp).
  split; [exact Hc|]. split; [exact Hu|]. split; [exact Hs|].
  exists j. split; [right; exact Hj | exact Hp].
Qed.

Lemma for_each_outputs (cfg : config) (extra : nat) (indices : list Z) :
  forall (w : world) (s : RNG),
    match for_each (6 + extra) cfg indices w s with
    | Ok (Some w', _) =>
        exists (imgs : list (string * Image * Z)) (lbls : label_log),
          saved_images w' = saved_images w ++ imgs
          /\ map (fun e => fst (fst e)) imgs = map (image_path cfg) indices
          /\ Forall (fun e => snd e = 92%Z) imgs
          /\ labels w' = labels w ++ lbls
          /\ (length lbls <= length indices)%nat
          /\ Forall (label_entry_exact cfg indices) lbls
    | Ok (None, _) => False
    | Err _ => True
    end.
Proof.
  induction indices as [|i rest IH]; intros w s.
  - cbn [for_each ret]. exists [], []. rewrite !app_nil_r.
    repeat split; try reflexivity; constructor.
  - cbn [for_each]. unfold bind at 1.
    pose proof (process_index_step cfg extra i w s) as Hstep.
    destruct (process_index (6 + extra) cfg i w s) as [[[w1|] s1]|e];
      [| contradiction | exact I].
    destruct Hstep as (img & b & Himg & Hlbl).
    specialize (IH w1 s1).
    destruct (for_each (6 + extra) cfg rest w1 s1) as [[[w2|] s2]|e];
      [| contradiction | exact I].
    destruct IH as (imgs & lbls & Hi & Hp & Hq & Hl & Hn & Hok).
    destruct (save_yolo_label_cases (label_path cfg i) b (cfg_img_size cfg) 0 (labels w))
      as [Hsame | (line & Hw & Hc & Hpos & Hu & _)].
    + exists ((image_path cfg i, img, 92%Z) :: imgs), lbls.
      rewrite Hi, Himg, <- app_assoc. cbn [app map fst snd length].
      rewrite Hp, Hl, Hlbl, Hsame.
      repeat split; try reflexivity.
      * constructor; [reflexivity | exact Hq].
      * lia.
      * eapply Forall_impl; [|exact Hok]. intro e. apply label_entry_exact_weaken.
    + exists ((image_path cfg i, img, 92%Z) :: imgs), ((label_path cfg i, line) :: lbls).
      rewrite Hi, Himg, <- app_assoc. cbn [app map fst snd length].
      rewrite Hp, Hl, Hlbl, Hw, <- app_assoc. cbn [app].
      repeat split; try reflexivity.
      * constructor; [reflexivity | exact Hq].
      * lia.
      * constructor.
        -- unfold label_entry_exact. cbn [fst snd]. repeat split; try assumption; try apply Hu.
           exists i. split; [left; reflexivity | reflexivity].
        -- eapply Forall_impl; [|exact Hok]. intro e. apply label_entry_exact_weaken.
Qed.

(** X6.  A run of [main] that ends without an exception has saved exactly
    one image per index 1..count, in order, under images/<name>.jpg with
    quality 92, and at most as many label lines as images; every label line
    has class 0, has its four fields written between 0.000000 and 1.000000
    and sits under labels/<name>.txt of one of the indices.  The retry loops
    never exhaust the fuel. *)
Theorem main_outputs `{Formatter} `{!FormatterLaws} (cfg : config) (extra : nat) (s : RNG) :
  match main (6 + extra) cfg s with
  | Ok (Some w, _) =>
      map (fun e => fst (fst e)) (saved_images w) = map (image_path cfg) (sample_indices cfg)
      /\ Forall (fun e => snd e = 92%Z) (saved_images w)
      /\ (length (labels w) <= length (saved_images w))%nat
      /\ Forall (label_entry_ok cfg (sample_indices cfg)) (labels w)
  | Ok (None, _) => False
  | Err _ => True
  end.
Proof.
  unfold main.
  destruct (minimaps cfg) as [|m ms]; [exact I|].
  destruct (champions cfg) as [|c cs]; [exact I|].
  pose proof (for_each_outputs cfg extra (sample_indices cfg) (World [] []) s) as Hrun.
  fold (sample_indices cfg).
  destruct (for_each (6 + extra) cfg (sample_indices cfg) (World [] []) s)
    as [[[w|] s1]|e]; [| contradiction | exact I].
  destruct Hrun as (imgs & lbls & Hi & Hp & Hq & Hl & Hn & Hok).
  cbn [saved_images labels app] in Hi, Hl. rewrite Hi, Hl.
  split; [exact Hp|]. split; [exact Hq|]. split.
  - apply (f_equal (@length string)) in Hp. rewrite !length_map in Hp. lia.
  - eapply Forall_impl; [|exact Hok].
    intros entry (Hc & Hu & Hpos & Hpath).
    split; [exact Hc|]. split; [apply written_fields_in_unit; exact Hu|].
    split; assumption.
Qed.

(** X7.  With a canvas size of zero or less a run of [main] writes no label
    at all: images are saved, every label is rejected. *)
Theorem main_no_labels_without_size (cfg : config) (extra : nat) (s : RNG) :
  (cfg_img_size cfg <= 0)%Z ->
  match main (6 + extra) cfg s with
  | Ok (Some w, _) =>
      labels w = [] /\ length (saved_images w) = Z.to_nat (count cfg)
  | Ok (None, _) => False
  | Err _ => True
  end.
Proof.
  intro Hs. unfold main.
  destruct (minimaps cfg) as [|m ms]; [exact I|].
  destruct (champions cfg) as [|c cs]; [exact I|].
  pose proof (for_each_outputs cfg extra (sample_indices cfg) (World [] []) s) as Hrun.
  fold (sample_indices cfg).
  destruct (for_each (6 + extra) cfg (sample_indices cfg) (World [] []) s)
    as [[[w|] s1]|e]; [| contradiction | exact I].
  destruct Hrun as (imgs & lbls & Hi & Hp & Hq & Hl & Hn & Hok).
  cbn [saved_images labels app] in Hi, Hl. rewrite Hi, Hl. split.
  - destruct lbls as [|entry lbls]; [reflexivity|].
    apply Forall_cons_iff in Hok. destruct Hok as [(_ & _ & Hpos & _) _]. lia.
  - apply (f_equal (@length string)) in Hp. rewrite !length_map in Hp.
    rewrite Hp. unfold sample_indices. now rewrite length_map, length_seq.
Qed.
End Outputs.

Lemma main_outputs_witness :
  match @main _ ScriptedRandom _ (SizedImages disk0) ExactLinAlg Binary64 (6 + 0)
          (cfg_of "champion.png" 320 (8 # 100) (2 # 10))
          [0; 0; 0; 0; 0; 0; 17; 40; half; half]%Z with
  | Ok (Some w, _) =>
      map (fun e => fst (fst e)) (saved_images w)
      = map (image_path (cfg_of "champion.png" 320 (8 # 100) (2 # 10)))
            (sample_indices (cfg_of "champion.png" 320 (8 # 100) (2 # 10)))
      /\ Forall (fun e => snd e = 92%Z) (saved_images w)
      /\ (length (labels w) <= length (saved_images w))%nat
      /\ Forall (@label_entry_ok HalfEven6 (cfg_of "champion.png" 320 (8 # 100) (2 # 10))
                   (sample_indices (cfg_of "champion.png" 320 (8 # 100) (2 # 10))))
                (labels w)
  | Ok (None, _) => False
  | Err _ => True
  end.
Proof.
  apply (@main_outputs _ ScriptedRandom _ (SizedImages disk0) ExactLinAlg Binary64
           HalfEven6 HalfEven6Laws (cfg_of "champion.png" 320 (8 # 100) (2 # 10)) 0
           [0; 0; 0; 0; 0; 0; 17; 40; half; half]%Z).
Defined.

(** That run: one image, and the label of the box (17, 40, 42, 65). *)
Example main_writes_label :
  match @main _ ScriptedRandom _ (SizedImages disk0) ExactLinAlg Binary64 6
          (cfg_of "champion.png" 320 (8 # 100) (2 # 10))
          [0; 0; 0; 0; 0; 0; 17; 40; half; half]%Z with
  | Ok (Some w, _) =>
      map (fun e => (fst e, label_text (@format_label HalfEven6 (snd e)))) (labels w)
      = [("out/labels/000001.txt"%string,
          ("0 0.092188 0.164062 0.078125 0.078125" ++ newline)%string)]
  | _ => False
  end.
Proof. vm_compute. reflexivity. Qed.

Lemma main_no_labels_without_size_witness :
  match @main _ ScriptedRandom _ (SizedImages disk0) ExactLinAlg Binary64 (6 + 0)
          (cfg_of "champion.png" 0 (8 # 100) (2 # 10)) [] with
  | Ok (Some w, _) =>
      labels w = [] /\ length (saved_images w) = Z.to_nat 1
  | Ok (None, _) => False
  | Err _ => True
  end.
Proof.
  apply (@main_no_labels_without_size _ ScriptedRandom _ (SizedImages disk0) ExactLinAlg Binary64
           (cfg_of "champion.png" 0 (8 # 100) (2 # 10)) 0 []).
  vm_compute. discriminate.
Defined.

Example main_without_size_runs :
  @main _ ScriptedRandom _ (SizedImages disk0) ExactLinAlg Binary64 6
    (cfg_of "champion.png" 0 (8 # 100) (2 # 10)) []
  = Ok (Some (World [("out/images/000001.jpg"%string,
                      Sized.Image "RGB" (512, 512)%Z, 92%Z)] []), []).
Proof. vm_compute. reflexivity. Qed.

(** ** More on the geometry solver *)

Lemma apply_homography_step_single (h : mat3) (x y : Q) :
  exists q : point,
    apply_homography_step h [] (x, y) = [q]
    /\ (snd (matvec h (x, y)) == 0 -> q = (x, y))
    /\ (~ snd (matvec h (x, y)) == 0 ->
        q = (fst (fst (matvec h (x, y))) / snd (matvec h (x, y)),
             snd (fst (matvec h (x, y))) / snd (matvec h (x, y)))).
Proof.
  unfold apply_homography_step.
  destruct (matvec h (x, y)) as [[tx ty] tz]. cbn [fst snd].
  destruct (Qeq_bool tz 0) eqn:E; eexists; (split; [reflexivity|]); split; intro Hz;
    try reflexivity.
  - apply Qeq_bool_iff in E. contradiction.
  - apply Qeq_bool_neq in E. contradiction.
Qed.

Lemma fold_min_le (l : list Q) : forall a : Q,
  fold_left Qmin l a <= a /\ Forall (fun x => fold_left Qmin l a <= x) l
  /\ In (fold_left Qmin l a) (a :: l).
Proof.
  induction l as [|x l IH]; intro a; cbn [fold_left].
  - split; [apply Qle_refl|]. split; [constructor | left; reflexivity].
  - destruct (IH (Qmin a x)) as (Hle & Hall & Hin). split; [|split].
    + eapply Qle_trans; [exact Hle | apply Q.le_min_l].
    + constructor; [|exact Hall].
      eapply Qle_trans; [exact Hle | apply Q.le_min_r].
    + destruct Hin as [Hin | Hin]; [|right; right; exact Hin].
      rewrite <- Hin. unfold Qmin, GenericMinMax.gmin.
      destruct (a ?= x); [left | left | right; left]; reflexivity.
Qed.

Lemma fold_max_ge (l : list Q) : forall a : Q,
  a <= fold_left Qmax l a /\ Forall (fun x => x <= fold_left Qmax l a) l
  /\ In (fold_left Qmax l a) (a :: l).
Proof.
  induction l as [|x l IH]; intro a; cbn [fold_left].
  - split; [apply Qle_refl|]. split; [constructor | left; reflexivity].
  - destruct (IH (Qmax a x)) as (Hle & Hall & Hin). split; [|split].
    + eapply Qle_trans; [apply Q.le_max_l | exact Hle].
    + constructor; [|exact Hall].
      eapply Qle_trans; [apply Q.le_max_r | exact Hle].
    + destruct Hin as [Hin | Hin]; [|right; right; exact Hin].
      rewrite <- Hin. unfold Qmax, GenericMinMax.gmax.
      destruct (a ?= x); [left | right; left | left]; reflexivity.
Qed.

Lemma enclosing_rect_nonempty (pts : list point) :
  pts <> [] ->
  exists x1 y1 x2 y2 : Q,
    enclosing_rect pts = Ok (x1, y1, x2, y2)
    /\ Forall (in_rect (x1, y1, x2, y2)) pts
    /\ In x1 (map fst pts) /\ In y1 (map snd pts)
    /\ In x2 (map fst pts) /\ In y2 (map snd pts).
Proof.
  destruct pts as [|p rest]; [intro Hne; contradiction|]. intros _.
  unfold enclosing_rect, py_min_list, py_max_list. cbn [map].
  destruct (fold_min_le (map fst rest) (fst p)) as (A1 & B1 & C1).
  destruct (fold_min_le (map snd rest) (snd p)) as (A2 & B2 & C2).
  destruct (fold_max_ge (map fst rest) (fst p)) as (A3 & B3 & C3).
  destruct (fold_max_ge (map snd rest) (snd p)) as (A4 & B4 & C4).
  do 4 eexists. split; [reflexivity|].
  split; [|repeat split; assumption].
  constructor; [repeat split; assumption|].
  rewrite Forall_forall in *. intros q Hq.
  unfold in_rect. repeat split.
  - apply B1. apply in_map. exact Hq.
  - apply B3. apply in_map. exact Hq.
  - apply B2. apply in_map. exact Hq.
  - apply B4. apply in_map. exact Hq.
Qed.

(** X10.  [enclosing_rect] fails exactly on the empty list.  On a non-empty
    list it returns a rectangle that contains every point, and each of its
    four sides is a coordinate of one of the points: it is the smallest
    axis-aligned rectangle around them. *)
Theorem enclosing_rect_encloses (pts : list point) :
  (enclosing_rect pts = Err EmptySequence <-> pts = [])
  /\ (pts <> [] ->
      exists x1 y1 x2 y2 : Q,
        enclosing_rect pts = Ok (x1, y1, x2, y2)
        /\ Forall (in_rect (x1, y1, x2, y2)) pts
        /\ In x1 (map fst pts) /\ In y1 (map snd pts)
        /\ In x2 (map fst pts) /\ In y2 (map snd pts)).
Proof.
  split; [|apply enclosing_rect_nonempty].
  destruct pts as [|p rest]; split; try reflexivity; discriminate.
Qed.

Lemma enclosing_rect_encloses_witness :
  exists x1 y1 x2 y2 : Q,
    enclosing_rect quad_dst = Ok (x1, y1, x2, y2)
    /\ Forall (in_rect (x1, y1, x2, y2)) quad_dst
    /\ In x1 (map fst quad_dst) /\ In y1 (map snd quad_dst)
    /\ In x2 (map fst quad_dst) /\ In y2 (map snd quad_dst).
Proof.
  apply (proj2 (enclosing_rect_encloses quad_dst)). discriminate.
Defined.



(** X12.  On the canvas corners mapped to themselves, with exact least
    squares, [solve_homography] returns the identity matrix. *)
Theorem solve_homography_identity `{LinAlg} (w h : Z) :
  w <> 0%Z -> h <> 0%Z ->
  lstsq_exact_on (canvas_corners w h) (canvas_corners w h) ->
  exists m : mat3,
    solve_homography (canvas_corners w h) (canvas_corners w h) = Ok m
    /\ mat3_eq m mat3_id.
Proof.
  intros Hw Hh Hex.
  unfold lstsq_exact_on, solve_homography in *. unfold canvas_corners in *.
  cbn [length Nat.eqb negb orb].
  destruct (build_system _ [] []) as [a b] eqn:Esys.
  destruct Hex as [Hlen Hsol].
  pose proof Esys as Esys'. rewrite build_system_four in Esys'.
  injection Esys' as Ea Eb. subst a b.
  cbn [hd length] in Hlen.
  destruct (lstsq _ _) as [|a1 [|a2 [|a3 [|a4 [|a5 [|a6 [|a7 [|a8 [|a9 l]]]]]]]]];
    try discriminate Hlen.
  cbn [app reshape3]. eexists. split; [reflexivity|].
  assert (HW : ~ inject_Z w == 0).
  { intro Hc. apply Hw. apply inject_Z_injective. exact Hc. }
  assert (HH : ~ inject_Z h == 0).
  { intro Hc. apply Hh. apply inject_Z_injective. exact Hc. }
  destruct (system_equations (inject_Z w) (inject_Z h)
              0 0 (inject_Z w) 0 (inject_Z w) (inject_Z h) 0 (inject_Z h)
              a1 a2 a3 a4 a5 a6 a7 a8)
    as ((E0 & F0) & (E1 & F1) & (E2 & F2) & (E3 & F3)).
  { rewrite build_system_four. exact Hsol. }
  set (W := inject_Z w) in *. set (Hq := inject_Z h) in *.
  assert (A2 : a2 == 0).
  { apply (Qmult_integral_l Hq); [exact HH | lra]. }
  assert (A4 : a4 == 0).
  { apply (Qmult_integral_l W); [exact HW | lra]. }
  assert (A8 : a8 == 0).
  { apply (Qmult_integral_l Hq); [exact HH|].
    apply (Qmult_integral_l W); [exact HW|]. nsatz. }
  assert (A7 : a7 == 0).
  { apply (Qmult_integral_l W); [exact HW|].
    apply (Qmult_integral_l Hq); [exact HH|]. nsatz. }
  assert (A1 : a1 == 1).
  { apply (Qmult_inj_l _ _ W HW). nsatz. }
  assert (A5 : a5 == 1).
  { apply (Qmult_inj_l _ _ Hq HH). nsatz. }
  unfold mat3_eq, mat3_id. cbn [h11 h12 h13 h21 h22 h23 h31 h32 h33].
  repeat split; try assumption; reflexivity.
Qed.

Lemma solve_homography_identity_witness :
  exists m : mat3,
    @solve_homography ExactLinAlg (canvas_corners 100 100) (canvas_corners 100 100) = Ok m
    /\ mat3_eq m mat3_id.
Proof.
  apply (@solve_homography_identity ExactLinAlg 100 100); try discriminate.
  unfold lstsq_exact_on.
  set (sys := build_system _ _ _). vm_compute in sys. subst sys. cbv beta iota.
  set (x := lstsq _ _). vm_compute in x. subst x.
  split; [reflexivity|]. unfold solves.
  repeat (apply Forall2_cons; [vm_compute; reflexivity|]). apply Forall2_nil.
Defined.

Section QuadBounds.
Context {RNG : Type} `{RandomSource RNG} `{!RandomLaws RNG}.

End QuadBounds.


Lemma random_quad_non_degenerate_witness : non_degenerate quad_drawn.
Proof.
  apply (@random_quad_non_degenerate _ ScriptedRandom ScriptedLaws 100 100
           quad_script [] (canvas_corners 100 100) quad_drawn).
  - lia.
  - lia.
  - vm_compute. reflexivity.
Defined.

(** ** More on the compositor *)

(** IEEE rounding keeps the promises of [Float64Laws]. *)
Lemma Qabs_nonneg_eq (x : Q) : 0 <= x -> Qabs x = x.
Proof.
  destruct x as [n d]. unfold Qle, Qabs. simpl. intro Hn.
  f_equal. apply Z.abs_eq. lia.
Qed.

Lemma ilog2_lower (x : Q) : 0 < x -> 2 ^ Binary.ilog2 x <= x.
Proof.
  intro Hx. unfold Binary.ilog2.
  set (k := (Z.log2 (Qnum x) - Z.log2 (Z.pos (Qden x)))%Z).
  destruct (Qle_bool (2 ^ k) x) eqn:E; [apply Qle_bool_iff; exact E|].
  destruct x as [n d]. cbn [Qnum Qden] in k.
  assert (Hn : (0 < n)%Z) by (unfold Qlt in Hx; simpl in Hx; lia).
  destruct (Z.log2_spec n Hn) as [HA _].
  destruct (Z.log2_spec (Z.pos d) eq_refl) as [_ HB].
  set (A := Z.log2 n) in *. set (B := Z.log2 (Z.pos d)) in *.
  assert (HA0 : (0 <= A)%Z) by apply Z.log2_nonneg.
  assert (HB0 : (0 <= B)%Z) by apply Z.log2_nonneg.
  replace (k - 1)%Z with (A + - Z.succ B)%Z by (unfold k; lia).
  rewrite Qpower_plus by discriminate. rewrite Qpower_opp.
  change 2 with (inject_Z 2).
  rewrite <- !Zpower_Qpower by lia.
  rewrite Qmake_Qdiv.
  assert (IA : inject_Z (2 ^ A) <= inject_Z n) by (rewrite <- Zle_Qle; exact HA).
  assert (IB : inject_Z (Z.pos d) < inject_Z (2 ^ Z.succ B)) by (rewrite <- Zlt_Qlt; exact HB).
  assert (ID : 0 < inject_Z (Z.pos d)) by reflexivity.
  assert (IA0 : 0 < inject_Z (2 ^ A)).
  { change 0 with (inject_Z 0). rewrite <- Zlt_Qlt. apply Z.pow_pos_nonneg; lia. }
  set (a := inject_Z (2 ^ A)) in *. set (b := inject_Z (2 ^ Z.succ B)) in *.
  set (nn := inject_Z n) in *. set (dd := inject_Z (Z.pos d)) in *.
  change (a * / b) with (a / b).
  apply Qle_shift_div_r; [lra|].
  assert (Hy : 0 < nn / dd) by (apply Qlt_shift_div_l; lra).
  assert (Ey : nn / dd * dd == nn) by (field; lra).
  set (y := nn / dd) in *.
  assert (P : 0 <= y * (b - dd)) by (apply Qmult_le_0_compat; lra).
  lra.
Qed.

Lemma round64_near (x : Q) :
  0 <= x -> x <= f64_range ->
  exists p : Q, Binary.round64 x = Finite p /\ 0 <= p
    /\ x - f64_eps * (x + 1) <= p /\ p <= x + f64_eps * (x + 1).
Proof.
  intros H0 Hr. unfold Binary.round64, Binary.round.
  destruct (Qeq_bool x 0) eqn:Ez.
  - apply Qeq_bool_iff in Ez. exists 0. split; [reflexivity|].
    unfold f64_eps. repeat split; lra.
  - apply Qeq_bool_neq in Ez. assert (Hx : 0 < x) by lra.
    rewrite (Qabs_nonneg_eq x H0).
    assert (Hneg : Qlt_bool x 0 = false).
    { unfold Qlt_bool. apply negb_false_iff. apply Qle_bool_iff. exact H0. }
    rewrite Hneg.
    set (e := Z.max (Binary.ilog2 x) (-1022)).
    set (sh := (53 - 1 - e)%Z).
    set (m := Binary.round_half_even (x * 2 ^ sh)).
    destruct (round_half_even_near (x * 2 ^ sh)) as [Mlo Mhi]. fold m in Mlo, Mhi.
    assert (HP : 0 < 2 ^ sh) by (apply Qpower_0_lt; reflexivity).
    assert (HPi : 0 < 2 ^ (- sh)) by (apply Qpower_0_lt; reflexivity).
    assert (HPP : 2 ^ sh * 2 ^ (- sh) == 1).
    { rewrite Qpower_opp. apply Qmult_inv_r. lra. }
    assert (HTe : 2 ^ e <= x + 1).
    { unfold e. destruct (Z.max_spec (Binary.ilog2 x) (-1022)) as [[_ ->] | [_ ->]].
      - assert (T : 2 ^ (-1022) <= 2 ^ 0) by (apply Qpower_le_compat_l; [lia | lra]).
        change (2 ^ 0) with 1 in T. lra.
      - pose proof (ilog2_lower x Hx). lra. }
    assert (HTe0 : 0 < 2 ^ e) by (apply Qpower_0_lt; reflexivity).
    assert (EPi : 2 ^ (- sh) == 2 ^ e * (1 # 4503599627370496)).
    { replace (- sh)%Z with (e + -52)%Z by (unfold sh; lia).
      rewrite Qpower_plus by discriminate. reflexivity. }
    set (r := Qred (inject_Z m * 2 ^ (- sh))).
    assert (Er : r == inject_Z m * 2 ^ (- sh)) by apply Qred_correct.
    set (P := 2 ^ sh) in *. set (Pi := 2 ^ (- sh)) in *. set (Te := 2 ^ e) in *.
    set (M := inject_Z m) in *.
    assert (L1 : (x * P - (1 # 2)) * Pi <= M * Pi) by (apply Qmult_le_compat_r; lra).
    assert (L2 : M * Pi <= (x * P + (1 # 2)) * Pi) by (apply Qmult_le_compat_r; lra).
    assert (E1 : (x * P - (1 # 2)) * Pi == x * (P * Pi) - (1 # 2) * Pi) by ring.
    assert (E2 : (x * P + (1 # 2)) * Pi == x * (P * Pi) + (1 # 2) * Pi) by ring.
    rewrite E1 in L1. rewrite E2 in L2. rewrite HPP in L1, L2.
    assert (Rlo : x - f64_eps * (x + 1) <= r) by (unfold f64_eps; lra).
    assert (Rhi : r <= x + f64_eps * (x + 1)) by (unfold f64_eps; lra).
    assert (R0 : 0 <= r).
    { assert (Hm : inject_Z (-1) < M).
      { change (inject_Z (-1)) with (-1).
        assert (0 <= x * P) by (apply Qmult_le_0_compat; lra). lra. }
      unfold M in Hm. rewrite <- Zlt_Qlt in Hm.
      assert (Hm0 : 0 <= M).
      { unfold M. change 0 with (inject_Z 0). rewrite <- Zle_Qle. lia. }
      rewrite Er. apply Qmult_le_0_compat; lra. }
    assert (Hbig : 2 * f64_range + 1 < 2 ^ (1023 + 1)) by (vm_compute; reflexivity).
    assert (Hov : Qle_bool (2 ^ (1023 + 1)) r = false).
    { destruct (Qle_bool (2 ^ (1023 + 1)) r) eqn:E; [|reflexivity].
      apply Qle_bool_iff in E. exfalso. unfold f64_eps, f64_range in *. lra. }
    rewrite Hov. exists r. repeat split; assumption.
Qed.

Lemma Binary64Laws : @Float64Laws Binary64.
Proof.
  split.
  - intros a b H0 Hr. cbn [f64_mul Binary64]. apply round64_near; assumption.
  - intros a b Ha Hb Hr. cbn [f64_div Binary64].
    assert (Eb : Qeq_bool b 0 = false).
    { destruct (Qeq_bool b 0) eqn:E; [|reflexivity]. apply Qeq_bool_iff in E. lra. }
    rewrite Eb. apply round64_near; [|exact Hr].
    apply Qle_shift_div_l; [exact Hb | lra].
Qed.

Lemma SizedLaws (d : Sized.disk) : @ImageLaws Sized.image (SizedImages d).
Proof.
  split; try reflexivity.
  intros i j a Hi Hj Hs. cbn in *. exists i.
  rewrite Hi, Hj, <- Hs, !Z.eqb_refl. repeat split.
Qed.

Lemma py_int_mono (x y : Q) : 0 <= x -> x <= y -> (py_int x <= py_int y)%Z.
Proof.
  intros Hx Hxy. rewrite (py_int_floor x Hx).
  rewrite (py_int_floor y) by (eapply Qle_trans; eassumption).
  apply Qfloor_resp_le. exact Hxy.
Qed.

Lemma py_int_nonneg (x : Q) : 0 <= x -> (0 <= py_int x)%Z.
Proof.
  intro Hx. rewrite (py_int_floor x Hx).
  change 0%Z with (Qfloor 0). apply Qfloor_resp_le. exact Hx.
Qed.

Lemma scaled_side_bounds `{Float64} `{!Float64Laws} (short long t : Z) :
  (0 < short)%Z -> (short <= long)%Z -> (long <= max_side)%Z ->
  (1 <= t <= max_side)%Z ->
  exists n : Z,
    scaled_side short t long = Ok n
    /\ (0 <= n <= t)%Z
    /\ inject_Z short * (inject_Z t / inject_Z long) - 1 - (1 # 1000) < inject_Z n
    /\ inject_Z n <= inject_Z short * (inject_Z t / inject_Z long) + (1 # 1000).
Proof.
  intros Hs Hsl Hl [Ht1 Ht2]. unfold max_side in *.
  assert (HS : 1 <= inject_Z short).
  { change 1 with (inject_Z 1). rewrite <- Zle_Qle. lia. }
  assert (HSL : inject_Z short <= inject_Z long) by (rewrite <- Zle_Qle; exact Hsl).
  assert (HL : inject_Z long <= 2147483647).
  { change 2147483647 with (inject_Z 2147483647). rewrite <- Zle_Qle. exact Hl. }
  assert (HT1 : 1 <= inject_Z t).
  { change 1 with (inject_Z 1). rewrite <- Zle_Qle. exact Ht1. }
  assert (HT2 : inject_Z t <= 2147483647).
  { change 2147483647 with (inject_Z 2147483647). rewrite <- Zle_Qle. exact Ht2. }
  set (S := inject_Z short) in *. set (L := inject_Z long) in *. set (T := inject_Z t) in *.
  assert (Hq : 0 < T / L) by (apply Qlt_shift_div_l; lra).
  assert (Eq : T / L * L == T) by (field; lra).
  unfold scaled_side. fold S L T.
  assert (Q1 : 0 <= (T / L) * (L - 1)) by (apply Qmult_le_0_compat; lra).
  assert (Q2 : 0 <= (T / L) * (L - S)) by (apply Qmult_le_0_compat; lra).
  destruct (f64_div_near T L ltac:(lra) ltac:(lra)) as (r & Er & Hr0 & Hrlo & Hrhi).
  { unfold f64_range. set (q := T / L) in *. lra. }
  rewrite Er.
  set (q := T / L) in *. unfold f64_eps in *.
  assert (P1 : 0 <= S * (r - (q - (1 # 1125899906842624) * (q + 1))))
    by (apply Qmult_le_0_compat; lra).
  assert (P2 : 0 <= S * (q + (1 # 1125899906842624) * (q + 1) - r))
    by (apply Qmult_le_0_compat; lra).
  assert (P3 : 0 <= S * r) by (apply Qmult_le_0_compat; lra).
  destruct (f64_mul_near S r P3) as (p & Ep & Hp0 & Hplo & Hphi).
  { unfold f64_range. lra. }
  rewrite Ep. cbn [py_int_f]. exists (py_int p). split; [reflexivity|].
  unfold f64_eps in *.
  destruct (py_int_bounds p Hp0) as [Hfl Hce].
  assert (Hnn : (0 <= py_int p)%Z) by (apply py_int_nonneg; exact Hp0).
  assert (Hup : inject_Z (py_int p) <= S * q + (1 # 1000)) by lra.
  assert (Hlo : S * q - 1 - (1 # 1000) < inject_Z (py_int p)) by lra.
  split; [|split; assumption].
  split; [exact Hnn|].
  assert (Hlt : inject_Z (py_int p) < inject_Z (t + 1)).
  { rewrite inject_Z_plus. change (inject_Z 1) with 1. fold T. lra. }
  rewrite <- Zlt_Qlt in Hlt. lia.
Qed.

Section Compositor.
Context {Image : Type} `{ImageLib Image} `{!ImageLaws Image}.
Context `{Float64} `{!Float64Laws}.

Lemma resize_keep_aspect_dims (img : Image) (w h target_long : Z) :
  image_size img = (w, h) -> (0 < w <= max_side)%Z -> (0 < h <= max_side)%Z ->
  (1 <= target_long <= max_side)%Z ->
  exists (img' : Image) (new_w new_h : Z),
    resize_keep_aspect img target_long = Ok img'
    /\ image_size img' = (new_w, new_h)
    /\ img_mode img' = img_mode img
    /\ Z.max new_w new_h = target_long
    /\ (1 <= Z.min new_w new_h)%Z
    /\ ((h <= w)%Z ->
        new_w = target_long
        /\ inject_Z h * (inject_Z target_long / inject_Z w) - 1 - (1 # 1000) < inject_Z new_h
        /\ inject_Z new_h < inject_Z h * (inject_Z target_long / inject_Z w) + 1)
    /\ ((w < h)%Z ->
        new_h = target_long
        /\ inject_Z w * (inject_Z target_long / inject_Z h) - 1 - (1 # 1000) < inject_Z new_w
        /\ inject_Z new_w < inject_Z w * (inject_Z target_long / inject_Z h) + 1).
Proof.
  intros Hsize [Hw Hw2] [Hh Hh2] [Ht Ht2]. unfold resize_keep_aspect. rewrite Hsize.
  assert (Ew : (w =? 0)%Z = false) by (apply Z.eqb_neq; lia).
  assert (Eh : (h =? 0)%Z = false) by (apply Z.eqb_neq; lia).
  rewrite Ew, Eh. cbn [orb].
  assert (Side : forall short long : Z,
             (0 < short)%Z -> (short <= long)%Z -> (long <= max_side)%Z ->
             exists n : Z,
               scaled_side short target_long long = Ok n
               /\ (1 <= Z.max 1 n <= target_long)%Z
               /\ inject_Z short * (inject_Z target_long / inject_Z long) - 1 - (1 # 1000)
                  < inject_Z (Z.max 1 n)
               /\ inject_Z (Z.max 1 n)
                  < inject_Z short * (inject_Z target_long / inject_Z long) + 1).
  { intros short long Hs Hsl Hl.
    destruct (scaled_side_bounds short long target_long Hs Hsl Hl (conj Ht Ht2))
      as (n & En & Hn & Hlo & Hhi).
    exists n. split; [exact En|]. split; [lia|].
    assert (Hpos : 0 < inject_Z short * (inject_Z target_long / inject_Z long)).
    { apply Qmult_lt_0_compat.
      - change 0 with (inject_Z 0). rewrite <- Zlt_Qlt. exact Hs.
      - apply Qlt_shift_div_l.
        + change 0 with (inject_Z 0). rewrite <- Zlt_Qlt. lia.
        + change (0 * inject_Z long) with 0.
          change 0 with (inject_Z 0). rewrite <- Zlt_Qlt. lia. }
    destruct (Z.max_spec 1 n) as [[Hlt ->] | [Hge ->]].
    - split; lra.
    - assert (Hq1 : inject_Z n <= inject_Z 1) by (rewrite <- Zle_Qle; lia).
      change (inject_Z 1) with 1 in *. split; lra. }
  destruct (w >=? h)%Z eqn:Ege.
  - assert (Hhw : (h <= w)%Z) by (apply Z.geb_le in Ege; lia).
    destruct (Side h w Hh Hhw Hw2) as (n & En & Hn & Hlo & Hhi).
    rewrite En. do 3 eexists. split; [reflexivity|].
    rewrite size_resize, mode_resize. split; [reflexivity|]. split; [reflexivity|].
    rewrite (Z.max_r 1 target_long) by lia.
    repeat split; try lia; try assumption.
  - assert (Hwh : (w < h)%Z).
    { destruct (Z.geb_spec w h); [discriminate | lia]. }
    destruct (Side w h Hw ltac:(lia) Hh2) as (n & En & Hn & Hlo & Hhi).
    rewrite En. do 3 eexists. split; [reflexivity|].
    rewrite size_resize, mode_resize. split; [reflexivity|]. split; [reflexivity|].
    rewrite (Z.max_r 1 target_long) by lia.
    repeat split; try lia; try assumption.
Qed.

(** X15.  [resize_keep_aspect] leaves an image with a zero side as it is.
    Otherwise, for sides and a target between 1 and the largest side an
    image can have, it does not raise; the longer side of the result is the
    target exactly and the other side is at least 1, at most the target and
    within one pixel of the proportional value, up to the rounding of the
    double product (here a thousandth of a pixel). *)
Theorem resize_keep_aspect_size (img : Image) (w h target_long : Z) :
  image_size img = (w, h) ->
  ((w = 0 \/ h = 0)%Z -> resize_keep_aspect img target_long = Ok img)
  /\ ((0 < w <= max_side)%Z -> (0 < h <= max_side)%Z ->
      (1 <= target_long <= max_side)%Z ->
      exists (img' : Image) (new_w new_h : Z),
        resize_keep_aspect img target_long = Ok img'
        /\ image_size img' = (new_w, new_h)
        /\ Z.max new_w new_h = target_long
        /\ (1 <= Z.min new_w new_h)%Z
        /\ ((h <= w)%Z ->
            new_w = target_long
            /\ inject_Z h * (inject_Z target_long / inject_Z w) - 1 - (1 # 1000)
               < inject_Z new_h
            /\ inject_Z new_h < inject_Z h * (inject_Z target_long / inject_Z w) + 1)
        /\ ((w < h)%Z ->
            new_h = target_long
            /\ inject_Z w * (inject_Z target_long / inject_Z h) - 1 - (1 # 1000)
               < inject_Z new_w
            /\ inject_Z new_w < inject_Z w * (inject_Z target_long / inject_Z h) + 1)).
Proof.
  intro Hsize. split.
  - unfold resize_keep_aspect. rewrite Hsize.
    intros [-> | ->]; [reflexivity|].
    rewrite Z.eqb_refl, orb_true_r. reflexivity.
  - intros Hw Hh Ht.
    destruct (resize_keep_aspect_dims img w h target_long Hsize Hw Hh Ht)
      as (img' & nw & nh & E & Hs & _ & Hrest).
    exists img', nw, nh. split; [exact E|]. split; [exact Hs | exact Hrest].
Qed.
End Compositor.

Lemma resize_keep_aspect_size_witness :
  exists (img' : Sized.image) (new_w new_h : Z),
    @resize_keep_aspect _ (SizedImages disk0) Binary64 (Sized.Image "RGBA" (200, 2)%Z) 25
    = Ok img'
    /\ @image_size _ (SizedImages disk0) img' = (new_w, new_h)
    /\ Z.max new_w new_h = 25%Z
    /\ (1 <= Z.min new_w new_h)%Z
    /\ ((2 <= 200)%Z ->
        new_w = 25%Z
        /\ inject_Z 2 * (inject_Z 25 / inject_Z 200) - 1 - (1 # 1000) < inject_Z new_h
        /\ inject_Z new_h < inject_Z 2 * (inject_Z 25 / inject_Z 200) + 1)
    /\ ((200 < 2)%Z ->
        new_h = 25%Z
        /\ inject_Z 200 * (inject_Z 25 / inject_Z 2) - 1 - (1 # 1000) < inject_Z new_w
        /\ inject_Z new_w < inject_Z 200 * (inject_Z 25 / inject_Z 2) + 1).
Proof.
  apply (proj2 (@resize_keep_aspect_size _ (SizedImages disk0) (SizedLaws disk0)
                  Binary64 Binary64Laws
                  (Sized.Image "RGBA" (200, 2)%Z) 200 2 25 eq_refl)); unfold max_side; lia.
Defined.

(** A square image of 49 pixels resized to a long side of 8: the double
    product 49 * (8 / 49) is 7.999999999999999, so the other side is 7. *)
Example resize_keep_aspect_square :
  @resize_keep_aspect _ (SizedImages disk0) Binary64 (Sized.Image "RGBA" (49, 49)%Z) 8
  = Ok (Sized.Image "RGBA" (8, 7)%Z)
  /\ py_int (inject_Z 49 * (inject_Z 8 / inject_Z 49)) = 8%Z.
Proof. split; vm_compute; reflexivity. Qed.

Lemma bind_ok_inv {S A B : Type} (m : M S A) (k : A -> M S B) (s : S) (r : B * S) :
  bind m k s = Ok r -> exists (a : A) (s1 : S), m s = Ok (a, s1) /\ k a s1 = Ok r.
Proof.
  unfold bind. destruct (m s) as [[a s1]|e]; [|discriminate].
  intro Hk. now exists a, s1.
Qed.

Lemma lift_ok_inv {S A : Type} (r : result A) (s : S) (a : A) (s' : S) :
  lift r s = Ok (a, s') -> r = Ok a /\ s' = s.
Proof.
  unfold lift. destruct r as [a0|e]; [|discriminate].
  intro E. injection E as -> ->. now split.
Qed.

Section Stages.
Context {RNG : Type} `{RandomSource RNG} `{!RandomLaws RNG}.
Context {Image : Type} `{ImageLib Image} `{!ImageLaws Image}.

Lemma uniform_run (a b : Q) (s : RNG) :
  exists (r : Q) (s' : RNG), uniform a b s = Ok (a + (b - a) * r, s') /\ 0 <= r /\ r < 1.
Proof.
  unfold uniform. pose proof (random_unit s) as Hr.
  destruct (random s) as [r s']. cbn [fst] in Hr. now exists r, s'.
Qed.

Lemma randint_total (a b : Z) (s : RNG) :
  (a <= b)%Z ->
  exists (x : Z) (s' : RNG), randint a b s = Ok (x, s') /\ (a <= x <= b)%Z.
Proof.
  intro Hab. unfold randint.
  destruct (b <? a)%Z eqn:E; [apply Z.ltb_lt in E; lia|].
  pose proof (randbelow_range (b - a + 1) s ltac:(lia)) as Hr.
  destruct (randbelow (b - a + 1) s) as [k s1]. cbn [fst] in Hr.
  exists (a + k)%Z, s1. split; [reflexivity | lia].
Qed.

(** The pattern of [add_moire] is an RGB image of the size of [img]: the
    blend succeeds when [img] is RGB too. *)
Lemma moire_blend (img : Image) (w h : Z) (freq angle alpha : Q) :
  image_size img = (w, h) -> (0 < w)%Z -> (0 < h)%Z -> img_mode img = "RGB"%string ->
  exists img' : Image,
    img_blend img (moire_pattern (w, h) freq angle) alpha = Ok img'
    /\ image_size img' = (w, h) /\ img_mode img' = "RGB"%string.
Proof.
  intros Hsize Hw Hh Hrgb.
  pose proof (size_moire w h freq angle Hw Hh) as Hps.
  pose proof (mode_moire w h freq angle Hw Hh) as Hpm.
  destruct (blend_rgb img (moire_pattern (w, h) freq angle) alpha Hrgb Hpm)
    as (k & E & Hks & Hkm); [congruence|].
  exists k. split; [exact E|]. split; congruence.
Qed.

Lemma add_moire_run (img : Image) (w h : Z) (strength : Q) (s : RNG) :
  image_size img = (w, h) -> (0 < w)%Z -> (0 < h)%Z -> img_mode img = "RGB"%string ->
  exists (img' : Image) (s' : RNG),
    add_moire img strength s = Ok (img', s')
    /\ image_size img' = (w, h) /\ img_mode img' = "RGB"%string.
Proof.
  intros Hsize Hw Hh Hrgb. unfold add_moire. rewrite Hsize.
  destruct (uniform_run 8 16 s) as (r1 & s1 & E1 & _).
  destruct (uniform_run 0 math_pi s1) as (r2 & s2 & E2 & _).
  erewrite bind_ok by exact E1. erewrite bind_ok by exact E2.
  destruct (moire_blend img w h (8 + (16 - 8) * r1) (0 + (math_pi - 0) * r2)
              (clamp strength 0 (3 # 10)) Hsize Hw Hh Hrgb)
    as (img' & E & Hs' & Hm').
  exists img', s2. unfold lift. rewrite E. split; [reflexivity|]. split; assumption.
Qed.

Lemma fraction_range (n : Z) (a b : Q) :
  (0 <= n)%Z -> 0 <= a -> a <= b ->
  (0 <= py_int (inject_Z n * a) <= py_int (inject_Z n * b))%Z.
Proof.
  intros Hn Ha Hab.
  assert (HN : 0 <= inject_Z n) by (change 0 with (inject_Z 0); rewrite <- Zle_Qle; exact Hn).
  assert (Hna : 0 <= inject_Z n * a) by (apply Qmult_le_0_compat; assumption).
  split; [apply py_int_nonneg; exact Hna|].
  apply py_int_mono; [exact Hna|]. nra.
Qed.

Lemma add_glare_run (img : Image) (w h : Z) (strength : Q) (s : RNG) :
  image_size img = (w, h) -> (0 <= w)%Z -> (0 <= h)%Z ->
  exists (img' : Image) (s' : RNG),
    add_glare img strength s = Ok (img', s')
    /\ image_size img' = (w, h) /\ img_mode img' = "RGB"%string.
Proof.
  intros Hsize Hw Hh. unfold add_glare. rewrite Hsize.
  destruct (randint_total _ _ s
              (proj2 (fraction_range w (1 # 10) (9 # 10) Hw ltac:(lra) ltac:(lra))))
    as (cx & s1 & E1 & _).
  destruct (randint_total _ _ s1
              (proj2 (fraction_range h (1 # 10) (9 # 10) Hh ltac:(lra) ltac:(lra))))
    as (cy & s2 & E2 & _).
  destruct (randint_total _ _ s2
              (proj2 (fraction_range (Z.min w h) (15 # 100) (35 # 100) ltac:(lia)
                        ltac:(lra) ltac:(lra))))
    as (radius & s3 & E3 & _).
  erewrite bind_ok by exact E1. erewrite bind_ok by exact E2.
  erewrite bind_ok by exact E3.
  do 2 eexists. split; [reflexivity|].
  rewrite size_convert, size_alpha_composite, size_convert, mode_convert.
  split; [exact Hsize | reflexivity].
Qed.

Lemma jitter_run (img : Image) (lo hi : Q) (f : Image -> Q -> Image) (r : Q) (s : RNG) :
  (forall i x, image_size (f i x) = image_size i) ->
  (forall i x, img_mode (f i x) = img_mode i) ->
  exists (img' : Image) (s' : RNG),
    (if Qlt_bool r (1 # 2)
     then bind (uniform lo hi) (fun x => ret (f img x))
     else ret img) s = Ok (img', s')
    /\ image_size img' = image_size img /\ img_mode img' = img_mode img.
Proof.
  intros Hsize Hmode. destruct (Qlt_bool r (1 # 2)).
  - destruct (uniform_run lo hi s) as (x & s2 & E & _).
    erewrite bind_ok by exact E.
    do 2 eexists. split; [reflexivity|]. split; [apply Hsize | apply Hmode].
  - do 2 eexists. split; [reflexivity|]. split; reflexivity.
Qed.

(** The photometric stages never raise on an RGB image of positive size;
    they keep its size and its mode. *)
Lemma photometric_stages_run (img : Image) (w h : Z) (mf gf : bool) (s : RNG) :
  image_size img = (w, h) -> (0 < w)%Z -> (0 < h)%Z -> img_mode img = "RGB"%string ->
  exists (img' : Image) (s' : RNG),
    photometric_stages img mf gf s = Ok (img', s')
    /\ image_size img' = (w, h)
    /\ img_mode img' = "RGB"%string.
Proof.
  intros Hsize Hw Hh Hrgb. unfold photometric_stages.
  assert (S1 : exists i1 s1,
             (if mf then bind (uniform (5 # 100) (12 # 100)) (fun x => add_moire img x)
              else ret img) s = Ok (i1, s1)
             /\ image_size i1 = (w, h) /\ img_mode i1 = "RGB"%string).
  { destruct mf.
    - destruct (uniform_run (5 # 100) (12 # 100) s) as (x & s0 & E & _).
      destruct (add_moire_run img w h ((5 # 100) + ((12 # 100) - (5 # 100)) * x) s0
                  Hsize Hw Hh Hrgb)
        as (i1 & s1 & E1 & Hs1 & Hm1).
      exists i1, s1. erewrite bind_ok by exact E.
      split; [exact E1|]. split; [exact Hs1 | exact Hm1].
    - exists img, s. split; [reflexivity|]. split; [exact Hsize | exact Hrgb]. }
  destruct S1 as (i1 & s1 & E1 & Hs1 & Hm1).
  erewrite bind_ok by exact E1.
  assert (S2 : exists i2 s2,
             (if gf then bind (uniform (2 # 10) (5 # 10)) (fun x => add_glare i1 x)
              else ret i1) s1 = Ok (i2, s2)
             /\ image_size i2 = (w, h)
             /\ (img_mode i1 = "RGB"%string -> img_mode i2 = "RGB"%string)).
  { destruct gf.
    - destruct (uniform_run (2 # 10) (5 # 10) s1) as (x & s0 & E & _).
      destruct (add_glare_run i1 w h ((2 # 10) + ((5 # 10) - (2 # 10)) * x) s0 Hs1
                  ltac:(lia) ltac:(lia))
        as (i2 & s2 & E2 & Hs2 & Hm2).
      exists i2, s2. erewrite bind_ok by exact E.
      split; [exact E2|]. split; [exact Hs2 | intros _; exact Hm2].
    - exists i1, s1. split; [reflexivity|]. split; [exact Hs1 | tauto]. }
  destruct S2 as (i2 & s2 & E2 & Hs2 & Hm2).
  erewrite bind_ok by exact E2.
  unfold bind at 1. unfold draw_random. destruct (random s2) as [r3 s3].
  destruct (jitter_run i2 (85 # 100) (115 # 100) img_brightness r3 s3
              size_brightness mode_brightness) as (i3 & s4 & E3 & Hs3 & Hm3).
  erewrite bind_ok by exact E3.
  unfold bind at 1. destruct (random s4) as [r4 s5].
  destruct (jitter_run i3 (9 # 10) (12 # 10) img_contrast r4 s5
              size_contrast mode_contrast) as (i4 & s6 & E4 & Hs4 & Hm4).
  erewrite bind_ok by exact E4.
  exists i4, s6. split; [reflexivity|].
  split; [congruence|]. rewrite Hm4, Hm3. apply Hm2. exact Hm1.
Qed.
End Stages.

Section Inside.
Context {RNG : Type} `{RandomSource RNG} `{!RandomLaws RNG}.
Context {Image : Type} `{ImageLib Image} `{!ImageLaws Image}.
Context `{LinAlg}.
Context `{Float64} `{!Float64Laws}.

Lemma pil_to_rgb_mode (img : Image) : img_mode (pil_to_rgb img) = "RGB"%string.
Proof.
  unfold pil_to_rgb. destruct (String.eqb_spec (img_mode img) "RGB") as [E | E].
  - exact E.
  - apply mode_convert.
Qed.

(** A scale drawn between two bounds that leave one pixel of the canvas. *)
Lemma scale_leaves_pixel (size lo hi r : Q) :
  0 <= lo -> 0 <= hi -> size * lo <= size - 1 -> size * hi <= size - 1 ->
  0 <= r -> r < 1 ->
  0 <= lo + (hi - lo) * r /\ size * (lo + (hi - lo) * r) <= size - 1.
Proof.
  intros Hlo Hhi Plo Phi Hr0 Hr1.
  assert (A : 0 <= (1 - r) * lo) by (apply Qmult_le_0_compat; lra).
  assert (B : 0 <= r * hi) by (apply Qmult_le_0_compat; lra).
  assert (C : 0 <= (1 - r) * (size - 1 - size * lo)) by (apply Qmult_le_0_compat; lra).
  assert (D : 0 <= r * (size - 1 - size * hi)) by (apply Qmult_le_0_compat; lra).
  split; lra.
Qed.

Lemma resize_target_below (size : Z) (scale : Q) :
  (9 <= size <= max_side)%Z -> 0 <= scale ->
  inject_Z size * scale <= inject_Z size - 1 ->
  exists t : Z, resize_target size size scale = Ok t /\ (8 <= t <= size - 1)%Z.
Proof.
  intros [Hs Hs2] Hsc Hp. unfold resize_target. rewrite Z.min_id. unfold max_side in Hs2.
  assert (HS : 9 <= inject_Z size).
  { change 9 with (inject_Z 9). rewrite <- Zle_Qle. exact Hs. }
  assert (HS2 : inject_Z size <= 2147483647).
  { change 2147483647 with (inject_Z 2147483647). rewrite <- Zle_Qle. exact Hs2. }
  assert (P0 : 0 <= inject_Z size * scale) by (apply Qmult_le_0_compat; lra).
  destruct (f64_mul_near (inject_Z size) scale P0) as (p & Ep & Hp0 & Hplo & Hphi).
  { unfold f64_range. lra. }
  rewrite Ep. cbn [py_int_f]. eexists. split; [reflexivity|].
  unfold f64_eps in *.
  destruct (py_int_bounds p Hp0) as [Hfl _].
  assert (Hq : inject_Z (py_int p) < inject_Z size) by lra.
  rewrite <- Zlt_Qlt in Hq. lia.
Qed.

Lemma generate_one_run (minimap_path champion_path : string) (img_size : Z)
    (lo hi : Q) (apply_moire_flag apply_glare_flag : bool)
    (bg0 fg0 : Image) (w0 h0 : Z) (s : RNG) :
  (9 <= img_size <= max_side)%Z ->
  0 <= lo -> 0 <= hi ->
  inject_Z img_size * lo <= inject_Z img_size - 1 ->
  inject_Z img_size * hi <= inject_Z img_size - 1 ->
  img_open minimap_path = Ok bg0 ->
  img_open champion_path = Ok fg0 ->
  image_size fg0 = (w0, h0) -> (0 < w0 <= max_side)%Z -> (0 < h0 <= max_side)%Z ->
  exists (img : Image) (x y fw fh : Z) (s' : RNG),
    generate_one minimap_path champion_path img_size (lo, hi)
                 false apply_moire_flag apply_glare_flag s
    = Ok ((img, (inject_Z x, inject_Z y, inject_Z (x + fw), inject_Z (y + fh))), s')
    /\ (0 <= x /\ x + fw <= img_size)%Z
    /\ (0 <= y /\ y + fh <= img_size)%Z
    /\ (1 <= fw)%Z /\ (1 <= fh)%Z /\ (8 <= Z.max fw fh)%Z
    /\ image_size img = (img_size, img_size)
    /\ img_mode img = "RGB"%string.
Proof.
  intros Hs Hlo Hhi Plo Phi Hbg Hfg Hfsize Hw0 Hh0.
  unfold generate_one.
  erewrite bind_lift_ok by exact Hbg. cbv zeta.
  assert (Hgt : (img_size >? 0)%Z = true) by (apply Z.gtb_lt; lia).
  rewrite Hgt.
  set (bg1 := img_resize (pil_to_rgb bg0) (img_size, img_size)).
  assert (Hbsize : image_size bg1 = (img_size, img_size)) by apply size_resize.
  assert (Hbmode : img_mode bg1 = "RGB"%string).
  { unfold bg1. rewrite mode_resize. apply pil_to_rgb_mode. }
  rewrite Hbsize.
  erewrite bind_lift_ok by exact Hfg.
  set (fg1 := if String.eqb (img_mode fg0) "RGBA" then fg0 else img_convert fg0 "RGBA").
  assert (Hf1 : image_size fg1 = (w0, h0)).
  { unfold fg1. destruct (String.eqb (img_mode fg0) "RGBA");
      [exact Hfsize | rewrite size_convert; exact Hfsize]. }
  destruct (uniform_run lo hi s) as (r & s1 & Eu & Hr0 & Hr1).
  erewrite bind_ok by exact Eu. cbv beta. cbn [fst snd].
  destruct (scale_leaves_pixel (inject_Z img_size) lo hi r Hlo Hhi Plo Phi Hr0 Hr1)
    as [Hsc0 Hsc1].
  destruct (resize_target_below img_size _ Hs Hsc0 Hsc1) as (target & Et & Ht8 & Htle).
  erewrite bind_lift_ok by exact Et.
  destruct (resize_keep_aspect_dims fg1 w0 h0 target Hf1 Hw0 Hh0 ltac:(lia))
    as (fg2 & fw & fh & Efg & Esz & _ & Hmax & Hmin & _).
  erewrite bind_lift_ok by exact Efg.
  rewrite Esz.
  assert (Hmx : max_offset img_size fw = (img_size - fw)%Z) by (unfold max_offset; lia).
  assert (Hmy : max_offset img_size fh = (img_size - fh)%Z) by (unfold max_offset; lia).
  rewrite Hmx, Hmy.
  destruct (randint_total 0 (img_size - fw) s1 ltac:(lia)) as (x & s2 & Ex & Hx).
  destruct (randint_total 0 (img_size - fh) s2 ltac:(lia)) as (y & s3 & Ey & Hy).
  erewrite bind_ok by exact Ex. erewrite bind_ok by exact Ey. cbv beta.
  set (bg2 := alpha_paste bg1 fg2 (x, y)).
  assert (Hb2size : image_size bg2 = (img_size, img_size)).
  { unfold bg2, alpha_paste. rewrite size_paste. exact Hbsize. }
  assert (Hb2mode : img_mode bg2 = "RGB"%string).
  { unfold bg2, alpha_paste. rewrite mode_paste. exact Hbmode. }
  destruct (photometric_stages_run bg2 img_size img_size apply_moire_flag apply_glare_flag
              s3 Hb2size ltac:(lia) ltac:(lia) Hb2mode)
    as (img & s4 & Eph & Hisize & Himode).
  unfold augment_image.
  erewrite bind_ok by reflexivity. cbv beta iota.
  erewrite bind_ok by exact Eph.
  exists img, x, y, fw, fh, s4. split; [reflexivity|].
  repeat split; try lia; try assumption.
Qed.

(** X16.  Without perspective, for a canvas of at least 9 pixels, scale
    bounds that are not negative and leave one pixel of the canvas
    (img_size * bound <= img_size - 1), and two readable assets of which the
    foreground has no zero side, [generate_one] never raises.  The box it
    returns is the placed rectangle, with integer corners, inside the
    canvas, at least one pixel wide and high and with a longer side of at
    least 8 pixels; the image it returns is RGB and has the canvas size.
    Sides are at most [max_side], the largest the image library holds. *)
Theorem generate_one_box_inside (minimap_path champion_path : string) (img_size : Z)
    (lo hi : Q) (apply_moire_flag apply_glare_flag : bool)
    (bg0 fg0 : Image) (w0 h0 : Z) (s : RNG) :
  (9 <= img_size <= max_side)%Z ->
  0 <= lo -> 0 <= hi ->
  inject_Z img_size * lo <= inject_Z img_size - 1 ->
  inject_Z img_size * hi <= inject_Z img_size - 1 ->
  img_open minimap_path = Ok bg0 ->
  img_open champion_path = Ok fg0 ->
  image_size fg0 = (w0, h0) -> (0 < w0 <= max_side)%Z -> (0 < h0 <= max_side)%Z ->
  exists (img : Image) (x y fw fh : Z) (s' : RNG),
    generate_one minimap_path champion_path img_size (lo, hi)
                 false apply_moire_flag apply_glare_flag s
    = Ok ((img, (inject_Z x, inject_Z y, inject_Z (x + fw), inject_Z (y + fh))), s')
    /\ (0 <= x /\ x + fw <= img_size)%Z
    /\ (0 <= y /\ y + fh <= img_size)%Z
    /\ (1 <= fw)%Z /\ (1 <= fh)%Z /\ (8 <= Z.max fw fh)%Z
    /\ image_size img = (img_size, img_size)
    /\ img_mode img = "RGB"%string.
Proof. exact (generate_one_run minimap_path champion_path img_size lo hi
               apply_moire_flag apply_glare_flag bg0 fg0 w0 h0 s). Qed.
End Inside.

Lemma generate_one_box_inside_witness :
  exists (img : Sized.image) (x y fw fh : Z) (s' : Scripted.rng),
    @generate_one _ ScriptedRandom _ (SizedImages disk0) ExactLinAlg Binary64
      "minimap.png" "champion.png" 320 (8 # 100, 2 # 10) false true true
      [0; 17; 40; half; half]%Z
    = Ok ((img, (inject_Z x, inject_Z y, inject_Z (x + fw), inject_Z (y + fh))), s')
    /\ (0 <= x /\ x + fw <= 320)%Z
    /\ (0 <= y /\ y + fh <= 320)%Z
    /\ (1 <= fw)%Z /\ (1 <= fh)%Z /\ (8 <= Z.max fw fh)%Z
    /\ @image_size _ (SizedImages disk0) img = (320, 320)%Z
    /\ @img_mode _ (SizedImages disk0) img = "RGB"%string.
Proof.
  apply (@generate_one_box_inside _ ScriptedRandom ScriptedLaws _ (SizedImages disk0)
           (SizedLaws disk0) ExactLinAlg Binary64 Binary64Laws
           "minimap.png" "champion.png" 320
           (8 # 100) (2 # 10) true true
           (Sized.Image "RGB" (512, 512)%Z) (Sized.Image "RGBA" (120, 120)%Z) 120 120);
    try reflexivity; try (unfold max_side; lia); try (vm_compute; discriminate).
Defined.

Section Sized.
Context {RNG : Type} `{RandomSource RNG} `{!RandomLaws RNG}.
Context {Image : Type} `{ImageLib Image} `{!ImageLaws Image}.
Context `{LinAlg}.
Context `{Float64}.

Lemma perspective_stage_image (img img' : Image) (b b' : bbox) (s s' : RNG) :
  perspective_stage img b s = Ok ((img', b'), s') ->
  image_size img' = image_size img /\ img_mode img' = img_mode img.
Proof.
  unfold perspective_stage. destruct (image_size img) as [w h] eqn:E.
  intro Hrun.
  apply bind_ok_inv in Hrun as ([src dst] & s1 & _ & Hrun). cbv beta iota in Hrun.
  apply bind_ok_inv in Hrun as (coeffs & s2 & _ & Hrun).
  apply bind_ok_inv in Hrun as (hm & s3 & _ & Hrun).
  apply bind_ok_inv in Hrun as (b1 & s4 & _ & Hrun).
  unfold ret in Hrun. injection Hrun as <- <- <-.
  rewrite size_perspective, mode_perspective. split; reflexivity.
Qed.

Lemma augment_image_image (img img' : Image) (b b' : bbox) (w h : Z)
    (pf mf gf : bool) (s s' : RNG) :
  image_size img = (w, h) -> (0 < w)%Z -> (0 < h)%Z -> img_mode img = "RGB"%string ->
  augment_image img b pf mf gf s = Ok ((img', b'), s') ->
  image_size img' = (w, h) /\ img_mode img' = "RGB"%string.
Proof.
  intros Hsize Hw Hh Hmode Hrun. unfold augment_image in Hrun.
  apply bind_ok_inv in Hrun as ([img1 b1] & s1 & Hstage & Hrun). cbv beta iota in Hrun.
  apply bind_ok_inv in Hrun as (img2 & s2 & Hph & Hrun).
  unfold ret in Hrun. injection Hrun as <- <- <-.
  assert (Hst : image_size img1 = (w, h) /\ img_mode img1 = "RGB"%string).
  { destruct pf.
    - apply perspective_stage_image in Hstage. destruct Hstage as [-> ->]. now split.
    - unfold ret in Hstage. injection Hstage as <- <- <-. now split. }
  destruct Hst as [Hs1 Hm1].
  destruct (photometric_stages_run img1 w h mf gf s1 Hs1 Hw Hh Hm1)
    as (img3 & s3 & Eph & Hs3 & Hm3).
  rewrite Eph in Hph. injection Hph as <- <-.
  split; [exact Hs3 | exact Hm3].
Qed.

Lemma generate_one_sized (minimap_path champion_path : string) (img_size : Z)
    (scale_range : Q * Q) (pf mf gf : bool) (img : Image) (b : bbox) (s s' : RNG) :
  (0 < img_size)%Z ->
  generate_one minimap_path champion_path img_size scale_range pf mf gf s
  = Ok ((img, b), s') ->
  image_size img = (img_size, img_size) /\ img_mode img = "RGB"%string.
Proof.
  intros Hs Hrun. unfold generate_one in Hrun.
  apply bind_ok_inv in Hrun as (bg0 & s0 & _ & Hrun). cbv zeta in Hrun.
  assert (Hgt : (img_size >? 0)%Z = true) by (apply Z.gtb_lt; lia).
  rewrite Hgt in Hrun.
  set (bg1 := img_resize (pil_to_rgb bg0) (img_size, img_size)) in *.
  assert (Hbsize : image_size bg1 = (img_size, img_size)) by apply size_resize.
  assert (Hbmode : img_mode bg1 = "RGB"%string).
  { unfold bg1. rewrite mode_resize. apply pil_to_rgb_mode. }
  rewrite Hbsize in Hrun.
  apply bind_ok_inv in Hrun as (fg0 & s1 & _ & Hrun).
  apply bind_ok_inv in Hrun as (scale & s2 & _ & Hrun).
  apply bind_ok_inv in Hrun as (target & s2' & _ & Hrun).
  apply bind_ok_inv in Hrun as (fg1 & s2'' & _ & Hrun).
  destruct (image_size fg1) as [fw fh] in Hrun.
  apply bind_ok_inv in Hrun as (x & s3 & _ & Hrun).
  apply bind_ok_inv in Hrun as (y & s4 & _ & Hrun).
  eapply augment_image_image in Hrun; [exact Hrun | | | |].
  - unfold alpha_paste. rewrite size_paste. exact Hbsize.
  - lia.
  - lia.
  - unfold alpha_paste. rewrite mode_paste. exact Hbmode.
Qed.

(** X17.  Whatever the flags, the draws and the assets, an image that
    [generate_one] returns for a positive canvas size is RGB and has the
    canvas size on both sides. *)
Theorem generate_one_image_size (minimap_path champion_path : string) (img_size : Z)
    (scale_range : Q * Q) (pf mf gf : bool) (img : Image) (b : bbox) (s s' : RNG) :
  (0 < img_size)%Z ->
  generate_one minimap_path champion_path img_size scale_range pf mf gf s
  = Ok ((img, b), s') ->
  image_size img = (img_size, img_size) /\ img_mode img = "RGB"%string.
Proof.
  apply generate_one_sized.
Qed.
End Sized.

Lemma generate_one_image_size_witness :
  @image_size _ (SizedImages disk0) (Sized.Image "RGB" (320, 320)%Z) = (320, 320)%Z
  /\ @img_mode _ (SizedImages disk0) (Sized.Image "RGB" (320, 320)%Z) = "RGB"%string.
Proof.
  apply (@generate_one_image_size _ ScriptedRandom ScriptedLaws _ (SizedImages disk0)
           (SizedLaws disk0) ExactLinAlg Binary64 "minimap.png" "champion.png" 320 (1, 1)
           false false false (Sized.Image "RGB" (320, 320)%Z) (1, 1, 321, 321)
           [0; 1; 1; half; half]%Z []).
  - lia.
  - vm_compute. reflexivity.
Defined.

(** ** End to end *)

Section EndToEnd.
Context {RNG : Type} `{RandomSource RNG} `{!RandomLaws RNG}.
Context {Image : Type} `{ImageLib Image} `{!ImageLaws Image}.
Context `{LinAlg}.
Context `{Float64} `{!Float64Laws}.

Lemma choice_run {A : Type} (seq : list A) (s : RNG) :
  seq <> [] -> exists (a : A) (s' : RNG), choice seq s = Ok (a, s') /\ In a seq.
Proof.
  intro Hne. unfold choice. destruct seq as [|a0 rest]; [contradiction|].
  set (l := a0 :: rest) in *.
  pose proof (randbelow_range (Z.of_nat (length l)) s ltac:(unfold l; simpl; lia)) as Hr.
  destruct (randbelow (Z.of_nat (length l)) s) as [k s1]. cbn [fst] in Hr.
  destruct (nth_error l (Z.to_nat k)) as [a|] eqn:E.
  - exists a, s1. split; [reflexivity|]. eapply nth_error_In. exact E.
  - apply nth_error_None in E. lia.
Qed.

Lemma choice_ok_in {A : Type} (seq : list A) (s s' : RNG) (a : A) :
  choice seq s = Ok (a, s') -> In a seq.
Proof.
  unfold choice. destruct seq as [|a0 rest]; [discriminate|].
  destruct (randbelow _ s) as [k s1].
  destruct (nth_error (a0 :: rest) (Z.to_nat k)) as [a1|] eqn:E; [|discriminate].
  intro Heq. injection Heq as <- <-. eapply nth_error_In. exact E.
Qed.

Lemma attempt_image_size (cfg : config) (s s' : RNG) (img : Image) (b : bbox) :
  (0 < cfg_img_size cfg)%Z ->
  attempt cfg s = Ok ((img, b), s') ->
  canvas_image (cfg_img_size cfg) img.
Proof.
  intros Hs Hrun. unfold attempt in Hrun.
  apply bind_ok_inv in Hrun as (bg_path & s1 & _ & Hrun).
  apply bind_ok_inv in Hrun as (fg_path & s2 & _ & Hrun).
  apply bind_ok_inv in Hrun as (r1 & s3 & _ & Hrun).
  apply bind_ok_inv in Hrun as (r2 & s4 & _ & Hrun).
  apply bind_ok_inv in Hrun as (r3 & s5 & _ & Hrun).
  unfold canvas_image. eapply generate_one_sized; eassumption.
Qed.

Lemma attempt_run (cfg : config) (s : RNG) :
  (9 <= cfg_img_size cfg <= max_side)%Z ->
  0 <= min_scale cfg -> 0 <= max_scale cfg ->
  inject_Z (cfg_img_size cfg) * min_scale cfg <= inject_Z (cfg_img_size cfg) - 1 ->
  inject_Z (cfg_img_size cfg) * max_scale cfg <= inject_Z (cfg_img_size cfg) - 1 ->
  perspective_prob cfg <= 0 ->
  minimaps cfg <> [] -> champions cfg <> [] ->
  readable_pool (minimaps cfg) -> solid_pool (champions cfg) ->
  exists (img : Image) (b : bbox) (s' : RNG),
    attempt cfg s = Ok ((img, b), s') /\ placed_sample (cfg_img_size cfg) img b.
Proof.
  intros Hs Hlo Hhi Plo Phi Hpp Hm Hc Hread Hsolid. unfold attempt.
  destruct (choice_run (minimaps cfg) s Hm) as (bg_path & s1 & E1 & Hin1).
  destruct (choice_run (champions cfg) s1 Hc) as (fg_path & s2 & E2 & Hin2).
  erewrite bind_ok by exact E1. erewrite bind_ok by exact E2.
  unfold readable_pool in Hread. rewrite Forall_forall in Hread.
  unfold solid_pool in Hsolid. rewrite Forall_forall in Hsolid.
  destruct (Hread bg_path Hin1) as (bg0 & Hbg).
  destruct (Hsolid fg_path Hin2) as (fg0 & w0 & h0 & Hfg & Hfs & Hw0 & Hh0).
  unfold bind at 1. unfold draw_random. destruct (random s2) as [r1 s3].
  unfold bind at 1. destruct (random s3) as [r2 s4].
  unfold bind at 1. pose proof (random_unit s4) as Hr3.
  destruct (random s4) as [r3 s5]. cbn [fst] in Hr3.
  assert (Hpf : Qlt_bool r3 (perspective_prob cfg) = false).
  { destruct (Qlt_bool r3 (perspective_prob cfg)) eqn:E; [|reflexivity].
    apply Qlt_bool_iff in E. lra. }
  rewrite Hpf.
  destruct (generate_one_run bg_path fg_path (cfg_img_size cfg) (min_scale cfg)
              (max_scale cfg) (Qlt_bool r1 (moire_prob cfg)) (Qlt_bool r2 (glare_prob cfg))
              bg0 fg0 w0 h0 s5 Hs Hlo Hhi Plo Phi Hbg Hfg Hfs Hw0 Hh0)
    as (img & x & y & fw & fh & s6 & Hrun & Hx & Hy & Hfw & Hfh & _ & Hsz & Hmd).
  exists img, (inject_Z x, inject_Z y, inject_Z (x + fw), inject_Z (y + fh)), s6.
  split; [exact Hrun|].
  exists x, y, fw, fh. repeat split; try assumption; try lia.
Qed.
Section Accepted.
Variable P : Image -> bbox -> Prop.
Variable cfg : config.
Hypothesis attempt_sound :
  forall (s s' : RNG) (img : Image) (b : bbox),
    attempt cfg s = Ok ((img, b), s') -> P img b.

Lemma retry_loop_current (fuel : nat) :
  forall (st : @loop_state Image) (s : RNG),
    (forall img b, current st = Some (img, b) -> P img b) ->
    match retry_loop fuel cfg st s with
    | Ok (Some st', _) => forall img b, current st' = Some (img, b) -> P img b
    | _ => True
    end.
Proof.
  induction fuel as [|fuel IH]; intros st s Hcur; [exact I|].
  cbn [retry_loop]. unfold bind at 1. unfold retry_body.
  destruct (tries st + 1 >? 5)%Z.
  - cbn [ret current]. exact Hcur.
  - unfold bind at 1.
    destruct (attempt cfg s) as [[[img b] s1]|e] eqn:Ea; [|exact I].
    pose proof (attempt_sound s s1 img b Ea) as HP.
    destruct (validate b).
    + cbn [ret current]. intros img' b' E. injection E as <- <-. exact HP.
    + cbn [ret]. apply IH. cbn [current]. intros img' b' E. injection E as <- <-. exact HP.
Qed.

Lemma process_index_sample (extra : nat) (i : Z) (w : world) (s : RNG) :
  match process_index (6 + extra) cfg i w s with
  | Ok (Some w', _) =>
      exists (img : Image) (b : bbox),
        P img b
        /\ saved_images w' = saved_images w ++ [(image_path cfg i, img, 92%Z)]
        /\ labels w' = save_yolo_label (label_path cfg i) b (cfg_img_size cfg) 0 (labels w)
  | Ok (None, _) => False
  | Err _ => True
  end.
Proof.
  unfold process_index, bind.
  pose proof (retry_loop_invariant cfg (6 + extra) loop_init s) as Hloop.
  pose proof (retry_loop_current (6 + extra) loop_init s) as Hcur.
  destruct (retry_loop (6 + extra) cfg loop_init s) as [[[st|] s1]|e].
  - destruct Hloop as (_ & _ & Hsome).
    + unfold loop_invariant, loop_init. cbn [attempts tries current]. repeat split; lia.
    + unfold loop_init. cbn [tries]. lia.
    + destruct (current st) as [[img b]|] eqn:Ec; [|contradiction].
      cbn [ret saved_images labels]. exists img, b.
      split; [|split; reflexivity].
      apply Hcur; [|reflexivity]. unfold loop_init. cbn [current]. discriminate.
  - apply Hloop.
    + unfold loop_invariant, loop_init. cbn [attempts tries current]. repeat split; lia.
    + unfold loop_init. cbn [tries]. lia.
  - exact I.
Qed.

Lemma for_each_samples (extra : nat) (indices : list Z) :
  forall (w : world) (s : RNG),
    match for_each (6 + extra) cfg indices w s with
    | Ok (Some w', _) =>
        exists imgs : list (string * Image * Z),
          saved_images w' = saved_images w ++ imgs
          /\ Forall (fun e => exists b, P (snd (fst e)) b) imgs
    | Ok (None, _) => False
    | Err _ => True
    end.
Proof.
  induction indices as [|i rest IH]; intros w s.
  - cbn [for_each ret]. exists []. rewrite app_nil_r. split; [reflexivity | constructor].
  - cbn [for_each]. unfold bind at 1.
    pose proof (process_index_sample extra i w s) as Hstep.
    destruct (process_index (6 + extra) cfg i w s) as [[[w1|] s1]|e];
      [| contradiction | exact I].
    destruct Hstep as (img & b & HP & Himg & _).
    specialize (IH w1 s1).
    destruct (for_each (6 + extra) cfg rest w1 s1) as [[[w2|] s2]|e];
      [| contradiction | exact I].
    destruct IH as (imgs & Hi & Hall).
    exists ((image_path cfg i, img, 92%Z) :: imgs).
    rewrite Hi, Himg, <- app_assoc. split; [reflexivity|].
    constructor; [exists b; exact HP | exact Hall].
Qed.
End Accepted.

(** X18.  For a positive canvas size, every image saved by a run of [main]
    that ends without an exception is RGB and has the canvas size, whether
    or not perspective, moire or glare were applied to it. *)
Theorem main_images_sized (cfg : config) (extra : nat) (s : RNG) :
  (0 < cfg_img_size cfg)%Z ->
  match main (6 + extra) cfg s with
  | Ok (Some w, _) =>
      Forall (fun e => canvas_image (cfg_img_size cfg) (snd (fst e))) (saved_images w)
  | Ok (None, _) => False
  | Err _ => True
  end.
Proof.
  intro Hs. unfold main.
  destruct (minimaps cfg) as [|m ms]; [exact I|].
  destruct (champions cfg) as [|c cs]; [exact I|].
  pose proof (for_each_samples (fun img _ => canvas_image (cfg_img_size cfg) img) cfg
                (fun s0 s1 img b => attempt_image_size cfg s0 s1 img b Hs)
                extra (map Z.of_nat (seq 1 (Z.to_nat (count cfg)))) (World [] []) s)
    as Hrun.
  destruct (for_each _ cfg _ (World [] []) s) as [[[w|] s1]|e];
    [| contradiction | exact I].
  destruct Hrun as (imgs & Hi & Hall). cbn [saved_images app] in Hi. rewrite Hi.
  eapply Forall_impl; [|exact Hall]. intros e [_ He]. exact He.
Qed.
Lemma save_yolo_label_placed (path : string) (img : Image) (b : bbox) (img_size cid : Z)
    (fs : label_log) :
  placed_sample img_size img b ->
  exists line : label_line, save_yolo_label path b img_size cid fs = fs ++ [(path, line)].
Proof.
  intros (x & y & fw & fh & -> & [Hx0 Hx1] & [Hy0 Hy1] & Hfw & Hfh & _).
  destruct (save_yolo_label_cases path
              (inject_Z x, inject_Z y, inject_Z (x + fw), inject_Z (y + fh))
              img_size cid fs) as [Hsame | (line & Hw & _)]; [|exists line; exact Hw].
  exfalso. unfold save_yolo_label in Hsame.
  assert (Q0 : forall n : Z, (0 <= n)%Z -> 0 <= inject_Z n).
  { intros n Hn. change 0 with (inject_Z 0). rewrite <- Zle_Qle. exact Hn. }
  assert (QS : forall n : Z, (n <= img_size)%Z -> inject_Z n <= inject_Z img_size).
  { intros n Hn. rewrite <- Zle_Qle. exact Hn. }
  pose proof (clamp_inside (inject_Z x) 0 _ (Q0 x ltac:(lia)) (QS x ltac:(lia))) as C1.
  pose proof (clamp_inside (inject_Z y) 0 _ (Q0 y ltac:(lia)) (QS y ltac:(lia))) as C2.
  pose proof (clamp_inside (inject_Z (x + fw)) 0 _ (Q0 (x + fw)%Z ltac:(lia))
                (QS (x + fw)%Z ltac:(lia))) as C3.
  pose proof (clamp_inside (inject_Z (y + fh)) 0 _ (Q0 (y + fh)%Z ltac:(lia))
                (QS (y + fh)%Z ltac:(lia))) as C4.
  assert (Lx : inject_Z x < inject_Z (x + fw)) by (rewrite <- Zlt_Qlt; lia).
  assert (Ly : inject_Z y < inject_Z (y + fh)) by (rewrite <- Zlt_Qlt; lia).
  destruct (Qle_bool _ _ || Qle_bool _ _) eqn:E.
  - apply orb_true_iff in E. rewrite !Qle_bool_iff in E.
    rewrite C1, C2, C3, C4 in E. destruct E as [E | E]; lra.
  - exact (app_one_neq _ _ Hsame).
Qed.

Section Total.
Variable cfg : config.
Hypothesis attempt_total :
  forall s : RNG,
    exists (img : Image) (b : bbox) (s' : RNG),
      attempt cfg s = Ok ((img, b), s') /\ placed_sample (cfg_img_size cfg) img b.

Lemma retry_loop_total (fuel : nat) :
  forall (st : @loop_state Image) (s : RNG),
    (tries st <= 5)%Z ->
    ((5 <= tries st)%Z ->
     exists img b, current st = Some (img, b) /\ placed_sample (cfg_img_size cfg) img b) ->
    (6 <= Z.of_nat fuel + tries st)%Z ->
    exists (st' : loop_state) (s' : RNG) (img : Image) (b : bbox),
      retry_loop fuel cfg st s = Ok (Some st', s')
      /\ current st' = Some (img, b) /\ placed_sample (cfg_img_size cfg) img b.
Proof.
  induction fuel as [|fuel IH]; intros st s Hhi Hcur Hfuel.
  - simpl in Hfuel. lia.
  - cbn [retry_loop]. unfold bind at 1. unfold retry_body.
    destruct (tries st + 1 >? 5)%Z eqn:Hgt.
    + apply Z.gtb_lt in Hgt. destruct Hcur as (img & b & Hc & HP); [lia|].
      cbn [ret]. do 4 eexists. split; [reflexivity|]. cbn [current].
      split; [exact Hc | exact HP].
    + assert (Hle : (tries st + 1 <= 5)%Z).
      { destruct (Z.gtb_spec (tries st + 1) 5); [discriminate | lia]. }
      destruct (attempt_total s) as (img & b & s1 & Ea & HP).
      unfold bind at 1. rewrite Ea.
      destruct (validate b).
      * cbn [ret]. do 4 eexists. split; [reflexivity|]. cbn [current].
        split; [reflexivity | exact HP].
      * cbn [ret]. apply IH; cbn [tries current]; try lia.
        intros _. exists img, b. split; [reflexivity | exact HP].
Qed.

Lemma process_index_total (extra : nat) (i : Z) (w : world) (s : RNG) :
  exists (w' : world) (s' : RNG) (img : Image) (line : label_line),
    process_index (6 + extra) cfg i w s = Ok (Some w', s')
    /\ canvas_image (cfg_img_size cfg) img
    /\ saved_images w' = saved_images w ++ [(image_path cfg i, img, 92%Z)]
    /\ labels w' = labels w ++ [(label_path cfg i, line)].
Proof.
  destruct (retry_loop_total (6 + extra) loop_init s) as (st & s1 & img & b & Er & Hc & HP).
  - unfold loop_init. cbn [tries]. lia.
  - unfold loop_init. cbn [tries]. lia.
  - unfold loop_init. cbn [tries]. lia.
  - destruct (save_yolo_label_placed (label_path cfg i) img b (cfg_img_size cfg) 0
                (labels w) HP) as (line & Hline).
    unfold process_index. erewrite bind_ok by exact Er. cbv beta iota. rewrite Hc.
    cbn [ret]. do 2 eexists. exists img, line. split; [reflexivity|].
    cbn [saved_images labels]. fold (out_name i).
    split; [|split; [reflexivity | exact Hline]].
    destruct HP as (x & y & fw & fh & _ & _ & _ & _ & _ & Hsz & Hmd). now split.
Qed.

Lemma for_each_total (extra : nat) (indices : list Z) :
  forall (w : world) (s : RNG),
    exists (w' : world) (s' : RNG) (imgs : list (string * Image * Z)) (lbls : label_log),
      for_each (6 + extra) cfg indices w s = Ok (Some w', s')
      /\ saved_images w' = saved_images w ++ imgs
      /\ labels w' = labels w ++ lbls
      /\ map (fun e => fst (fst e)) imgs = map (image_path cfg) indices
      /\ map fst lbls = map (label_path cfg) indices
      /\ Forall (fun e => canvas_image (cfg_img_size cfg) (snd (fst e))) imgs.
Proof.
  induction indices as [|i rest IH]; intros w s.
  - exists w, s, [], []. cbn [for_each ret map]. rewrite !app_nil_r.
    repeat split; constructor.
  - destruct (process_index_total extra i w s) as (w1 & s1 & img & line & Ep & Hci & Hi & Hl).
    destruct (IH w1 s1) as (w2 & s2 & imgs & lbls & Ef & Hi2 & Hl2 & Hp & Hq & Hall).
    exists w2, s2, ((image_path cfg i, img, 92%Z) :: imgs), ((label_path cfg i, line) :: lbls).
    cbn [for_each]. erewrite bind_ok by exact Ep. cbv beta iota.
    split; [exact Ef|].
    rewrite Hi2, Hl2, Hi, Hl, <- !app_assoc. cbn [app map fst snd].
    rewrite Hp, Hq. repeat split; try reflexivity.
    constructor; [exact Hci | exact Hall].
Qed.
End Total.

(** X19.  With perspective switched off (probability 0 or less), a canvas of
    at least 9 pixels, scale bounds that are not negative and leave one
    pixel of the canvas (img_size * bound <= img_size - 1), a non-empty pool
    of readable minimaps and a non-empty pool of readable champions without
    a zero side, [main] never raises and never exhausts the fuel: it saves
    one RGB image of the canvas size per index 1..count and writes exactly
    one label line per image, each under the paths of its index, in order.
    Sides are at most [max_side], the largest the image library holds. *)
Theorem main_labels_every_image (cfg : config) (extra : nat) (s : RNG) :
  (9 <= cfg_img_size cfg <= max_side)%Z ->
  0 <= min_scale cfg -> 0 <= max_scale cfg ->
  inject_Z (cfg_img_size cfg) * min_scale cfg <= inject_Z (cfg_img_size cfg) - 1 ->
  inject_Z (cfg_img_size cfg) * max_scale cfg <= inject_Z (cfg_img_size cfg) - 1 ->
  perspective_prob cfg <= 0 ->
  minimaps cfg <> [] -> champions cfg <> [] ->
  readable_pool (minimaps cfg) -> solid_pool (champions cfg) ->
  exists (w : world) (s' : RNG),
    main (6 + extra) cfg s = Ok (Some w, s')
    /\ map (fun e => fst (fst e)) (saved_images w) = map (image_path cfg) (sample_indices cfg)
    /\ map fst (labels w) = map (label_path cfg) (sample_indices cfg)
    /\ Forall (fun e => canvas_image (cfg_img_size cfg) (snd (fst e))) (saved_images w).
Proof.
  intros Hs Hlo Hhi Plo Phi Hpp Hm Hc Hread Hsolid.
  destruct (for_each_total cfg
              (fun s0 => attempt_run cfg s0 Hs Hlo Hhi Plo Phi Hpp Hm Hc Hread Hsolid)
              extra (sample_indices cfg) (World [] []) s)
    as (w & s1 & imgs & lbls & Ef & Hi & Hl & Hp & Hq & Hall).
  exists w, s1. unfold main.
  destruct (minimaps cfg) as [|m ms]; [contradiction|].
  destruct (champions cfg) as [|c cs]; [contradiction|].
  fold (sample_indices cfg). split; [exact Ef|].
  cbn [saved_images labels app] in Hi, Hl. rewrite Hi, Hl.
  repeat split; assumption.
Qed.
End EndToEnd.

Lemma main_images_sized_witness :
  match @main _ ScriptedRandom _ (SizedImages disk0) ExactLinAlg Binary64 (6 + 0)
          (cfg_of "banner.png" 320 (8 # 100) (2 # 10)) [] with
  | Ok (Some w, _) =>
      Forall (fun e => @canvas_image _ (SizedImages disk0) 320 (snd (fst e)))
             (saved_images w)
  | Ok (None, _) => False
  | Err _ => True
  end.
Proof.
  apply (@main_images_sized _ ScriptedRandom ScriptedLaws _ (SizedImages disk0)
           (SizedLaws disk0) ExactLinAlg Binary64
           (cfg_of "banner.png" 320 (8 # 100) (2 # 10)) 0 []).
  reflexivity.
Defined.

Lemma main_labels_every_image_witness :
  exists (w : @world Sized.image) (s' : Scripted.rng),
    @main _ ScriptedRandom _ (SizedImages disk0) ExactLinAlg Binary64 (6 + 0)
      (cfg_of "champion.png" 320 (8 # 100) (2 # 10)) [] = Ok (Some w, s')
    /\ map (fun e => fst (fst e)) (saved_images w)
       = map (image_path (cfg_of "champion.png" 320 (8 # 100) (2 # 10)))
             (sample_indices (cfg_of "champion.png" 320 (8 # 100) (2 # 10)))
    /\ map fst (labels w)
       = map (label_path (cfg_of "champion.png" 320 (8 # 100) (2 # 10)))
             (sample_indices (cfg_of "champion.png" 320 (8 # 100) (2 # 10)))
    /\ Forall (fun e => @canvas_image _ (SizedImages disk0) 320 (snd (fst e)))
              (saved_images w).
Proof.
  apply (@main_labels_every_image _ ScriptedRandom ScriptedLaws _ (SizedImages disk0)
           (SizedLaws disk0) ExactLinAlg Binary64 Binary64Laws
           (cfg_of "champion.png" 320 (8 # 100) (2 # 10)) 0 []).
  - cbn. unfold max_side. lia.
  - vm_compute. discriminate.
  - vm_compute. discriminate.
  - vm_compute. discriminate.
  - vm_compute. discriminate.
  - cbn. apply Qle_refl.
  - discriminate.
  - discriminate.
  - constructor; [|constructor]. eexists. reflexivity.
  - constructor; [|constructor]. do 3 eexists. split; [reflexivity|].
    split; [reflexivity|]. unfold max_side. split; lia.
Defined.

(** ** The two homographies of the perspective branch *)

Section InverseHomography.
Variables W Hh u0 v0 u1 v1 u2 v2 u3 v3 : Q.
Variables a1 a2 a3 a4 a5 a6 a7 a8 : Q.

Hypothesis Hsolves :
  solves (fst (build_system (combine [(u0, v0); (u1, v1); (u2, v2); (u3, v3)]
                                     [(0, 0); (W, 0); (W, Hh); (0, Hh)]) [] []))
         [a1; a2; a3; a4; a5; a6; a7; a8]
         (snd (build_system (combine [(u0, v0); (u1, v1); (u2, v2); (u3, v3)]
                                     [(0, 0); (W, 0); (W, Hh); (0, Hh)]) [] [])).
Hypothesis Hquad : non_degenerate [(u0, v0); (u1, v1); (u2, v2); (u3, v3)].
Hypothesis HW : ~ W == 0.
Hypothesis HH : ~ Hh == 0.

Lemma inverse_equations :
  (u0 * a1 + v0 * a2 + a3 == 0 /\ u0 * a4 + v0 * a5 + a6 == 0) /\
  (u1 * a1 + v1 * a2 + a3 - W * u1 * a7 - W * v1 * a8 == W /\
   u1 * a4 + v1 * a5 + a6 == 0) /\
  (u2 * a1 + v2 * a2 + a3 - W * u2 * a7 - W * v2 * a8 == W /\
   u2 * a4 + v2 * a5 + a6 - Hh * u2 * a7 - Hh * v2 * a8 == Hh) /\
  (u3 * a1 + v3 * a2 + a3 == 0 /\
   u3 * a4 + v3 * a5 + a6 - Hh * u3 * a7 - Hh * v3 * a8 == Hh).
Proof.
  unfold solves in Hsolves. rewrite build_system_four in Hsolves.
  simpl in Hsolves.
  repeat match goal with
         | Hf : Forall2 _ (_ :: _) (_ :: _) |- _ =>
             let E := fresh "E" in
             apply Forall2_cons_iff in Hf; destruct Hf as [E Hf]; simpl in E
         end.
  repeat split; lra.
Qed.

Lemma quad_product_nonzero :
  ~ W * Hh * cross (u0, v0) (u1, v1) (u2, v2) * cross (u0, v0) (u1, v1) (u3, v3)
    * cross (u0, v0) (u2, v2) (u3, v3) * cross (u1, v1) (u2, v2) (u3, v3) == 0.
Proof.
  destruct Hquad as (N012 & N013 & N023 & N123).
  intro Hz.
  repeat (apply Qmult_integral in Hz; destruct Hz as [Hz | Hz]; try contradiction).
Qed.

Lemma inverse_weights_nonzero :
  ~ a7 * u0 + a8 * v0 + 1 == 0 /\ ~ a7 * u1 + a8 * v1 + 1 == 0 /\
  ~ a7 * u2 + a8 * v2 + 1 == 0 /\ ~ a7 * u3 + a8 * v3 + 1 == 0.
Proof.
  destruct inverse_equations as ((E0 & F0) & (E1 & F1) & (E2 & F2) & (E3 & F3)).
  repeat split; intro Hz; apply quad_product_nonzero; unfold cross; cbn [fst snd]; nsatz.
Qed.

Lemma dst_maps_to_corners :
  exists t0 t1 t2 t3 : point,
    apply_homography [(u0, v0); (u1, v1); (u2, v2); (u3, v3)]
                     (Mat3 a1 a2 a3 a4 a5 a6 a7 a8 1) = [t0; t1; t2; t3] /\
    (fst t0 == 0 /\ snd t0 == 0) /\ (fst t1 == W /\ snd t1 == 0) /\
    (fst t2 == W /\ snd t2 == Hh) /\ (fst t3 == 0 /\ snd t3 == Hh).
Proof.
  destruct inverse_equations as ((E0 & F0) & (E1 & F1) & (E2 & F2) & (E3 & F3)).
  destruct inverse_weights_nonzero as (Z0 & Z1 & Z2 & Z3).
  assert (Z0' : ~ a7 * u0 + a8 * v0 + 1 * 1 == 0) by (intro Hz; apply Z0; lra).
  assert (Z1' : ~ a7 * u1 + a8 * v1 + 1 * 1 == 0) by (intro Hz; apply Z1; lra).
  assert (Z2' : ~ a7 * u2 + a8 * v2 + 1 * 1 == 0) by (intro Hz; apply Z2; lra).
  assert (Z3' : ~ a7 * u3 + a8 * v3 + 1 * 1 == 0) by (intro Hz; apply Z3; lra).
  unfold apply_homography. cbn [fold_left].
  rewrite !step_divides;
    cbn [matvec h11 h12 h13 h21 h22 h23 h31 h32 h33 fst snd app];
    try assumption.
  do 4 eexists. split; [reflexivity|]. cbn [fst snd].
  repeat split; (apply quotient_eq; [assumption | lra]).
Qed.
End InverseHomography.

Lemma matvec_proper (h : mat3) (p q : point) :
  point_eq p q ->
  fst (fst (matvec h p)) == fst (fst (matvec h q))
  /\ snd (fst (matvec h p)) == snd (fst (matvec h q))
  /\ snd (matvec h p) == snd (matvec h q).
Proof.
  destruct p as [x y], q as [x' y']. unfold point_eq. cbn [fst snd matvec].
  intros [Ex Ey]. rewrite Ex, Ey. repeat split; reflexivity.
Qed.

Lemma apply_homography_proper (h : mat3) (pts pts' : list point) :
  Forall2 point_eq pts pts' ->
  Forall2 point_eq (apply_homography pts h) (apply_homography pts' h).
Proof.
  induction 1 as [|p q rest rest' Hpq Hrest IH]; [constructor|].
  rewrite !apply_homography_cons.
  destruct p as [x y], q as [x' y'].
  destruct (apply_homography_step_single h x y) as (t & -> & Ht0 & Ht1).
  destruct (apply_homography_step_single h x' y') as (t' & -> & Ht0' & Ht1').
  cbn [app]. constructor; [|exact IH].
  destruct (matvec_proper h (x, y) (x', y') Hpq) as (Ex & Ey & Ez).
  destruct (Qeq_dec (snd (matvec h (x, y))) 0) as [Hz | Hz].
  - rewrite (Ht0 Hz). rewrite Ht0' by (rewrite <- Ez; exact Hz). exact Hpq.
  - rewrite (Ht1 Hz). rewrite Ht1' by (rewrite <- Ez; exact Hz).
    unfold point_eq. cbn [fst snd]. rewrite Ex, Ey, Ez. split; reflexivity.
Qed.

Lemma solve_homography_inverse_exact `{LinAlg} (w h : Z) (q0 q1 q2 q3 : point) :
  w <> 0%Z -> h <> 0%Z ->
  lstsq_exact_on [q0; q1; q2; q3] (canvas_corners w h) ->
  non_degenerate [q0; q1; q2; q3] ->
  exists (hm : mat3) (t0 t1 t2 t3 : point),
    solve_homography [q0; q1; q2; q3] (canvas_corners w h) = Ok hm /\
    h33 hm = 1 /\
    apply_homography [q0; q1; q2; q3] hm = [t0; t1; t2; t3] /\
    Forall2 point_eq [t0; t1; t2; t3] (canvas_corners w h).
Proof.
  intros Hw Hh Hex Hnd.
  destruct q0 as [u0 v0], q1 as [u1 v1], q2 as [u2 v2], q3 as [u3 v3].
  unfold lstsq_exact_on, solve_homography in *. unfold canvas_corners in *.
  cbn [length Nat.eqb negb orb].
  destruct (build_system _ [] []) as [a b] eqn:Esys.
  destruct Hex as [Hlen Hsol].
  pose proof Esys as Esys'. rewrite build_system_four in Esys'.
  injection Esys' as Ea Eb. subst a b.
  cbn [hd length] in Hlen.
  destruct (lstsq _ _) as [|a1 [|a2 [|a3 [|a4 [|a5 [|a6 [|a7 [|a8 [|a9 l]]]]]]]]];
    try discriminate Hlen.
  cbn [app reshape3].
  assert (HW : ~ inject_Z w == 0).
  { intro Hc. apply Hw. apply inject_Z_injective. exact Hc. }
  assert (HH : ~ inject_Z h == 0).
  { intro Hc. apply Hh. apply inject_Z_injective. exact Hc. }
  destruct (dst_maps_to_corners (inject_Z w) (inject_Z h) u0 v0 u1 v1 u2 v2 u3 v3
              a1 a2 a3 a4 a5 a6 a7 a8) as (t0 & t1 & t2 & t3 & Happ & C0 & C1 & C2 & C3);
    try assumption.
  exists (Mat3 a1 a2 a3 a4 a5 a6 a7 a8 1), t0, t1, t2, t3.
  split; [reflexivity|]. split; [reflexivity|]. split; [exact Happ|].
  repeat constructor; cbn [fst snd]; tauto.
Qed.

(** X20.  For a canvas with non-zero sides, a non-degenerate destination
    quad and exact least squares on both systems, the two homographies of
    the perspective branch undo each other on the corners: the matrix solved
    from (dst, src), whose first eight entries are the resampling
    coefficients, sends each destination corner to its source corner, and
    sends the image of each canvas corner under the forward matrix back to
    that corner. *)
Theorem perspective_round_trip `{LinAlg} (w h : Z) (q0 q1 q2 q3 : point) :
  w <> 0%Z -> h <> 0%Z ->
  non_degenerate [q0; q1; q2; q3] ->
  lstsq_exact_on (canvas_corners w h) [q0; q1; q2; q3] ->
  lstsq_exact_on [q0; q1; q2; q3] (canvas_corners w h) ->
  exists (hf hinv : mat3) (coeffs : list Q),
    solve_homography (canvas_corners w h) [q0; q1; q2; q3] = Ok hf
    /\ solve_homography [q0; q1; q2; q3] (canvas_corners w h) = Ok hinv
    /\ perspective_coeffs [q0; q1; q2; q3] (canvas_corners w h) = Ok coeffs
    /\ Forall2 Qeq coeffs [h11 hinv; h12 hinv; h13 hinv; h21 hinv; h22 hinv; h23 hinv;
                           h31 hinv; h32 hinv]
    /\ Forall2 point_eq (apply_homography [q0; q1; q2; q3] hinv) (canvas_corners w h)
    /\ Forall2 point_eq
         (apply_homography (apply_homography (canvas_corners w h) hf) hinv)
         (canvas_corners w h).
Proof.
  intros Hw Hh Hnd Hfwd Hbwd.
  destruct (solve_homography_exact w h q0 q1 q2 q3 Hfwd Hnd)
    as (hf & t0 & t1 & t2 & t3 & Hsf & Haf & X0 & X1 & X2 & X3).
  destruct (solve_homography_inverse_exact w h q0 q1 q2 q3 Hw Hh Hbwd Hnd)
    as (hinv & r0 & r1 & r2 & r3 & Hsi & H33 & Hai & Hback).
  exists hf, hinv. eexists. split; [exact Hsf|]. split; [exact Hsi|].
  split; [unfold perspective_coeffs; rewrite Hsi; reflexivity|].
  split.
  - rewrite H33. assert (D : forall q : Q, q / 1 == q) by (intro q; field).
    repeat (apply Forall2_cons; [apply D|]). apply Forall2_nil.
  - split; [rewrite Hai; exact Hback|].
    assert (Hpts : Forall2 point_eq (apply_homography (canvas_corners w h) hf)
                                    [q0; q1; q2; q3]).
    { rewrite Haf. repeat (apply Forall2_cons; [assumption|]). apply Forall2_nil. }
    pose proof (apply_homography_proper hinv _ _ Hpts) as Hp. rewrite Hai in Hp.
    remember (apply_homography (apply_homography (canvas_corners w h) hf) hinv) as out.
    clear - Hp Hback.
    revert Hp Hback. generalize (canvas_corners w h). generalize [r0; r1; r2; r3].
    intros mid final Hp. revert final.
    induction Hp as [|a b l l' Hab Hl IH]; intros final Hback.
    + inversion Hback. constructor.
    + inversion Hback as [|b' c l'' final' Hbc Hrest]; subst.
      constructor; [|apply IH; exact Hrest].
      destruct Hab as [A1 A2], Hbc as [B1 B2]. split; [rewrite A1; exact B1 | rewrite A2; exact B2].
Qed.

Lemma perspective_round_trip_witness :
  exists (hf hinv : mat3) (coeffs : list Q),
    @solve_homography ExactLinAlg (canvas_corners 100 100) quad_drawn = Ok hf
    /\ @solve_homography ExactLinAlg quad_drawn (canvas_corners 100 100) = Ok hinv
    /\ @perspective_coeffs ExactLinAlg quad_drawn (canvas_corners 100 100) = Ok coeffs
    /\ Forall2 Qeq coeffs [h11 hinv; h12 hinv; h13 hinv; h21 hinv; h22 hinv; h23 hinv;
                           h31 hinv; h32 hinv]
    /\ Forall2 point_eq (apply_homography quad_drawn hinv) (canvas_corners 100 100)
    /\ Forall2 point_eq
         (apply_homography (apply_homography (canvas_corners 100 100) hf) hinv)
         (canvas_corners 100 100).
Proof.
  apply (@perspective_round_trip ExactLinAlg 100 100).
  - discriminate.
  - discriminate.
  - vm_compute. repeat split; intro E; discriminate E.
  - unfold lstsq_exact_on.
    set (sys := build_system _ _ _). vm_compute in sys. subst sys. cbv beta iota.
    set (x := lstsq _ _). vm_compute in x. subst x.
    split; [reflexivity|]. unfold solves.
    repeat (apply Forall2_cons; [vm_compute; reflexivity|]). apply Forall2_nil.
  - unfold lstsq_exact_on.
    set (sys := build_system _ _ _). vm_compute in sys. subst sys. cbv beta iota.
    set (x := lstsq _ _). vm_compute in x. subst x.
    split; [reflexivity|]. unfold solves.
    repeat (apply Forall2_cons; [vm_compute; reflexivity|]). apply Forall2_nil.
Defined.

(** ** File names *)

Lemma parse_decimal_app (s1 s2 : string) : forall acc : Z,
  parse_decimal (s1 ++ s2) acc = parse_decimal s2 (parse_decimal s1 acc).
Proof.
  induction s1 as [|c s1 IH]; intro acc; [reflexivity|].
  cbn [String.append parse_decimal]. apply IH.
Qed.

Lemma digit_char_value (d : Z) :
  (0 <= d <= 9)%Z -> (Z.of_nat (nat_of_ascii (digit_char d)) - 48 = d)%Z.
Proof.
  intro Hd. unfold digit_char. rewrite nat_ascii_embedding; lia.
Qed.

Lemma string_length_app (s1 s2 : string) :
  String.length (s1 ++ s2) = (String.length s1 + String.length s2)%nat.
Proof.
  induction s1 as [|c s1 IH]; [reflexivity|].
  cbn [String.append String.length]. now rewrite IH.
Qed.

Lemma string_app_assoc (s1 s2 s3 : string) :
  ((s1 ++ s2) ++ s3 = s1 ++ (s2 ++ s3))%string.
Proof.
  induction s1 as [|c s1 IH]; [reflexivity|].
  cbn [String.append]. now rewrite IH.
Qed.

Lemma decimal_digits_spec (fuel : nat) :
  forall (n : Z) (acc : string),
    (0 <= n < 10 ^ Z.of_nat fuel)%Z ->
    exists d : string,
      decimal_digits fuel n acc = (d ++ acc)%string
      /\ (forall a : Z,
            parse_decimal d a = (a * 10 ^ Z.of_nat (String.length d) + n)%Z)
      /\ (forall k : nat, (0 < k)%nat -> (n < 10 ^ Z.of_nat k)%Z ->
            (String.length d <= k)%nat)
      /\ ((0 < fuel)%nat -> (1 <= String.length d)%nat).
Proof.
  induction fuel as [|fuel IH]; intros n acc Hn.
  - exists EmptyString. cbn [decimal_digits String.append String.length].
    simpl in Hn. assert (n = 0%Z) by lia. subst n.
    split; [reflexivity|]. split; [intro a; cbn; lia|]. split; [intros; lia | lia].
  - cbn [decimal_digits].
    assert (Hmod : (0 <= n mod 10 <= 9)%Z) by (pose proof (Z.mod_pos_bound n 10); lia).
    destruct (n / 10 =? 0)%Z eqn:Ediv.
    + apply Z.eqb_eq in Ediv.
      assert (Hsmall : (n mod 10 = n)%Z).
      { pose proof (Z.div_mod n 10 ltac:(lia)). lia. }
      exists (String (digit_char (n mod 10)) EmptyString).
      cbn [String.append String.length parse_decimal].
      split; [reflexivity|]. split; [|split; [intros; lia | lia]].
      intro a. rewrite digit_char_value by exact Hmod. rewrite Hsmall.
      change (Z.of_nat 1) with 1%Z. lia.
    + apply Z.eqb_neq in Ediv.
      assert (Hq : (0 <= n / 10 < 10 ^ Z.of_nat fuel)%Z).
      { split; [apply Z.div_pos; lia|].
        apply Z.div_lt_upper_bound; [lia|].
        rewrite Nat2Z.inj_succ, Z.pow_succ_r in Hn by lia. lia. }
      destruct (IH (n / 10)%Z (String (digit_char (n mod 10)) acc) Hq)
        as (d & Hd & Hparse & Hlen & Hlen1).
      exists (d ++ String (digit_char (n mod 10)) EmptyString)%string.
      split.
      { rewrite Hd. rewrite string_app_assoc. reflexivity. }
      split; [|split].
      * intro a. rewrite parse_decimal_app, Hparse.
        cbn [parse_decimal]. rewrite digit_char_value by exact Hmod.
        rewrite string_length_app. cbn [String.length].
        rewrite Nat2Z.inj_add. change (Z.of_nat 1) with 1%Z.
        rewrite Z.pow_add_r by lia.
        pose proof (Z.div_mod n 10 ltac:(lia)). lia.
      * intros k Hk Hnk. rewrite string_length_app. cbn [String.length].
        destruct k as [|k]; [lia|].
        assert (Hk1 : (0 < k)%nat).
        { destruct k; [|lia]. simpl in Hnk.
          assert (n / 10 = 0)%Z by (apply Z.div_small; lia). contradiction. }
        specialize (Hlen k Hk1).
        assert (Hq10 : (n / 10 < 10 ^ Z.of_nat k)%Z).
        { apply Z.div_lt_upper_bound; [lia|].
          rewrite Nat2Z.inj_succ, Z.pow_succ_r in Hnk by lia. lia. }
        specialize (Hlen Hq10). lia.
      * intros _. rewrite string_length_app. cbn [String.length]. lia.
Qed.

Lemma zero_pad_spec (fuel width : nat) :
  forall s : string,
    parse_decimal (zero_pad fuel width s) 0 = parse_decimal s 0
    /\ (String.length s <= String.length (zero_pad fuel width s))%nat
    /\ ((width <= String.length s + fuel)%nat ->
        (String.length s <= width)%nat ->
        String.length (zero_pad fuel width s) = width).
Proof.
  induction fuel as [|fuel IH]; intro s; cbn [zero_pad].
  - split; [reflexivity|]. split; lia.
  - destruct (Nat.ltb_spec (String.length s) width) as [Hlt | Hge].
    + destruct (IH (String "0"%char s)) as (Hp & Hl & He).
      cbn [String.length] in Hl, He.
      split; [rewrite Hp; reflexivity|]. split; [lia|].
      intros H1 H2. apply He; lia.
    + split; [reflexivity|]. split; lia.
Qed.

Lemma out_name_fuel (i : Z) :
  (0 <= i)%Z -> (0 <= i < 10 ^ Z.of_nat (S (Z.to_nat (Z.log2 i))))%Z.
Proof.
  intro Hi. split; [exact Hi|].
  rewrite Nat2Z.inj_succ, Z2Nat.id by apply Z.log2_nonneg.
  destruct (Z.eq_dec i 0) as [-> | Hne]; [reflexivity|].
  pose proof (Z.log2_spec i ltac:(lia)) as [_ Hup].
  eapply Z.lt_le_trans; [exact Hup|].
  apply Z.pow_le_mono_l. pose proof (Z.log2_nonneg i). lia.
Qed.

(** X21.  For a non-negative index the name [out_name] gives it reads back
    as the index, so two different indices never share a file name; the
    name has at least six characters, and exactly six below one million. *)
Theorem out_name_round_trip (i : Z) :
  (0 <= i)%Z ->
  parse_decimal (out_name i) 0 = i
  /\ (6 <= String.length (out_name i))%nat
  /\ ((i < 1000000)%Z -> String.length (out_name i) = 6%nat)
  /\ (forall j : Z, (0 <= j)%Z -> out_name i = out_name j -> i = j).
Proof.
  intro Hi.
  assert (Hread : forall k : Z, (0 <= k)%Z -> parse_decimal (out_name k) 0 = k).
  { intros k Hk. unfold out_name.
    destruct (decimal_digits_spec _ k EmptyString (out_name_fuel k Hk))
      as (d & Hd & Hparse & _).
    destruct (zero_pad_spec 6 6 (decimal_digits (S (Z.to_nat (Z.log2 k))) k EmptyString))
      as (Hp & _).
    rewrite Hp, Hd, parse_decimal_app, Hparse. cbn [parse_decimal]. lia. }
  split; [apply Hread; exact Hi|].
  assert (Hinj : forall j : Z, (0 <= j)%Z -> out_name i = out_name j -> i = j).
  { intros j Hj Heq. transitivity (parse_decimal (out_name i) 0).
    - symmetry. apply Hread. exact Hi.
    - rewrite Heq. apply Hread. exact Hj. }
  unfold out_name at 1 2 3.
  destruct (decimal_digits_spec _ i EmptyString (out_name_fuel i Hi))
    as (d & Hd & _ & Hlen & Hlen1).
  destruct (zero_pad_spec 6 6 (decimal_digits (S (Z.to_nat (Z.log2 i))) i EmptyString))
    as (_ & Hl & He).
  split; [|split].
  - destruct (Nat.le_gt_cases (String.length
                (decimal_digits (S (Z.to_nat (Z.log2 i))) i EmptyString)) 6)
      as [Hle | Hgt].
    + rewrite He; lia.
    + lia.
  - intro Hsmall. apply He; [lia|].
    rewrite Hd, string_length_app. cbn [String.length].
    specialize (Hlen 6%nat ltac:(lia) Hsmall). lia.
  - exact Hinj.
Qed.

Lemma out_name_round_trip_witness :
  parse_decimal (out_name 42) 0 = 42%Z
  /\ (6 <= String.length (out_name 42))%nat
  /\ ((42 < 1000000)%Z -> String.length (out_name 42) = 6%nat)
  /\ (forall j : Z, (0 <= j)%Z -> out_name 42 = out_name j -> 42%Z = j).
Proof.
  apply out_name_round_trip. lia.
Defined.

(** ** More on the photometric augmenter *)

Lemma py_int_le_self (x : Q) : 0 <= x -> inject_Z (py_int x) <= x.
Proof. intro Hx. apply (py_int_bounds x Hx). Qed.

Lemma fraction_at_most (n : Z) (a : Q) :
  (0 <= n)%Z -> 0 <= a -> a <= 1 -> (py_int (inject_Z n * a) <= n)%Z.
Proof.
  intros Hn Ha Ha1.
  assert (HN : 0 <= inject_Z n) by (change 0 with (inject_Z 0); rewrite <- Zle_Qle; exact Hn).
  assert (Hp : 0 <= inject_Z n * a) by (apply Qmult_le_0_compat; assumption).
  pose proof (py_int_le_self _ Hp) as Hle.
  rewrite Zle_Qle. nra.
Qed.

Section Photometric.
Context {RNG : Type} `{RandomSource RNG} `{!RandomLaws RNG}.
Context {Image : Type} `{ImageLib Image} `{!ImageLaws Image}.

(** X22.  On an image of non-negative size [add_glare] never raises.  The
    centre of the ellipse it draws lies within the image, between 10% and
    90% of each side; the radius is between 15% and 35% of the shorter side
    (both truncated); the opacity of the fill is between 25 and 153 whatever
    strength is passed; the result is the overlay composited on the image
    and converted back to RGB. *)
Theorem add_glare_parameters (img : Image) (w h : Z) (strength : Q) (s : RNG) :
  image_size img = (w, h) -> (0 <= w)%Z -> (0 <= h)%Z ->
  exists (cx cy radius : Z) (s' : RNG),
    add_glare img strength s
    = Ok (img_convert
            (img_alpha_composite (img_convert img "RGBA")
               (glare_overlay (w, h)
                  (cx - radius, cy - radius, cx + radius, cy + radius)%Z
                  (py_int (255 * clamp strength (1 # 10) (6 # 10)))
                  (inject_Z radius * (35 # 100))))
            "RGB", s')
    /\ (py_int (inject_Z w * (1 # 10)) <= cx <= py_int (inject_Z w * (9 # 10)))%Z
    /\ (py_int (inject_Z h * (1 # 10)) <= cy <= py_int (inject_Z h * (9 # 10)))%Z
    /\ (py_int (inject_Z (Z.min w h) * (15 # 100)) <= radius
        <= py_int (inject_Z (Z.min w h) * (35 # 100)))%Z
    /\ (0 <= cx <= w)%Z /\ (0 <= cy <= h)%Z /\ (0 <= radius <= Z.min w h)%Z
    /\ (25 <= py_int (255 * clamp strength (1 # 10) (6 # 10)) <= 153)%Z.
Proof.
  intros Hsize Hw Hh. unfold add_glare. rewrite Hsize.
  pose proof (fraction_range w (1 # 10) (9 # 10) Hw ltac:(lra) ltac:(lra)) as Rw.
  pose proof (fraction_range h (1 # 10) (9 # 10) Hh ltac:(lra) ltac:(lra)) as Rh.
  pose proof (fraction_range (Z.min w h) (15 # 100) (35 # 100) ltac:(lia)
                ltac:(lra) ltac:(lra)) as Rm.
  pose proof (fraction_at_most w (9 # 10) Hw ltac:(lra) ltac:(lra)) as Uw.
  pose proof (fraction_at_most h (9 # 10) Hh ltac:(lra) ltac:(lra)) as Uh.
  pose proof (fraction_at_most (Z.min w h) (35 # 100) ltac:(lia) ltac:(lra) ltac:(lra)) as Um.
  destruct (randint_total _ _ s (proj2 Rw)) as (cx & s1 & E1 & Hcx).
  destruct (randint_total _ _ s1 (proj2 Rh)) as (cy & s2 & E2 & Hcy).
  destruct (randint_total _ _ s2 (proj2 Rm)) as (radius & s3 & E3 & Hr).
  erewrite bind_ok by exact E1. erewrite bind_ok by exact E2.
  erewrite bind_ok by exact E3.
  exists cx, cy, radius, s3. split; [reflexivity|].
  split; [exact Hcx|]. split; [exact Hcy|]. split; [exact Hr|].
  split; [lia|]. split; [lia|]. split; [lia|].
  destruct (clamp_range strength (1 # 10) (6 # 10) ltac:(lra)) as [Clo Chi].
  set (c := clamp strength (1 # 10) (6 # 10)) in *.
  assert (H25 : (py_int (255 * (1 # 10)) <= py_int (255 * c))%Z)
    by (apply py_int_mono; lra).
  assert (H153 : (py_int (255 * c) <= py_int (255 * (6 # 10)))%Z)
    by (apply py_int_mono; lra).
  change (py_int (255 * (1 # 10))) with 25%Z in H25.
  change (py_int (255 * (6 # 10))) with 153%Z in H153.
  lia.
Qed.

(** X23.  On an image of positive size [add_moire] draws a frequency
    between 8 and 16 and an angle between 0 and pi and blends the image with
    the sine pattern of the image's size, with a weight that is the strength
    clamped to [0, 0.3].  The pattern is RGB: on an RGB image the blend
    succeeds and gives an RGB image of the same size. *)
Theorem add_moire_parameters (img : Image) (w h : Z) (strength : Q) (s : RNG) :
  image_size img = (w, h) -> (0 < w)%Z -> (0 < h)%Z ->
  exists (freq angle : Q) (s' : RNG),
    add_moire img strength s
    = lift (img_blend img (moire_pattern (w, h) freq angle) (clamp strength 0 (3 # 10))) s'
    /\ (8 <= freq /\ freq <= 16)
    /\ (0 <= angle /\ angle <= math_pi)
    /\ (0 <= clamp strength 0 (3 # 10) /\ clamp strength 0 (3 # 10) <= 3 # 10)
    /\ (img_mode img = "RGB"%string ->
        exists img' : Image,
          add_moire img strength s = Ok (img', s')
          /\ image_size img' = (w, h) /\ img_mode img' = "RGB"%string).
Proof.
  intros Hsize Hw Hh. unfold add_moire. rewrite Hsize.
  destruct (uniform_run 8 16 s) as (r1 & s1 & E1 & A1 & B1).
  destruct (uniform_run 0 math_pi s1) as (r2 & s2 & E2 & A2 & B2).
  erewrite bind_ok by exact E1. erewrite bind_ok by exact E2.
  exists (8 + (16 - 8) * r1), (0 + (math_pi - 0) * r2), s2.
  split; [reflexivity|].
  assert (Hpi : 0 < math_pi) by reflexivity.
  split; [split; lra|]. split; [split; nra|].
  split; [apply clamp_range; lra|].
  intro Hrgb.
  destruct (moire_blend img w h (8 + (16 - 8) * r1) (0 + (math_pi - 0) * r2)
              (clamp strength 0 (3 # 10)) Hsize Hw Hh Hrgb) as (img' & E & Hs' & Hm').
  exists img'. unfold lift. rewrite E. split; [reflexivity|]. split; assumption.
Qed.
End Photometric.

Section PhotometricTotal.
Context {RNG : Type} `{RandomSource RNG} `{!RandomLaws RNG}.
Context {Image : Type} `{ImageLib Image} `{!ImageLaws Image}.

(** X24.  On an RGB image of positive size the photometric stages (moire,
    glare, brightness, contrast) never raise, whatever the flags and the
    draws; they return an RGB image of the same size. *)
Theorem photometric_stages_total (img : Image) (w h : Z)
    (apply_moire_flag apply_glare_flag : bool) (s : RNG) :
  image_size img = (w, h) -> (0 < w)%Z -> (0 < h)%Z -> img_mode img = "RGB"%string ->
  exists (img' : Image) (s' : RNG),
    photometric_stages img apply_moire_flag apply_glare_flag s = Ok (img', s')
    /\ image_size img' = (w, h)
    /\ img_mode img' = "RGB"%string.
Proof.
  apply photometric_stages_run.
Qed.
End PhotometricTotal.

Lemma add_glare_parameters_witness :
  exists (cx cy radius : Z) (s' : Scripted.rng),
    @add_glare _ ScriptedRandom _ (SizedImages disk0) canvas100 (1 # 2) [7; 8; 9]%Z
    = Ok (@img_convert _ (SizedImages disk0)
            (@img_alpha_composite _ (SizedImages disk0)
               (@img_convert _ (SizedImages disk0) canvas100 "RGBA")
               (@glare_overlay _ (SizedImages disk0) (100, 100)%Z
                  (cx - radius, cy - radius, cx + radius, cy + radius)%Z
                  (py_int (255 * clamp (1 # 2) (1 # 10) (6 # 10)))
                  (inject_Z radius * (35 # 100))))
            "RGB", s')
    /\ (py_int (inject_Z 100 * (1 # 10)) <= cx <= py_int (inject_Z 100 * (9 # 10)))%Z
    /\ (py_int (inject_Z 100 * (1 # 10)) <= cy <= py_int (inject_Z 100 * (9 # 10)))%Z
    /\ (py_int (inject_Z (Z.min 100 100) * (15 # 100)) <= radius
        <= py_int (inject_Z (Z.min 100 100) * (35 # 100)))%Z
    /\ (0 <= cx <= 100)%Z /\ (0 <= cy <= 100)%Z /\ (0 <= radius <= Z.min 100 100)%Z
    /\ (25 <= py_int (255 * clamp (1 # 2) (1 # 10) (6 # 10)) <= 153)%Z.
Proof.
  apply (@add_glare_parameters _ ScriptedRandom ScriptedLaws _ (SizedImages disk0)
           canvas100 100 100 (1 # 2) [7; 8; 9]%Z); [reflexivity | lia | lia].
Defined.

Lemma add_moire_parameters_witness :
  exists (freq angle : Q) (s' : Scripted.rng),
    @add_moire _ ScriptedRandom _ (SizedImages disk0) canvas100 (1 # 2) [half; half]%Z
    = lift (@img_blend _ (SizedImages disk0) canvas100
              (@moire_pattern _ (SizedImages disk0) (100, 100)%Z freq angle)
              (clamp (1 # 2) 0 (3 # 10))) s'
    /\ (8 <= freq /\ freq <= 16)
    /\ (0 <= angle /\ angle <= math_pi)
    /\ (0 <= clamp (1 # 2) 0 (3 # 10) /\ clamp (1 # 2) 0 (3 # 10) <= 3 # 10)
    /\ (@img_mode _ (SizedImages disk0) canvas100 = "RGB"%string ->
        exists img' : Sized.image,
          @add_moire _ ScriptedRandom _ (SizedImages disk0) canvas100 (1 # 2) [half; half]%Z
          = Ok (img', s')
          /\ @image_size _ (SizedImages disk0) img' = (100, 100)%Z
          /\ @img_mode _ (SizedImages disk0) img' = "RGB"%string).
Proof.
  apply (@add_moire_parameters _ ScriptedRandom ScriptedLaws _ (SizedImages disk0)
           (SizedLaws disk0) canvas100 100 100 (1 # 2) [half; half]%Z);
    [reflexivity | lia | lia].
Defined.

(** The moire stage on an image with an alpha channel: four bands against
    the three of the pattern. *)
Example add_moire_on_rgba :
  @add_moire _ ScriptedRandom _ (SizedImages disk0)
    (Sized.Image "RGBA" (100, 100)%Z) (1 # 2) [half; half]%Z
  = Err ImagesDoNotMatch.
Proof. vm_compute. reflexivity. Qed.

Lemma photometric_stages_total_witness :
  exists (img' : Sized.image) (s' : Scripted.rng),
    @photometric_stages _ ScriptedRandom _ (SizedImages disk0) canvas100 true true
      [half; half; half; half; 7; 8; 9; half; half]%Z = Ok (img', s')
    /\ @image_size _ (SizedImages disk0) img' = (100, 100)%Z
    /\ @img_mode _ (SizedImages disk0) img' = "RGB"%string.
Proof.
  apply (@photometric_stages_total _ ScriptedRandom ScriptedLaws _ (SizedImages disk0)
           (SizedLaws disk0) canvas100 100 100 true true); [reflexivity | lia | lia | reflexivity].
Defined.
